(** * ROI-DSL front end: parser and validator

    A shallow embedding of [compiler/parser.py] (class [ROIDSLParser]) and
    [compiler/validator.py] (class [ROIValidator]).

    Conventions of the embedding.
    - A Python [str] is a [string]; a character is a code point below 256,
      classified exactly as CPython classifies it ([str.isspace],
      [str.isupper], and the [re] classes [\s], [\w], [\d], [.]).
    - A Python [float] is a binary64 value of [SpecFloat.spec_float].
    - A [set] of names is a [gset string]; a [Dict[str, str]] fact table is
      a [gmap string string]; a Python list is a [list].
    - [raise] is the [Raise] constructor of [result]; the parser threads the
      AST it mutates, the validator threads the object [self]. *)

From Stdlib Require Import ZArith Ascii String SpecFloat.
From stdpp Require Import base option list strings pretty gmap.

Local Open Scope stdpp_scope.
Local Arguments String.append !_ _ / : simpl nomatch.

(** ** Characters *)

Module Char.

Definition code (c : ascii) : N := N_of_ascii c.

Definition between (lo hi : N) (c : ascii) : bool :=
  ((lo <=? code c) && (code c <=? hi))%N.

(** [str.isspace], which is also the class [\s] of [re] on [str]. *)
Definition isspace (c : ascii) : bool :=
  between 9 13 c || between 28 32 c || (code c =? 133)%N || (code c =? 160)%N.

(** The class [\d] of [re]: decimal digits. *)
Definition isdigit (c : ascii) : bool := between 48 57 c.

(** The range [[A-Z]]. *)
Definition isAZ (c : ascii) : bool := between 65 90 c.

(** The class [\w] of [re]: alphanumeric code points and the underscore. *)
Definition isword (c : ascii) : bool :=
  isdigit c || isAZ c || between 97 122 c || (code c =? 95)%N
  || (code c =? 170)%N || between 178 179 c || (code c =? 181)%N
  || between 185 186 c || between 188 190 c || between 192 214 c
  || between 216 246 c || between 248 255 c.

(** [str.isupper] of a one-character string. *)
Definition isupper (c : ascii) : bool :=
  isAZ c || between 192 214 c || between 216 222 c.

(** The class [.] of [re]: anything but a newline. *)
Definition isdot (c : ascii) : bool := negb (code c =? 10)%N.

(** The double quote. *)
Definition dquote : ascii := "034"%char.

Definition eq (a : ascii) (c : ascii) : bool := Ascii.eqb a c.

Definition neq (a : ascii) (c : ascii) : bool := negb (Ascii.eqb a c).

Definition oneof (l : list ascii) (c : ascii) : bool := existsb (Ascii.eqb c) l.

Definition or (p q : ascii → bool) (c : ascii) : bool := p c || q c.

(** The class [[\d.]]: a decimal digit or a dot. *)
Definition digit_or_dot : ascii → bool := or isdigit (eq ".").

(** [str.lower] of a one-character string: an upper-case letter is 32
    code points below its lower-case form. *)
Definition lower (c : ascii) : ascii :=
  if isupper c then ascii_of_N (N_of_ascii c + 32) else c.

End Char.

(** ** Strings: the [str] methods the front end calls *)

Module Str.

Fixpoint all (p : ascii → bool) (s : string) : bool :=
  match s with
  | EmptyString => true
  | String c s' => p c && all p s'
  end.

(** [bool(s)]: a string is truthy when it is not empty. *)
Definition truthy (s : string) : bool :=
  match s with EmptyString => false | String _ _ => true end.

(** [s.startswith(p)] *)
Fixpoint startswith (p s : string) : bool :=
  match p, s with
  | EmptyString, _ => true
  | String a p', String b s' => Ascii.eqb a b && startswith p' s'
  | String _ _, EmptyString => false
  end.

(** [p in s] for strings: [p] occurs in [s] as a substring. *)
Fixpoint contains (p s : string) : bool :=
  startswith p s ||
  match s with
  | EmptyString => false
  | String _ s' => contains p s'
  end.

(** [c in s] for a one-character [c]. *)
Fixpoint has_char (c : ascii) (s : string) : bool :=
  match s with
  | EmptyString => false
  | String b s' => Ascii.eqb c b || has_char c s'
  end.

Fixpoint lstrip (s : string) : string :=
  match s with
  | EmptyString => EmptyString
  | String c s' => if Char.isspace c then lstrip s' else s
  end.

(** Drops the trailing white space: a character is kept when something
    that is kept follows it, or when it is not white space itself. *)
Fixpoint rstrip (s : string) : string :=
  match s with
  | EmptyString => EmptyString
  | String c s' =>
      match rstrip s' with
      | EmptyString => if Char.isspace c then EmptyString else String c EmptyString
      | r => String c r
      end
  end.

(** [s.strip()] *)
Definition strip (s : string) : string := rstrip (lstrip s).

(** [s.split('\n')]: never empty, one more piece than there are newlines. *)
Fixpoint split_lines (s : string) : list string :=
  match s with
  | EmptyString => [EmptyString]
  | String c s' =>
      if Ascii.eqb c "010"%char then EmptyString :: split_lines s'
      else match split_lines s' with
           | l :: ls => String c l :: ls
           | [] => [String c EmptyString]
           end
  end.

(** [sep.join(l)] *)
Fixpoint join (sep : string) (l : list string) : string :=
  match l with
  | [] => EmptyString
  | [x] => x
  | x :: l' => x +:+ sep +:+ join sep l'
  end.

(** [s[0]], which raises [IndexError] on the empty string. *)
Definition head (s : string) : option ascii :=
  match s with EmptyString => None | String c _ => Some c end.

(** The one-character string of a double quote. *)
Definition dq : string := String Char.dquote EmptyString.

Definition snoc (s : string) (c : ascii) : string := s +:+ String c EmptyString.

(** [s.lower()] *)
Fixpoint lower (s : string) : string :=
  match s with
  | EmptyString => EmptyString
  | String c s' => String (Char.lower c) (lower s')
  end.

(** [s.split(c)[0]]: the text before the first [c], all of [s] when it
    holds none. *)
Fixpoint before (c : ascii) (s : string) : string :=
  match s with
  | EmptyString => EmptyString
  | String a s' => if Ascii.eqb a c then EmptyString else String a (before c s')
  end.

End Str.

(** ** Regular expressions

    The patterns of the front end are sequences of literals and of
    quantified character classes, with capture groups that do not nest.
    [Re.run] is a backtracking matcher with the semantics of [re]: greedy
    quantifiers try the longest repetition first, lazy ones the shortest,
    and the first alternative that lets the rest of the pattern match
    wins. *)

Module Re.

Inductive item : Type :=
| Lit (c : ascii)                 (* the character itself *)
| One (p : ascii → bool)          (* [c] *)
| Opt (p : ascii → bool)          (* [c]? *)
| Star (p : ascii → bool)         (* [c]* *)
| Plus (p : ascii → bool)         (* [c]+ *)
| LazyPlus (p : ascii → bool)     (* [c]+? *)
| Open                            (* ( *)
| Close                           (* ) *)
| Bnd.                            (* \b *)

Definition pattern := list item.

(** The literal characters of a keyword. *)
Fixpoint lit (s : string) : pattern :=
  match s with
  | EmptyString => []
  | String c s' => Lit c :: lit s'
  end.

(** What a successful match reports: the groups, in order, the last
    character before the end of the match, and the text left after it. *)
Definition outcome : Type := list string * option ascii * string.

(** The text of the group being captured, if one is open. *)
Definition push (cur : option string) (c : ascii) : option string :=
  match cur with
  | Some g => Some (Str.snoc g c)
  | None => None
  end.

(** Whether there is a character and it is a word character. *)
Definition wordch (o : option ascii) : bool :=
  match o with Some c => Char.isword c | None => false end.

(** [\b] holds between a word character and a non-word character (or an
    end of the text). *)
Definition at_boundary (prev : option ascii) (s : string) : bool :=
  xorb (wordch prev) (wordch (Str.head s)).

Section Quantifiers.
Context {R : Type}.
Variable p : ascii → bool.
Variable k : option ascii → string → option string → option R.

(** [c]* greedy: take one more character when possible and fall back
    on stopping here when the rest fails. *)
Fixpoint greedy (prev : option ascii) (s : string) (cur : option string)
  : option R :=
  match s with
  | String c s' =>
      if p c then
        match greedy (Some c) s' (push cur c) with
        | Some r => Some r
        | None => k prev s cur
        end
      else k prev s cur
  | EmptyString => k prev s cur
  end.

(** [c]*? lazy: stop here when the rest matches, else take one more. *)
Fixpoint reluctant (prev : option ascii) (s : string) (cur : option string)
  : option R :=
  match k prev s cur with
  | Some r => Some r
  | None =>
      match s with
      | String c s' => if p c then reluctant (Some c) s' (push cur c) else None
      | EmptyString => None
      end
  end.

Definition one (q : option ascii → string → option string → option R)
    (s : string) (cur : option string) : option R :=
  match s with
  | String c s' => if p c then q (Some c) s' (push cur c) else None
  | EmptyString => None
  end.

Definition optional (prev : option ascii) (s : string) (cur : option string)
  : option R :=
  match one k s cur with
  | Some r => Some r
  | None => k prev s cur
  end.
End Quantifiers.

(** [groups] holds the finished groups, last first, and [cur] the text of
    the open one. *)
Fixpoint run (re : pattern) (groups : list string)
    (prev : option ascii) (s : string) (cur : option string) : option outcome :=
  match re with
  | [] => Some (reverse groups, prev, s)
  | Lit a :: re' => one (Char.eq a) (run re' groups) s cur
  | One p :: re' => one p (run re' groups) s cur
  | Opt p :: re' => optional p (run re' groups) prev s cur
  | Star p :: re' => greedy p (run re' groups) prev s cur
  | Plus p :: re' => one p (greedy p (run re' groups)) s cur
  | LazyPlus p :: re' => one p (reluctant p (run re' groups)) s cur
  | Open :: re' => run re' groups prev s (Some EmptyString)
  | Close :: re' => run re' (default EmptyString cur :: groups) prev s None
  | Bnd :: re' => if at_boundary prev s then run re' groups prev s cur else None
  end.

(** [re.match(pattern, s)]: the pattern must match at the start of [s];
    the result is the list of its groups. *)
Definition rmatch (re : pattern) (s : string) : option (list string) :=
  (λ o, fst (fst o)) <$> run re [] None s None.

(** [re.findall(pattern, s)] for a pattern without groups: the matches
    from left to right, each search resuming where the previous match
    ended. The pattern is tried at every position; [fuel] bounds the
    number of positions and is the length of the text plus one. An empty
    match, which the pattern of the validator cannot produce, moves the
    search on by one character. *)
Fixpoint findall_from (re : pattern) (fuel : nat)
    (prev : option ascii) (s : string) : list string :=
  match fuel with
  | O => []
  | S fuel' =>
      match run (Open :: re ++ [Close]) [] prev s None, s with
      | Some ([m], last, rest), String c s' =>
          if Str.truthy m then m :: findall_from re fuel' last rest
          else m :: findall_from re fuel' (Some c) s'
      | Some ([m], _, _), EmptyString => [m]
      | _, String c s' => findall_from re fuel' (Some c) s'
      | _, EmptyString => []
      end
  end.

Definition findall (re : pattern) (s : string) : list string :=
  findall_from re (S (String.length s)) None s.

End Re.

(** ** Exceptions and results *)

Inductive exn : Type :=
| SyntaxError (msg : string)
| ValueError (msg : string)
| IndexError (msg : string).

Inductive result (A : Type) : Type :=
| Ok (a : A)
| Raise (e : exn).
Arguments Ok {A} a.
Arguments Raise {A} e.

Definition bind {A B : Type} (r : result A) (f : A → result B) : result B :=
  match r with
  | Ok a => f a
  | Raise e => Raise e
  end.

(** ** [float(s)]

    The parser calls [float] on the text matched by [[\d.]+] only. On such
    a text [float] succeeds exactly when there is at least one digit and
    at most one dot, and returns the binary64 value nearest to the decimal
    (ties to even); otherwise it raises [ValueError]. *)

Module Float.

Definition prec : Z := 53.
Definition emax : Z := 1024.

Definition zero : spec_float := S754_zero false.

(** The float of the integer [1], for the comparison with [1.0]. *)
Definition one : spec_float := SFone prec emax.

(** [x < y] on floats. *)
Definition ltb (x y : spec_float) : bool := SFltb x y.

Definition digit_value (c : ascii) : N := (Char.code c - 48)%N.

(** The digits before the first dot, and what follows that dot. *)
Fixpoint cut_at_dot (s : string) : string * option string :=
  match s with
  | EmptyString => (EmptyString, None)
  | String c s' =>
      if Char.eq "." c then (EmptyString, Some s')
      else let '(i, f) := cut_at_dot s' in (String c i, f)
  end.

Fixpoint decimal (acc : N) (s : string) : N :=
  match s with
  | EmptyString => acc
  | String c s' => decimal (10 * acc + digit_value c) s'
  end.

(** The binary64 value nearest to [m / 10^k]. *)
Definition of_decimal (m : N) (k : nat) : spec_float :=
  match m with
  | N0 => zero
  | Npos p =>
      SFdiv prec emax (S754_finite false p 0)
        (S754_finite false (Nat.iter k (Pos.mul 10) 1%positive) 0)
  end.

Definition of_digits (i f : string) : option spec_float :=
  if Str.all Char.isdigit (i +:+ f) && Str.truthy (i +:+ f) then
    Some (of_decimal (decimal 0 (i +:+ f)) (String.length f))
  else None.

Definition of_string (s : string) : option spec_float :=
  match cut_at_dot s with
  | (i, None) => of_digits i EmptyString
  | (i, Some f) => of_digits i f
  end.

End Float.

(** ** AST node classes *)

Module PersonaNode.
Record t : Type := mk { name : string; value : string }.
End PersonaNode.

Module GoalNode.
Record t : Type := mk { name : string; value : string }.
End GoalNode.

Module MetricNode.
Record t : Type := mk { name : string; value : spec_float }.
End MetricNode.

Module RMetricNode.
Record t : Type := mk { name : string; expr : string }.
End RMetricNode.

Module TriggerNode.
Record t : Type := mk { condition : string; action : string }.
End TriggerNode.

Module VariantNode.
(** The field [type] of the source is [type_] here. *)
Record t : Type := mk { type_ : string; value : string }.
End VariantNode.

(** Root AST node for a ROI-DSL file. *)
Record ROIDSLAST : Type := mkAST {
  persona : option PersonaNode.t;
  personas : list PersonaNode.t;
  goals : list GoalNode.t;
  metrics : list MetricNode.t;
  rmetrics : list RMetricNode.t;
  triggers : list TriggerNode.t;
  variants : list VariantNode.t;
  credentials : gmap string string;
  case_studies : gmap string string;
  services : gmap string string;
  training : gmap string string;
  vroi_inputs : gmap string string;
  vroi_outputs : gmap string string;
  stats : gmap string string;
  microtraining : gmap string string;
  seo : gmap string string;
  contact : gmap string string;
  sk_tags : list string;
  output : option string
}.

(** [ROIDSLAST()]: every field at its default. *)
Definition empty_ast : ROIDSLAST :=
  mkAST None [] [] [] [] [] [] ∅ ∅ ∅ ∅ ∅ ∅ ∅ ∅ ∅ ∅ [] None.

(** The fact tables, by the directive that fills them. *)
Inductive table : Type :=
| Credentials | CaseStudies | Services | Training | VroiInputs | VroiOutputs
| Stats | Microtraining | Seo | Contact.

Definition get_table (t : table) (a : ROIDSLAST) : gmap string string :=
  match t with
  | Credentials => credentials a
  | CaseStudies => case_studies a
  | Services => services a
  | Training => training a
  | VroiInputs => vroi_inputs a
  | VroiOutputs => vroi_outputs a
  | Stats => stats a
  | Microtraining => microtraining a
  | Seo => seo a
  | Contact => contact a
  end.

(** [table[key] = value] on the table [t] of the AST. *)
Definition table_insert (t : table) (key value : string) (a : ROIDSLAST)
  : ROIDSLAST :=
  let '(mkAST p ps g m r tr v cr cs sv tn vi vo st mt se co tg o) := a in
  match t with
  | Credentials => mkAST p ps g m r tr v (<[key:=value]> cr) cs sv tn vi vo st mt se co tg o
  | CaseStudies => mkAST p ps g m r tr v cr (<[key:=value]> cs) sv tn vi vo st mt se co tg o
  | Services => mkAST p ps g m r tr v cr cs (<[key:=value]> sv) tn vi vo st mt se co tg o
  | Training => mkAST p ps g m r tr v cr cs sv (<[key:=value]> tn) vi vo st mt se co tg o
  | VroiInputs => mkAST p ps g m r tr v cr cs sv tn (<[key:=value]> vi) vo st mt se co tg o
  | VroiOutputs => mkAST p ps g m r tr v cr cs sv tn vi (<[key:=value]> vo) st mt se co tg o
  | Stats => mkAST p ps g m r tr v cr cs sv tn vi vo (<[key:=value]> st) mt se co tg o
  | Microtraining => mkAST p ps g m r tr v cr cs sv tn vi vo st (<[key:=value]> mt) se co tg o
  | Seo => mkAST p ps g m r tr v cr cs sv tn vi vo st mt (<[key:=value]> se) co tg o
  | Contact => mkAST p ps g m r tr v cr cs sv tn vi vo st mt se (<[key:=value]> co) tg o
  end.

(** [ast.persona = node] when no primary persona is set, then
    [ast.personas.append(node)]. *)
Definition add_persona (node : PersonaNode.t) (a : ROIDSLAST) : ROIDSLAST :=
  let '(mkAST p ps g m r tr v cr cs sv tn vi vo st mt se co tg o) := a in
  mkAST (match p with Some q => Some q | None => Some node end) (ps ++ [node])
    g m r tr v cr cs sv tn vi vo st mt se co tg o.

Definition add_goal (node : GoalNode.t) (a : ROIDSLAST) : ROIDSLAST :=
  let '(mkAST p ps g m r tr v cr cs sv tn vi vo st mt se co tg o) := a in
  mkAST p ps (g ++ [node]) m r tr v cr cs sv tn vi vo st mt se co tg o.

Definition add_metric (node : MetricNode.t) (a : ROIDSLAST) : ROIDSLAST :=
  let '(mkAST p ps g m r tr v cr cs sv tn vi vo st mt se co tg o) := a in
  mkAST p ps g (m ++ [node]) r tr v cr cs sv tn vi vo st mt se co tg o.

Definition add_rmetric (node : RMetricNode.t) (a : ROIDSLAST) : ROIDSLAST :=
  let '(mkAST p ps g m r tr v cr cs sv tn vi vo st mt se co tg o) := a in
  mkAST p ps g m (r ++ [node]) tr v cr cs sv tn vi vo st mt se co tg o.

Definition add_trigger (node : TriggerNode.t) (a : ROIDSLAST) : ROIDSLAST :=
  let '(mkAST p ps g m r tr v cr cs sv tn vi vo st mt se co tg o) := a in
  mkAST p ps g m r (tr ++ [node]) v cr cs sv tn vi vo st mt se co tg o.

Definition add_variant (node : VariantNode.t) (a : ROIDSLAST) : ROIDSLAST :=
  let '(mkAST p ps g m r tr v cr cs sv tn vi vo st mt se co tg o) := a in
  mkAST p ps g m r tr (v ++ [node]) cr cs sv tn vi vo st mt se co tg o.

Definition add_sk_tag (tag : string) (a : ROIDSLAST) : ROIDSLAST :=
  let '(mkAST p ps g m r tr v cr cs sv tn vi vo st mt se co tg o) := a in
  mkAST p ps g m r tr v cr cs sv tn vi vo st mt se co (tg ++ [tag]) o.

Definition set_output (kind : string) (a : ROIDSLAST) : ROIDSLAST :=
  let '(mkAST p ps g m r tr v cr cs sv tn vi vo st mt se co tg _) := a in
  mkAST p ps g m r tr v cr cs sv tn vi vo st mt se co tg (Some kind).

(** The closed OUTPUT vocabulary, [valid_outputs] in both classes. *)
Definition valid_outputs : list string :=
  ["SMS_CAMPAIGN"; "AGENT"; "RMetrics"; "vROI"; "MintSite"; "SK_SKILL"].

(** [x in l] for a list of strings. *)
Definition in_list (x : string) (l : list string) : bool :=
  existsb (String.eqb x) l.

(** ** The parser, class [ROIDSLParser] *)

Module ROIDSLParser.

Import Re.

Definition sp_plus : item := Plus Char.isspace.
Definition sp_star : item := Star Char.isspace.

(** [(\w+)] *)
Definition word_group : pattern := [Open; Plus Char.isword; Close].

(** A double quote, [([^q]+)] where [q] is the double quote, and a
    double quote. *)
Definition quoted_group : pattern :=
  [Lit Char.dquote; Open; Plus (Char.neq Char.dquote); Close; Lit Char.dquote].

(** [\s*:\s*] and the quoted group. *)
Definition colon_quoted : pattern := [sp_star; Lit ":"; sp_star] ++ quoted_group.

(** [KW\s+(\w+)\s*:\s*] and the quoted group: the shape shared by
    PERSONA, GOAL, RMetric, VARIANT and the keyed fact tables. *)
Definition keyed (kw : string) : pattern :=
  lit kw ++ [sp_plus] ++ word_group ++ colon_quoted.

(** [PREFIX(\w+)\s*:\s*] and the quoted group, for [SEO_] and [CONTACT_]. *)
Definition prefixed (kw : string) : pattern :=
  lit kw ++ word_group ++ colon_quoted.

(** [SK_TAG\s*:\s*] and the quoted group. *)
Definition sk_tag_pattern : pattern := lit "SK_TAG" ++ colon_quoted.

(** [METRIC\s+(\w+)\s*:\s*([\d.]+)] *)
Definition metric_pattern : pattern :=
  lit "METRIC" ++ [sp_plus] ++ word_group ++
  [sp_star; Lit ":"; sp_star; Open; Plus (Char.digit_or_dot); Close].

(** [WHEN\s+(.+?)\s+THEN\s+(.+)] *)
Definition trigger_pattern : pattern :=
  lit "WHEN" ++ [sp_plus; Open; LazyPlus Char.isdot; Close; sp_plus] ++
  lit "THEN" ++ [sp_plus; Open; Plus Char.isdot; Close].

(** [OUTPUT\s+(\w+)] *)
Definition output_pattern : pattern := lit "OUTPUT" ++ [sp_plus] ++ word_group.

Definition invalid (what line : string) : exn :=
  SyntaxError ("Invalid " +:+ what +:+ " syntax: " +:+ line).

Definition _parse_persona (line : string) (ast : ROIDSLAST) : result ROIDSLAST :=
  match rmatch (keyed "PERSONA") line with
  | Some [name; value] => Ok (add_persona (PersonaNode.mk name value) ast)
  | _ => Raise (invalid "PERSONA" line)
  end.

(** The body shared by the fact-table directives: match, then
    [table[key] = value]. *)
Definition parse_table (re : pattern) (what : string) (t : table)
    (line : string) (ast : ROIDSLAST) : result ROIDSLAST :=
  match rmatch re line with
  | Some [key; value] => Ok (table_insert t key value ast)
  | _ => Raise (invalid what line)
  end.

Definition _parse_credential := parse_table (keyed "CREDENTIAL") "CREDENTIAL" Credentials.
Definition _parse_case_study := parse_table (keyed "CASE_STUDY") "CASE_STUDY" CaseStudies.
Definition _parse_service := parse_table (keyed "SERVICE") "SERVICE" Services.
Definition _parse_training := parse_table (keyed "TRAINING") "TRAINING" Training.
Definition _parse_vroi_input := parse_table (keyed "VROI_INPUT") "VROI_INPUT" VroiInputs.
Definition _parse_vroi_output := parse_table (keyed "VROI_OUTPUT") "VROI_OUTPUT" VroiOutputs.
Definition _parse_stat := parse_table (keyed "STAT") "STAT" Stats.
Definition _parse_microtraining :=
  parse_table (keyed "MICROTRAINING") "MICROTRAINING" Microtraining.
Definition _parse_seo := parse_table (prefixed "SEO_") "SEO" Seo.
Definition _parse_contact := parse_table (prefixed "CONTACT_") "CONTACT" Contact.

Definition _parse_sk_tag (line : string) (ast : ROIDSLAST) : result ROIDSLAST :=
  match rmatch sk_tag_pattern line with
  | Some [value] => Ok (add_sk_tag value ast)
  | _ => Raise (invalid "SK_TAG" line)
  end.

Definition _parse_goal (line : string) (ast : ROIDSLAST) : result ROIDSLAST :=
  match rmatch (keyed "GOAL") line with
  | Some [name; value] => Ok (add_goal (GoalNode.mk name value) ast)
  | _ => Raise (invalid "GOAL" line)
  end.

(** [float(match.group(2))] is not guarded: when the text of digits and
    dots is no float literal the [ValueError] of [float] propagates. *)
Definition _parse_metric (line : string) (ast : ROIDSLAST) : result ROIDSLAST :=
  match rmatch metric_pattern line with
  | Some [name; number] =>
      match Float.of_string number with
      | Some value => Ok (add_metric (MetricNode.mk name value) ast)
      | None =>
          Raise (ValueError ("could not convert string to float: '" +:+ number +:+ "'"))
      end
  | _ => Raise (invalid "METRIC" line)
  end.

Definition _parse_rmetric (line : string) (ast : ROIDSLAST) : result ROIDSLAST :=
  match rmatch (keyed "RMetric") line with
  | Some [name; expr] => Ok (add_rmetric (RMetricNode.mk name expr) ast)
  | _ => Raise (invalid "RMetric" line)
  end.

Definition _parse_trigger (line : string) (ast : ROIDSLAST) : result ROIDSLAST :=
  match rmatch trigger_pattern line with
  | Some [condition; action] =>
      Ok (add_trigger (TriggerNode.mk (Str.strip condition) (Str.strip action)) ast)
  | _ => Raise (invalid "WHEN/THEN" line)
  end.

Definition _parse_variant (line : string) (ast : ROIDSLAST) : result ROIDSLAST :=
  match rmatch (keyed "VARIANT") line with
  | Some [variant_type; value] =>
      Ok (add_variant (VariantNode.mk variant_type value) ast)
  | _ => Raise (invalid "VARIANT" line)
  end.

Definition _parse_output (line : string) (ast : ROIDSLAST) : result ROIDSLAST :=
  match rmatch output_pattern line with
  | Some [output_type] =>
      if negb (in_list output_type valid_outputs) then
        Raise (SyntaxError ("Invalid OUTPUT type '" +:+ output_type +:+
                            "'. Must be one of: " +:+ Str.join ", " valid_outputs))
      else Ok (set_output output_type ast)
  | _ => Raise (invalid "OUTPUT" line)
  end.

(** [__init__]: the stripped lines that are not empty. *)
Definition lines_of (text : string) : list string :=
  filter (λ l, Str.truthy l = true) (Str.strip <$> Str.split_lines text).

Definition is_comment (line : string) : bool :=
  Str.startswith "#" line || Str.startswith "//" line.

(** One turn of the loop of [parse] on a line that is not a comment: the
    chain of [startswith] tests, in the order of the source.
    [current_line] is the index of the line in [self.lines]. *)
Definition dispatch (current_line : nat) (line : string) (ast : ROIDSLAST)
  : result ROIDSLAST :=
  if Str.startswith "PERSONA" line then _parse_persona line ast
  else if Str.startswith "GOAL" line then _parse_goal line ast
  else if Str.startswith "METRIC" line && negb (Str.startswith "RMetric" line)
    then _parse_metric line ast
  else if Str.startswith "RMetric" line then _parse_rmetric line ast
  else if Str.startswith "WHEN" line then _parse_trigger line ast
  else if Str.startswith "VARIANT" line then _parse_variant line ast
  else if Str.startswith "CREDENTIAL" line then _parse_credential line ast
  else if Str.startswith "CASE_STUDY" line then _parse_case_study line ast
  else if Str.startswith "SERVICE" line then _parse_service line ast
  else if Str.startswith "TRAINING" line then _parse_training line ast
  else if Str.startswith "VROI_INPUT" line then _parse_vroi_input line ast
  else if Str.startswith "VROI_OUTPUT" line then _parse_vroi_output line ast
  else if Str.startswith "STAT" line then _parse_stat line ast
  else if Str.startswith "MICROTRAINING" line then _parse_microtraining line ast
  else if Str.startswith "SEO_" line then _parse_seo line ast
  else if Str.startswith "CONTACT_" line then _parse_contact line ast
  else if Str.startswith "SK_TAG" line then _parse_sk_tag line ast
  else if Str.startswith "OUTPUT" line then _parse_output line ast
  else Raise (SyntaxError ("Unknown syntax at line " +:+ pretty (current_line + 1)
                           +:+ ": " +:+ line)).

(** The loop of [parse] from index [current_line] on, [lines] being what
    is left of [self.lines] from that index. *)
Fixpoint parse_from (current_line : nat) (lines : list string) (ast : ROIDSLAST)
  : result ROIDSLAST :=
  match lines with
  | [] => Ok ast
  | line :: rest =>
      if is_comment line then parse_from (S current_line) rest ast
      else bind (dispatch current_line line ast) (parse_from (S current_line) rest)
  end.

(** [ROIDSLParser(text).parse()] *)
Definition parse (text : string) : result ROIDSLAST :=
  parse_from 0 (lines_of text) empty_ast.

(** [get_metrics_map]: [{m.name: m.value for m in self.ast.metrics}]; the
    comprehension stores the entries in order, a later one replacing an
    earlier one with the same name. *)
Definition get_metrics_map (ast : ROIDSLAST) : gmap string spec_float :=
  foldl (λ d m, <[MetricNode.name m := MetricNode.value m]> d) ∅ (metrics ast).

(** [get_goals_map]: [{g.name: g.value for g in self.ast.goals}] *)
Definition get_goals_map (ast : ROIDSLAST) : gmap string string :=
  foldl (λ d g, <[GoalNode.name g := GoalNode.value g]> d) ∅ (goals ast).

End ROIDSLParser.

(** ** The validator, class [ROIValidator] *)

(** The dictionary [validate] returns. *)
Module Report.
Record t : Type := mk { errors : list string; warnings : list string }.
End Report.

Module ROIValidator.

Import Re.

(** The object [self]. *)
Record self : Type := mkSelf {
  ast : ROIDSLAST;
  errors : list string;
  warnings : list string
}.

(** [ROIValidator(ast)] *)
Definition init (a : ROIDSLAST) : self := mkSelf a [] [].

(** A method body: it reads and updates [self] and either returns or
    raises; what it did to [self] before raising stays done. *)
Definition M (A : Type) : Type := self → self * result A.

Definition ret {A : Type} (a : A) : M A := λ s, (s, Ok a).

Definition raise {A : Type} (e : exn) : M A := λ s, (s, Raise e).

Definition mbind {A B : Type} (m : M A) (f : A → M B) : M B :=
  λ s, match m s with
       | (s', Ok a) => f a s'
       | (s', Raise e) => (s', Raise e)
       end.

Notation "x <- m ;; k" := (mbind m (λ x, k))
  (at level 100, m at next level, right associativity).
Notation "m ;; k" := (mbind m (λ _, k))
  (at level 100, right associativity).

(** [self.ast] *)
Definition get_ast : M ROIDSLAST := λ s, (s, Ok (ast s)).

(** [self.errors.append(msg)] *)
Definition errors_append (msg : string) : M unit :=
  λ s, (mkSelf (ast s) (errors s ++ [msg]) (warnings s), Ok tt).

(** [self.warnings.append(msg)] *)
Definition warnings_append (msg : string) : M unit :=
  λ s, (mkSelf (ast s) (errors s) (warnings s ++ [msg]), Ok tt).

(** [if c: body] *)
Definition when (c : bool) (body : M unit) : M unit :=
  if c then body else ret tt.

(** [name[0]] *)
Definition first_char (name : string) : M ascii :=
  match Str.head name with
  | Some c => ret c
  | None => raise (IndexError "string index out of range")
  end.

(** [for x in l: body(x)] *)
Fixpoint for_each {A : Type} (l : list A) (body : A → M unit) : M unit :=
  match l with
  | [] => ret tt
  | x :: l' => body x ;; for_each l' body
  end.

(** [bool(ast.output)]: neither [None] nor the empty string. *)
Definition has_output (a : ROIDSLAST) : bool :=
  match output a with Some o => Str.truthy o | None => false end.

Definition is_nil {A : Type} (l : list A) : bool :=
  match l with [] => true | _ => false end.

(** [{m.name for m in ast.metrics}] *)
Definition metric_name_set (a : ROIDSLAST) : gset string :=
  list_to_set (MetricNode.name <$> metrics a).

(** [re.findall(r'\b[A-Z]\w+\b', expr)] *)
Definition capital_tokens (expr : string) : list string :=
  findall [Bnd; One Char.isAZ; Plus Char.isword; Bnd] expr.

(** [(\w+)\s*([><=!]+)\s*([\d.]+)] *)
Definition condition_pattern : pattern :=
  [Open; Plus Char.isword; Close; Star Char.isspace;
   Open; Plus (Char.oneof [">"; "<"; "="; "!"]%char); Close; Star Char.isspace;
   Open; Plus (Char.digit_or_dot); Close].

(** [(\w+)\(q?\w+q?\)] where [q] is a double or a single quote. *)
Definition action_pattern : pattern :=
  [Open; Plus Char.isword; Close; Lit "(";
   Opt (Char.oneof [Char.dquote; "'"%char]); Plus Char.isword;
   Opt (Char.oneof [Char.dquote; "'"%char]); Lit ")"].

Definition valid_comparators : list string := [">"; "<"; ">="; "<="; "=="; "!="].

Definition _validate_mandatory_fields : M unit :=
  a <- get_ast ;;
  when (is_nil (goals a)) (errors_append "At least 1 GOAL is required") ;;
  when (is_nil (metrics a)) (errors_append "At least 1 METRIC is required") ;;
  when (negb (has_output a)) (errors_append "OUTPUT declaration is required") ;;
  when (negb (bool_decide (is_Some (persona a))))
    (warnings_append "PERSONA is recommended but not mandatory").

Definition _validate_persona : M unit :=
  a <- get_ast ;;
  match persona a with
  | Some p =>
      when (negb (Str.truthy (PersonaNode.value p)))
        (errors_append "PERSONA value cannot be empty") ;;
      when (String.length (PersonaNode.value p) <? 3)
        (warnings_append "PERSONA value is very short - consider more detail")
  | None => ret tt
  end.

(** The loop of [_validate_goals]; [goal_names] is the set built so far. *)
Fixpoint goals_loop (goal_names : gset string) (l : list GoalNode.t) : M unit :=
  match l with
  | [] => ret tt
  | goal :: l' =>
      let name := GoalNode.name goal in
      let value := GoalNode.value goal in
      when (bool_decide (name ∈ goal_names))
        (errors_append ("Duplicate GOAL name: " +:+ name)) ;;
      let goal_names := goal_names ∪ {[name]} in
      c <- first_char name ;;
      when (negb (Char.isupper c))
        (warnings_append ("GOAL name '" +:+ name +:+
                          "' should start with uppercase (PascalCase)")) ;;
      when (negb (Str.truthy value))
        (errors_append ("GOAL " +:+ name +:+ " has empty value")) ;;
      when (negb (existsb (λ char, Str.has_char char value) ["$"; "%"; "M"; "K"]%char))
        (warnings_append ("GOAL " +:+ name +:+
           " lacks quantifiable metric - consider adding dollar/percentage value")) ;;
      goals_loop goal_names l'
  end.

Definition _validate_goals : M unit :=
  a <- get_ast ;; goals_loop ∅ (goals a).

Section FloatText.

(** [str(x)] of a float, as an f-string formats it. *)
Variable float_str : spec_float → string.

Fixpoint metrics_loop (metric_names : gset string) (l : list MetricNode.t)
  : M unit :=
  match l with
  | [] => ret tt
  | metric :: l' =>
      let name := MetricNode.name metric in
      let value := MetricNode.value metric in
      when (bool_decide (name ∈ metric_names))
        (errors_append ("Duplicate METRIC name: " +:+ name)) ;;
      let metric_names := metric_names ∪ {[name]} in
      c <- first_char name ;;
      when (negb (Char.isupper c))
        (warnings_append ("METRIC name '" +:+ name +:+
                          "' should start with uppercase (PascalCase)")) ;;
      when (Float.ltb value Float.zero)
        (warnings_append ("METRIC " +:+ name +:+ " has negative value: " +:+
                          float_str value)) ;;
      when (Float.ltb Float.one value && Str.contains "Risk" name)
        (warnings_append ("METRIC " +:+ name +:+
           " appears to be a risk/drift metric but value > 1.0")) ;;
      metrics_loop metric_names l'
  end.

Definition _validate_metrics : M unit :=
  a <- get_ast ;; metrics_loop ∅ (metrics a).

End FloatText.

(** The inner loop of [_validate_rmetrics] over the tokens of one
    expression. *)
Definition undefined_refs (name : string) (metric_names rmetric_names : gset string)
    (expr_tokens : list string) : M unit :=
  for_each expr_tokens (λ token,
    when (negb (bool_decide (token ∈ metric_names)) &&
          negb (bool_decide (token ∈ rmetric_names)))
      (errors_append ("RMetric " +:+ name +:+ " references undefined METRIC: " +:+ token))).

(** The body of the loop of [_validate_rmetrics] for one RMetric; it
    returns the set of names with this one added. *)
Definition rmetric_body (metric_names rmetric_names : gset string)
    (rmetric : RMetricNode.t) : M (gset string) :=
  let name := RMetricNode.name rmetric in
  let expr := RMetricNode.expr rmetric in
  when (bool_decide (name ∈ rmetric_names))
    (errors_append ("Duplicate RMetric name: " +:+ name)) ;;
  let rmetric_names := rmetric_names ∪ {[name]} in
  c <- first_char name ;;
  when (negb (Char.isupper c))
    (warnings_append ("RMetric name '" +:+ name +:+
                      "' should start with uppercase (PascalCase)")) ;;
  undefined_refs name metric_names rmetric_names (capital_tokens expr) ;;
  when (Str.contains name expr)
    (errors_append ("RMetric " +:+ name +:+ " contains circular reference to itself")) ;;
  ret rmetric_names.

Fixpoint rmetrics_loop (metric_names rmetric_names : gset string)
    (l : list RMetricNode.t) : M unit :=
  match l with
  | [] => ret tt
  | rmetric :: l' =>
      rmetric_names <- rmetric_body metric_names rmetric_names rmetric ;;
      rmetrics_loop metric_names rmetric_names l'
  end.

Definition _validate_rmetrics : M unit :=
  a <- get_ast ;; rmetrics_loop (metric_name_set a) ∅ (rmetrics a).

Definition trigger_body (metric_names : gset string) (trigger : TriggerNode.t)
  : M unit :=
  match rmatch condition_pattern (TriggerNode.condition trigger) with
  | Some [metric_name; comparator; threshold] =>
      when (negb (bool_decide (metric_name ∈ metric_names)))
        (errors_append ("Trigger references undefined METRIC: " +:+ metric_name)) ;;
      when (negb (in_list comparator valid_comparators))
        (errors_append ("Invalid comparator '" +:+ comparator +:+ "' in trigger")) ;;
      when (negb (bool_decide (is_Some (rmatch action_pattern (TriggerNode.action trigger)))))
        (warnings_append ("Action '" +:+ TriggerNode.action trigger +:+
                          "' may have invalid syntax"))
  | _ =>
      errors_append ("Invalid trigger condition syntax: " +:+
                     TriggerNode.condition trigger)
  end.

Definition _validate_triggers : M unit :=
  a <- get_ast ;; for_each (triggers a) (trigger_body (metric_name_set a)).

Definition _validate_variants : M unit :=
  a <- get_ast ;;
  for_each (variants a) (λ variant,
    when (negb (Str.truthy (VariantNode.value variant)))
      (errors_append ("VARIANT " +:+ VariantNode.type_ variant +:+ " has empty value"))).

Definition output_is (kind : string) (a : ROIDSLAST) : bool :=
  bool_decide (output a = Some kind).

Definition _validate_output : M unit :=
  a <- get_ast ;;
  if negb (has_output a) then ret tt
  else
    when (negb (in_list (default EmptyString (output a)) valid_outputs))
      (errors_append ("Invalid OUTPUT type: " +:+ default EmptyString (output a))) ;;
    when (output_is "MintSite" a)
      (when (negb (bool_decide (is_Some (persona a))))
         (warnings_append "MintSite output works best with PERSONA defined") ;;
       when (is_nil (variants a))
         (warnings_append "MintSite output can use VARIANTs for page variants")) ;;
    when (output_is "SMS_CAMPAIGN" a)
      (when (length (goals a) =? 0)
         (warnings_append "SMS_CAMPAIGN output needs GOALs for message content")) ;;
    when (output_is "AGENT" a)
      (when (is_nil (triggers a))
         (warnings_append "AGENT output can use triggers for automation logic")).

Definition _validate_identifier_references : M unit :=
  a <- get_ast ;;
  let metric_names := metric_name_set a in
  for_each (rmetrics a) (λ rmetric,
    for_each (capital_tokens (RMetricNode.expr rmetric)) (λ token,
      when (negb (bool_decide (token ∈ metric_names)))
        (when (negb (in_list token ["AND"; "OR"; "NOT"; "IF"]))
           (warnings_append ("RMetric " +:+ RMetricNode.name rmetric +:+
              " references '" +:+ token +:+ "' which is not a declared METRIC"))))).

Definition validate (float_str : spec_float → string) : M Report.t :=
  _validate_mandatory_fields ;;
  _validate_persona ;;
  _validate_goals ;;
  _validate_metrics float_str ;;
  _validate_rmetrics ;;
  _validate_triggers ;;
  _validate_variants ;;
  _validate_output ;;
  _validate_identifier_references ;;
  (λ s, (s, Ok (Report.mk (errors s) (warnings s)))).

(** [is_valid]: no errors (warnings are fine). *)
Definition is_valid (s : self) : bool := length (errors s) =? 0.

End ROIValidator.

(** ** The interpreter, class [ROIInterpreter] *)

Module ROIInterpreter.

(** [f"{goal.name}: {goal.value}"] *)
Definition goal_text (goal : GoalNode.t) : string :=
  GoalNode.name goal +:+ ": " +:+ GoalNode.value goal.

(** [any(word in text for word in words)] *)
Definition any_in (words : list string) (text : string) : bool :=
  existsb (λ word, Str.contains word text) words.

(** [_get_primary_goal]: the first goal that mentions a cost word, in any
    letter case, else the first goal. *)
Definition _get_primary_goal (ast : ROIDSLAST) : string :=
  match goals ast with
  | [] => "No goals defined"
  | first :: _ =>
      match List.find (λ goal, any_in ["avoid"; "save"; "reduce"; "prevent"]
                                 (Str.lower (GoalNode.value goal))) (goals ast) with
      | Some goal => goal_text goal
      | None => goal_text first
      end
  end.

(** [_get_secondary_goals] *)
Definition _get_secondary_goals (ast : ROIDSLAST) : list string :=
  if length (goals ast) <=? 1 then []
  else
    let primary := Str.before ":" (_get_primary_goal ast) in
    goal_text <$> filter (λ g, GoalNode.name g ≠ primary) (goals ast).

End ROIInterpreter.

(** ** The command line driver, class [ROICompilerCLI] *)

Module ROICompilerCLI.

(** The dictionary [output_map] of [_get_outputs_from_ast]. *)
Definition output_map : gmap string (list string) :=
  list_to_map
    [("SMS_CAMPAIGN", ["campaigns"]);
     ("AGENT", ["agents"]);
     ("RMetrics", ["rmetrics"]);
     ("vROI", ["vroi"]);
     ("MintSite", ["mintsite"; "agents"; "campaigns"]);
     ("SK_SKILL", ["skills"])].

(** [output_map.get(ast.output, ['mintsite'])] *)
Definition _get_outputs_from_ast (ast : ROIDSLAST) : list string :=
  match output ast with
  | Some kind => default ["mintsite"] (output_map !! kind)
  | None => ["mintsite"]
  end.

End ROICompilerCLI.

(** ** Example documents *)

Module Examples.

(** [KW Id: <quote>text<quote>] *)
Definition keyed_line (kw id text : string) : string :=
  kw +:+ " " +:+ id +:+ ": " +:+ Str.dq +:+ text +:+ Str.dq.

(** A document is its lines joined by newlines. *)
Definition document (lines : list string) : string :=
  Str.join (String "010"%char EmptyString) lines.

(** Scenario A: a goal, a metric and an output intent. *)
Definition scenario_A : string :=
  document [keyed_line "GOAL" "Cost" "Avoid $2M/mo burn";
            "METRIC Risk: 0.7";
            "OUTPUT MintSite"].

(** The binary64 value nearest to 0.7, [0x1.6666666666666p-1]. *)
Definition float_0_7 : spec_float := S754_finite false 6305039478318694 (-53).

(** The AST of scenario A. *)
Definition scenario_A_ast : ROIDSLAST :=
  set_output "MintSite"
    (add_metric (MetricNode.mk "Risk" float_0_7)
       (add_goal (GoalNode.mk "Cost" "Avoid $2M/mo burn") empty_ast)).

(** A derived metric that combines two declared metrics with [AND]. *)
Definition reserved_word_document : string :=
  document [keyed_line "GOAL" "Cost" "Save $1M";
            "METRIC Alpha: 0.5";
            "METRIC Beta: 0.2";
            keyed_line "RMetric" "Both" "Alpha AND Beta";
            "OUTPUT AGENT"].

(** A derived metric that names the same undeclared metric twice. *)
Definition repeated_token_document : string :=
  document [keyed_line "GOAL" "Cost" "Save $1M";
            "METRIC Risk: 0.7";
            keyed_line "RMetric" "Health" "Unknown + Unknown";
            "OUTPUT AGENT"].



(** What [validate] returns on the AST of a document, when it parses. *)
Definition check (float_str : spec_float → string) (text : string)
  : option (result Report.t) :=
  match ROIDSLParser.parse text with
  | Ok a => Some (snd (ROIValidator.validate float_str (ROIValidator.init a)))
  | Raise _ => None
  end.

(** Two goals, the second one about a cost. *)
Definition two_goals : string :=
  document [keyed_line "GOAL" "Growth" "Expand the pipeline";
            keyed_line "GOAL" "Cost" "Avoid $2M/mo burn"].

Definition two_goals_ast : ROIDSLAST :=
  add_goal (GoalNode.mk "Cost" "Avoid $2M/mo burn")
    (add_goal (GoalNode.mk "Growth" "Expand the pipeline") empty_ast).

End Examples.

(** * Vocabulary of the properties *)

Import ROIDSLParser ROIValidator ROIInterpreter ROICompilerCLI.

(** What the open group holds after the text [pre] went through it. *)
Definition pushs (cur : option string) (pre : string) : option string :=
  match cur with
  | Some g => Some (g +:+ pre)
  | None => None
  end.

(** The last character seen once [pre] is consumed. *)
Fixpoint last_seen (prev : option ascii) (pre : string) : option ascii :=
  match pre with
  | EmptyString => prev
  | String c pre' => last_seen (Some c) pre'
  end.

(** A text that is not the empty string. *)
Definition nonempty (s : string) : Prop := s ≠ EmptyString.

(** Every identifier and every quoted text the parser stored is not empty,
    no metric is negative, and the output intent is one of the closed set. *)
Record parsed (a : ROIDSLAST) : Prop := mkParsed {
  parsed_persona : ∀ p, persona a = Some p →
    nonempty (PersonaNode.name p) ∧ nonempty (PersonaNode.value p);
  parsed_personas :
    Forall (λ p, nonempty (PersonaNode.name p) ∧ nonempty (PersonaNode.value p))
      (personas a);
  parsed_goals :
    Forall (λ g, nonempty (GoalNode.name g) ∧ nonempty (GoalNode.value g)) (goals a);
  parsed_metrics :
    Forall (λ m, nonempty (MetricNode.name m) ∧
                 Float.ltb (MetricNode.value m) Float.zero = false) (metrics a);
  parsed_rmetrics :
    Forall (λ r, nonempty (RMetricNode.name r) ∧ nonempty (RMetricNode.expr r))
      (rmetrics a);
  parsed_variants :
    Forall (λ v, nonempty (VariantNode.type_ v) ∧ nonempty (VariantNode.value v))
      (variants a);
  parsed_tables : ∀ t,
    map_Forall (λ key value, nonempty key ∧ nonempty value) (get_table t a);
  parsed_sk_tags : Forall nonempty (sk_tags a);
  parsed_output : ∀ o, output a = Some o → in_list o valid_outputs = true
}.

(** A method body that leaves [self.ast] as it found it, whether it returns
    or raises. *)
Definition frame {A : Type} (m : M A) : Prop := ∀ s, ast (m s).1 = ast s.

Create HintDb frame.

(** A method body that, started with [self.ast = a], returns (does not
    raise) and leaves [self.ast = a]. *)
Definition returns_at (a : ROIDSLAST) {A : Type} (m : M A) : Prop :=
  ∀ s, ast s = a → ∃ s' x, m s = (s', Ok x) ∧ ast s' = a.

Create HintDb returns.

(** A body that returns the two lists of [self] as its report. *)
Definition reports (a : ROIDSLAST) (m : M Report.t) : Prop :=
  ∀ s, ast s = a →
    ∃ es ws, m s = (mkSelf a es ws, Ok (Report.mk es ws)).

(** A method body that, started with [self.ast = a], appends to
    [self.errors] only messages that satisfy [Q], and keeps [self.ast]. *)
Definition appends (a : ROIDSLAST) (Q : string → Prop) {A : Type} (m : M A) : Prop :=
  ∀ s, ast s = a →
    ast (m s).1 = a ∧ ∃ l, errors (m s).1 = errors s ++ l ∧ Forall Q l.

(** The only error the goal check can append for a goal with a value. *)
Definition duplicate_goal_message (msg : string) : Prop :=
  ∃ name, msg = "Duplicate GOAL name: " +:+ name.

(** The text [post] does not start with a character of the class [p]. *)
Definition stops (p : ascii → bool) (post : string) : Prop :=
  match post with
  | String c _ => p c = false
  | EmptyString => True
  end.

(** Any character but the one [split] cuts at. *)
Definition not_newline (c : ascii) : bool := negb (Ascii.eqb c "010"%char).

(** The message of [_parse_output] for a kind outside the closed set. *)
Definition invalid_output_message (kind : string) : string :=
  "Invalid OUTPUT type '" +:+ kind +:+
  "'. Must be one of: SMS_CAMPAIGN, AGENT, RMetrics, vROI, MintSite, SK_SKILL".

(** [METRIC Id: number] *)
Definition metric_line (id number : string) : string :=
  "METRIC " +:+ id +:+ ": " +:+ number.

(** The error of [_validate_rmetrics] for a token of the RMetric [name]. *)
Definition undefined_message (name token : string) : string :=
  "RMetric " +:+ name +:+ " references undefined METRIC: " +:+ token.

(** The error of [_validate_rmetrics] for a name met before. *)
Definition duplicate_rmetric_message (name : string) : string :=
  "Duplicate RMetric name: " +:+ name.

(** The error of [_validate_rmetrics] for an expression that holds the name
    of its own RMetric. *)
Definition circular_message (name : string) : string :=
  "RMetric " +:+ name +:+ " contains circular reference to itself".

(** How many times [x] occurs in [l]. *)
Definition occurrences (x : string) (l : list string) : nat :=
  length (filter (λ y, y = x) l).

(** The tokens that name neither a metric nor an RMetric met so far. *)
Definition undefined (mn rn : gset string) (token : string) : Prop :=
  (token ∉ mn) ∧ (token ∉ rn).

#[global] Instance undefined_dec mn rn token : Decision (undefined mn rn token).
Proof. unfold undefined. apply _. Defined.









(** ** What one line does to the AST *)

(** The changes a directive can make. *)
Inductive effect : Type :=
| AddPersona (node : PersonaNode.t)
| AddGoal (node : GoalNode.t)
| AddMetric (node : MetricNode.t)
| AddRMetric (node : RMetricNode.t)
| AddTrigger (node : TriggerNode.t)
| AddVariant (node : VariantNode.t)
| SetTable (t : table) (key value : string)
| AddTag (tag : string)
| SetOutput (kind : string).

Definition apply_effect (e : effect) (a : ROIDSLAST) : ROIDSLAST :=
  match e with
  | AddPersona node => add_persona node a
  | AddGoal node => add_goal node a
  | AddMetric node => add_metric node a
  | AddRMetric node => add_rmetric node a
  | AddTrigger node => add_trigger node a
  | AddVariant node => add_variant node a
  | SetTable t key value => table_insert t key value a
  | AddTag tag => add_sk_tag tag a
  | SetOutput kind => set_output kind a
  end.

(** An identifier: a non-empty text of word characters. *)
Definition identifier (s : string) : Prop :=
  s ≠ EmptyString ∧ Str.all Char.isword s = true.

(** A quoted text: non-empty and free of double quotes. *)
Definition quotable (s : string) : Prop :=
  s ≠ EmptyString ∧ Str.all (Char.neq Char.dquote) s = true.

(** What the patterns guarantee about the texts an effect carries. *)
Definition effect_shape (e : effect) : Prop :=
  match e with
  | AddPersona node => identifier (PersonaNode.name node) ∧ quotable (PersonaNode.value node)
  | AddGoal node => identifier (GoalNode.name node) ∧ quotable (GoalNode.value node)
  | AddMetric node =>
      identifier (MetricNode.name node) ∧
      ∃ number, Float.of_string number = Some (MetricNode.value node)
  | AddRMetric node => identifier (RMetricNode.name node) ∧ quotable (RMetricNode.expr node)
  | AddTrigger node =>
      (∃ c, TriggerNode.condition node = Str.strip c) ∧
      (∃ c, TriggerNode.action node = Str.strip c)
  | AddVariant node => identifier (VariantNode.type_ node) ∧ quotable (VariantNode.value node)
  | SetTable _ key value => identifier key ∧ quotable value
  | AddTag tag => quotable tag
  | SetOutput kind => in_list kind valid_outputs = true
  end.

(** The AST after a sequence of effects, applied in order. *)
Definition apply_effects (es : list effect) (a : ROIDSLAST) : ROIDSLAST :=
  foldl (λ b e, apply_effect e b) a es.

(** The newline character, as a one-character text. *)
Definition nl : string := String "010"%char EmptyString.

(** Names are identifiers and quoted texts hold no double quote, all over
    the AST. *)
Record shaped (a : ROIDSLAST) : Prop := mkShaped {
  shaped_personas :
    Forall (λ p, identifier (PersonaNode.name p) ∧ quotable (PersonaNode.value p))
      (personas a);
  shaped_goals :
    Forall (λ g, identifier (GoalNode.name g) ∧ quotable (GoalNode.value g)) (goals a);
  shaped_metrics : Forall (λ m, identifier (MetricNode.name m)) (metrics a);
  shaped_rmetrics :
    Forall (λ r, identifier (RMetricNode.name r) ∧ quotable (RMetricNode.expr r))
      (rmetrics a);
  shaped_variants :
    Forall (λ v, identifier (VariantNode.type_ v) ∧ quotable (VariantNode.value v))
      (variants a);
  shaped_tables : ∀ t,
    map_Forall (λ key value, identifier key ∧ quotable value) (get_table t a);
  shaped_sk_tags : Forall quotable (sk_tags a)
}.

(** [PREFIXkey: <quote>text<quote>], the form of the SEO and contact lines. *)
Definition prefixed_line (kw key text : string) : string :=
  kw +:+ key +:+ ": " +:+ Str.dq +:+ text +:+ Str.dq.

(** The line that fills the table [t] at [key]. *)
Definition table_line (t : table) (key text : string) : string :=
  match t with
  | Credentials => Examples.keyed_line "CREDENTIAL" key text
  | CaseStudies => Examples.keyed_line "CASE_STUDY" key text
  | Services => Examples.keyed_line "SERVICE" key text
  | Training => Examples.keyed_line "TRAINING" key text
  | VroiInputs => Examples.keyed_line "VROI_INPUT" key text
  | VroiOutputs => Examples.keyed_line "VROI_OUTPUT" key text
  | Stats => Examples.keyed_line "STAT" key text
  | Microtraining => Examples.keyed_line "MICROTRAINING" key text
  | Seo => prefixed_line "SEO_" key text
  | Contact => prefixed_line "CONTACT_" key text
  end.

(** The goal a line declares, if it is a GOAL line its pattern accepts. *)
Definition goal_of_line (line : string) : option GoalNode.t :=
  if Str.startswith "GOAL" line then
    match Re.rmatch (keyed "GOAL") line with
    | Some [name; value] => Some (GoalNode.mk name value)
    | _ => None
    end
  else None.

(** The metric a line declares, if it is a METRIC line its pattern accepts
    and whose number [float] converts. *)
Definition metric_of_line (line : string) : option MetricNode.t :=
  if Str.startswith "METRIC" line then
    match Re.rmatch metric_pattern line with
    | Some [name; number] => MetricNode.mk name <$> Float.of_string number
    | _ => None
    end
  else None.

(** ** Vocabulary for the validator *)

(** A method body that only appends to [self.errors] and [self.warnings]:
    what the lists held before is still there, in place, at their front. *)
Definition grows {A : Type} (m : M A) : Prop :=
  ∀ s, ∃ es ws,
    errors (m s).1 = errors s ++ es ∧ warnings (m s).1 = warnings s ++ ws.

Create HintDb grows.

(** The error of [_validate_metrics] for a name met before. *)
Definition duplicate_metric_message (name : string) : string :=
  "Duplicate METRIC name: " +:+ name.

(** The names that are met again, in the order of the list: each name
    already in [seen], or earlier in the list, when it comes up. *)
Fixpoint duplicates (seen : gset string) (names : list string) : list string :=
  match names with
  | [] => []
  | x :: rest =>
      (if bool_decide (x ∈ seen) then [x] else []) ++ duplicates (seen ∪ {[x]}) rest
  end.

(** Every goal, metric and derived metric of the AST has a name. *)
Definition all_named (a : ROIDSLAST) : Prop :=
  Forall (λ g, GoalNode.name g ≠ EmptyString) (goals a) ∧
  Forall (λ m, MetricNode.name m ≠ EmptyString) (metrics a) ∧
  Forall (λ r, RMetricNode.name r ≠ EmptyString) (rmetrics a).

(** The exception of [name[0]] on an empty name. *)
Definition index_error : exn := IndexError "string index out of range".

(** A method body that raises nothing but [index_error]. *)
Definition raises_index_only {A : Type} (m : M A) : Prop :=
  ∀ s x, (m s).2 = Raise x → x = index_error.

(** A method body that returns only when the AST satisfies [P]. *)
Definition ok_implies (P : ROIDSLAST → Prop) {A : Type} (m : M A) : Prop :=
  ∀ s x, (m s).2 = Ok x → P (ast s).

Create HintDb raises.

(** The characters of [[><=!]]. *)
Definition comparator_char : ascii → bool := Char.oneof [">"; "<"; "="; "!"]%char.

(** The messages of [_validate_triggers]. *)
Definition undefined_trigger_message (name : string) : string :=
  "Trigger references undefined METRIC: " +:+ name.

Definition invalid_comparator_message (comparator : string) : string :=
  "Invalid comparator '" +:+ comparator +:+ "' in trigger".

Definition action_warning (action : string) : string :=
  "Action '" +:+ action +:+ "' may have invalid syntax".

Definition invalid_condition_message (condition : string) : string :=
  "Invalid trigger condition syntax: " +:+ condition.

(** A text that is not empty and neither starts nor ends with white
    space. *)
Definition trimmed (s : string) : Prop := s ≠ EmptyString ∧ Str.strip s = s.

(** [WHEN condition THEN action] *)
Definition trigger_line (condition action : string) : string :=
  "WHEN " +:+ condition +:+ " THEN " +:+ action.

(** The errors [validate] reports on the AST of a parsed document. *)
Inductive reportable : string → Prop :=
| goal_required : reportable "At least 1 GOAL is required"
| metric_required : reportable "At least 1 METRIC is required"
| output_required : reportable "OUTPUT declaration is required"
| goal_again name : reportable ("Duplicate GOAL name: " +:+ name)
| metric_again name : reportable (duplicate_metric_message name)
| rmetric_again name : reportable (duplicate_rmetric_message name)
| reference_undefined name token : reportable (undefined_message name token)
| reference_circular name : reportable (circular_message name)
| condition_invalid condition : reportable (invalid_condition_message condition)
| trigger_undefined name : reportable (undefined_trigger_message name)
| comparator_invalid comparator : reportable (invalid_comparator_message comparator).

(** The errors of the checks for an empty value and for an output kind
    outside the closed set. *)
Definition out_of_reach (msg : string) : Prop :=
  msg = "PERSONA value cannot be empty" ∨
  (∃ name, msg = "GOAL " +:+ name +:+ " has empty value") ∨
  (∃ kind, msg = "VARIANT " +:+ kind +:+ " has empty value") ∨
  (∃ kind, msg = "Invalid OUTPUT type: " +:+ kind).

(** * Properties *)

(** ** Concrete scenarios *)

(** C8: scenario A parses to one goal named Cost, one metric named Risk with
    value 0.7 and the output intent MintSite; validating that AST returns no
    error, and the warnings include the one for the absent persona. *)
Theorem scenario_A_accepted :
  ∃ a : ROIDSLAST,
    parse Examples.scenario_A = Ok a ∧
    goals a = [GoalNode.mk "Cost" "Avoid $2M/mo burn"] ∧
    metrics a = [MetricNode.mk "Risk" Examples.float_0_7] ∧
    Float.of_string "0.7" = Some Examples.float_0_7 ∧
    output a = Some "MintSite" ∧
    ∀ float_str, ∃ ws,
      validate float_str (init a) = (mkSelf a [] ws, Ok (Report.mk [] ws)) ∧
      "PERSONA is recommended but not mandatory" ∈ ws.
Proof.
  eexists. split; [vm_compute; reflexivity|].
  repeat split; try reflexivity.
  intros float_str. eexists. split; [vm_compute; reflexivity|].
  apply list_elem_of_here.
Qed.

(** C2, at the failing input: both operands of [AND] are declared metrics,
    and the validator still reports [AND] as an undefined reference. *)
Theorem reserved_word_reported_undefined :
  ∀ float_str,
    Examples.check float_str Examples.reserved_word_document =
    Some (Ok (Report.mk
      ["RMetric Both references undefined METRIC: AND"]
      ["PERSONA is recommended but not mandatory";
       "AGENT output can use triggers for automation logic"])).
Proof. intros float_str. vm_compute. reflexivity. Qed.

(** C4, at the failing input: the text of digits and dots [1.2.3] matches
    the METRIC pattern, and the parse ends with the [ValueError] of [float]
    instead of a [SyntaxError]. *)
Theorem malformed_number_raises_ValueError :
  parse "METRIC A: 1.2.3" =
  Raise (ValueError "could not convert string to float: '1.2.3'").
Proof. vm_compute. reflexivity. Qed.

(** ** Facts about characters and strings *)

Lemma word_not_space c : Char.isword c = true → Char.isspace c = false.
Proof. destruct c as [[] [] [] [] [] [] [] []]; vm_compute; intros H; congruence. Qed.

Lemma word_not_newline c : Char.isword c = true → Ascii.eqb c "010"%char = false.
Proof. destruct c as [[] [] [] [] [] [] [] []]; vm_compute; intros H; congruence. Qed.

Lemma digit_or_dot_not_space c :
  Char.digit_or_dot c = true → Char.isspace c = false.
Proof. destruct c as [[] [] [] [] [] [] [] []]; vm_compute; intros H; congruence. Qed.

Lemma str_app_empty_r (s : string) : s +:+ EmptyString = s.
Proof. induction s as [|c s IH]; simpl; congruence. Qed.

Lemma str_app_assoc (a b c : string) : (a +:+ b) +:+ c = a +:+ (b +:+ c).
Proof. induction a as [|x a IH]; simpl; congruence. Qed.

Lemma str_app_inv_head (a b c : string) : a +:+ b = a +:+ c → b = c.
Proof. induction a as [|x a IH]; simpl; intros H; [done|]. injection H; auto. Qed.

Lemma snoc_app (g : string) (c : ascii) (s : string) :
  Str.snoc g c +:+ s = g +:+ String c s.
Proof. unfold Str.snoc. by rewrite str_app_assoc. Qed.

Lemma truthy_spec (s : string) : Str.truthy s = true ↔ s ≠ EmptyString.
Proof. destruct s; simpl; split; congruence. Qed.

Lemma all_app p (a b : string) :
  Str.all p (a +:+ b) = Str.all p a && Str.all p b.
Proof. induction a as [|x a IH]; simpl; [done|]. rewrite IH. by destruct (p x). Qed.

(** ** Facts about the matcher *)

Lemma pushs_empty cur : pushs cur EmptyString = cur.
Proof. destruct cur; simpl; [|done]. by rewrite str_app_empty_r. Qed.

Lemma pushs_push cur c pre : pushs (Re.push cur c) pre = pushs cur (String c pre).
Proof. destruct cur; simpl; [|done]. by rewrite snoc_app. Qed.

Section MatcherSteps.
Context {R : Type}.
Implicit Types (p : ascii → bool) (s pre post : string) (r : R).
Implicit Types k : option ascii → string → option string → option R.

Lemma one_inv p k s cur r :
  Re.one p k s cur = Some r →
  ∃ c s', s = String c s' ∧ p c = true ∧ k (Some c) s' (Re.push cur c) = Some r.
Proof.
  destruct s as [|c s']; simpl; [done|].
  destruct (p c) eqn:Hc; [|done]. eauto.
Qed.

Lemma greedy_inv p k s : ∀ prev cur r,
  Re.greedy p k prev s cur = Some r →
  ∃ pre post prev', s = pre +:+ post ∧ Str.all p pre = true ∧
    k prev' post (pushs cur pre) = Some r.
Proof.
  induction s as [|c s IH]; intros prev cur r; simpl.
  - intros H. exists EmptyString, EmptyString, prev. by rewrite pushs_empty.
  - destruct (p c) eqn:Hc.
    + destruct (Re.greedy p k (Some c) s (Re.push cur c)) as [r'|] eqn:Hg.
      * intros [= <-]. apply IH in Hg as (pre & post & prev' & -> & Hall & Hk).
        exists (String c pre), post, prev'. simpl. rewrite Hc, Hall.
        by rewrite pushs_push in Hk.
      * intros H. exists EmptyString, (String c s), prev. by rewrite pushs_empty.
    + intros H. exists EmptyString, (String c s), prev. by rewrite pushs_empty.
Qed.

Lemma reluctant_inv p k s : ∀ prev cur r,
  Re.reluctant p k prev s cur = Some r →
  ∃ pre post prev', s = pre +:+ post ∧ Str.all p pre = true ∧
    k prev' post (pushs cur pre) = Some r.
Proof.
  induction s as [|c s IH]; intros prev cur r; simpl.
  - destruct (k prev EmptyString cur) eqn:Hk; [|done]. intros [= <-].
    exists EmptyString, EmptyString, prev. by rewrite pushs_empty.
  - destruct (k prev (String c s) cur) eqn:Hk.
    + intros [= <-]. exists EmptyString, (String c s), prev. by rewrite pushs_empty.
    + destruct (p c) eqn:Hc; [|done]. intros Hg.
      apply IH in Hg as (pre & post & prev' & -> & Hall & Hk').
      exists (String c pre), post, prev'. simpl. rewrite Hc, Hall.
      by rewrite pushs_push in Hk'.
Qed.

(** A greedy repetition that can take all of [pre] and no more, and after
    which the rest of the pattern matches, yields that match. *)
Lemma greedy_all p k pre post : ∀ prev cur r,
  Str.all p pre = true →
  match post with String c _ => p c = false | EmptyString => True end →
  k (last_seen prev pre) post (pushs cur pre) = Some r →
  Re.greedy p k prev (pre +:+ post) cur = Some r.
Proof.
  induction pre as [|c pre IH]; intros prev cur r Hall Hstop Hk; simpl in *.
  - rewrite pushs_empty in Hk. destruct post as [|c s]; simpl; [done|].
    by rewrite Hstop.
  - apply andb_prop in Hall as [Hc Hall]. rewrite Hc.
    rewrite (IH (Some c) (Re.push cur c) r); try done.
    by rewrite pushs_push.
Qed.

Lemma one_step p k c s cur :
  p c = true → Re.one p k (String c s) cur = k (Some c) s (Re.push cur c).
Proof. intros Hc. simpl. by rewrite Hc. Qed.
End MatcherSteps.

(** The literal prefix of a pattern consumes exactly its text. *)
Lemma run_lit_inv kw : ∀ re gs prev s r,
  Re.run (Re.lit kw ++ re) gs prev s None = Some r →
  ∃ s' prev', s = kw +:+ s' ∧ Re.run re gs prev' s' None = Some r.
Proof.
  induction kw as [|c kw IH]; intros re gs prev s r; simpl.
  - eauto.
  - intros H. apply one_inv in H as (c' & s' & -> & Hc & H).
    apply Ascii.eqb_eq in Hc as <-. simpl in H.
    apply IH in H as (s'' & prev' & -> & H). eauto.
Qed.

Lemma run_lit kw : ∀ re gs prev s,
  Re.run (Re.lit kw ++ re) gs prev (kw +:+ s) None =
  Re.run re gs (last_seen prev kw) s None.
Proof.
  induction kw as [|c kw IH]; intros re gs prev s; simpl; [done|].
  unfold Char.eq. rewrite Ascii.eqb_refl. apply IH.
Qed.

(** ** What the groups of the parser's patterns hold *)

Lemma plus_group_inv p re gs prev s r :
  Re.run ([Re.Open; Re.Plus p; Re.Close] ++ re) gs prev s None = Some r →
  ∃ g prev' s', g ≠ EmptyString ∧ Str.all p g = true ∧
    Re.run re (g :: gs) prev' s' None = Some r.
Proof.
  simpl. intros H.
  apply one_inv in H as (c & s' & -> & Hc & H).
  apply greedy_inv in H as (pre & post & prev' & -> & Hall & H).
  rewrite pushs_push in H. simpl in H.
  exists (String c pre), prev', post. simpl. by rewrite Hc, Hall.
Qed.

Lemma star_inv p re gs prev s r :
  Re.run (Re.Star p :: re) gs prev s None = Some r →
  ∃ prev' s', Re.run re gs prev' s' None = Some r.
Proof.
  simpl. intros H. apply greedy_inv in H as (pre & post & prev' & -> & _ & H). eauto.
Qed.

Lemma plus_inv p re gs prev s r :
  Re.run (Re.Plus p :: re) gs prev s None = Some r →
  ∃ prev' s', Re.run re gs prev' s' None = Some r.
Proof.
  simpl. intros H. apply one_inv in H as (c & s' & -> & _ & H).
  apply greedy_inv in H as (pre & post & prev' & -> & _ & H). eauto.
Qed.

Lemma lit_inv c re gs prev s r :
  Re.run (Re.Lit c :: re) gs prev s None = Some r →
  ∃ prev' s', Re.run re gs prev' s' None = Some r.
Proof. simpl. intros H. apply one_inv in H as (c' & s' & -> & _ & H). eauto. Qed.

Lemma colon_quoted_inv gs prev s r :
  Re.run colon_quoted gs prev s None = Some r →
  ∃ value, r.1.1 = reverse (value :: gs) ∧ value ≠ EmptyString ∧
    Str.all (Char.neq Char.dquote) value = true.
Proof.
  unfold colon_quoted, quoted_group, sp_star. intros H.
  change ([Re.Star Char.isspace; Re.Lit ":"; Re.Star Char.isspace] ++ _)
    with (Re.Star Char.isspace :: Re.Lit ":" :: Re.Star Char.isspace ::
          Re.Lit Char.dquote ::
          ([Re.Open; Re.Plus (Char.neq Char.dquote); Re.Close] ++ [Re.Lit Char.dquote])) in H.
  apply star_inv in H as (? & ? & H). apply lit_inv in H as (? & ? & H).
  apply star_inv in H as (? & ? & H). apply lit_inv in H as (? & ? & H).
  apply plus_group_inv in H as (value & ? & ? & Hne & Hall & H).
  apply lit_inv in H as (? & ? & H). simpl in H. injection H as <-. eauto.
Qed.

Lemma keyed_inv kw line g :
  Re.rmatch (keyed kw) line = Some g →
  ∃ name value, g = [name; value] ∧
    name ≠ EmptyString ∧ Str.all Char.isword name = true ∧
    value ≠ EmptyString ∧ Str.all (Char.neq Char.dquote) value = true.
Proof.
  unfold Re.rmatch, keyed. intros H.
  destruct (Re.run _ _ _ _ _) as [r|] eqn:Hr; [|done]. injection H as <-.
  apply run_lit_inv in Hr as (? & ? & _ & Hr).
  change ([sp_plus] ++ word_group ++ colon_quoted)
    with (Re.Plus Char.isspace :: (word_group ++ colon_quoted)) in Hr.
  apply plus_inv in Hr as (? & ? & Hr).
  apply plus_group_inv in Hr as (name & ? & ? & Hn & Hnw & Hr).
  apply colon_quoted_inv in Hr as (value & -> & Hv & Hvq).
  exists name, value. done.
Qed.

Lemma prefixed_inv kw line g :
  Re.rmatch (prefixed kw) line = Some g →
  ∃ name value, g = [name; value] ∧
    name ≠ EmptyString ∧ Str.all Char.isword name = true ∧
    value ≠ EmptyString ∧ Str.all (Char.neq Char.dquote) value = true.
Proof.
  unfold Re.rmatch, prefixed. intros H.
  destruct (Re.run _ _ _ _ _) as [r|] eqn:Hr; [|done]. injection H as <-.
  apply run_lit_inv in Hr as (? & ? & _ & Hr).
  apply plus_group_inv in Hr as (name & ? & ? & Hn & Hnw & Hr).
  apply colon_quoted_inv in Hr as (value & -> & Hv & Hvq).
  exists name, value. done.
Qed.

Lemma sk_tag_inv line g :
  Re.rmatch sk_tag_pattern line = Some g →
  ∃ value, g = [value] ∧ value ≠ EmptyString ∧
    Str.all (Char.neq Char.dquote) value = true.
Proof.
  unfold Re.rmatch, sk_tag_pattern. intros H.
  destruct (Re.run _ _ _ _ _) as [r|] eqn:Hr; [|done]. injection H as <-.
  apply run_lit_inv in Hr as (? & ? & _ & Hr).
  apply colon_quoted_inv in Hr as (value & -> & Hv & Hvq).
  exists value. done.
Qed.

Lemma metric_inv line g :
  Re.rmatch metric_pattern line = Some g →
  ∃ name number, g = [name; number] ∧
    name ≠ EmptyString ∧ Str.all Char.isword name = true ∧
    number ≠ EmptyString ∧
    Str.all (Char.digit_or_dot) number = true.
Proof.
  unfold Re.rmatch, metric_pattern, sp_star. intros H.
  destruct (Re.run _ _ _ _ _) as [r|] eqn:Hr; [|done]. injection H as <-.
  apply run_lit_inv in Hr as (? & ? & _ & Hr).
  change ([sp_plus] ++ word_group ++ ?l)
    with (Re.Plus Char.isspace :: (word_group ++ l)) in Hr.
  apply plus_inv in Hr as (? & ? & Hr).
  apply plus_group_inv in Hr as (name & ? & ? & Hn & Hnw & Hr).
  apply star_inv in Hr as (? & ? & Hr). apply lit_inv in Hr as (? & ? & Hr).
  apply star_inv in Hr as (? & ? & Hr).
  apply (plus_group_inv _ []) in Hr as (number & ? & ? & Hv & Hvd & Hr).
  simpl in Hr. injection Hr as <-. exists name, number. done.
Qed.

Lemma output_inv line g :
  Re.rmatch output_pattern line = Some g →
  ∃ kind, g = [kind] ∧ kind ≠ EmptyString ∧ Str.all Char.isword kind = true.
Proof.
  unfold Re.rmatch, output_pattern. intros H.
  destruct (Re.run _ _ _ _ _) as [r|] eqn:Hr; [|done]. injection H as <-.
  apply run_lit_inv in Hr as (? & ? & _ & Hr).
  change ([sp_plus] ++ word_group)
    with (Re.Plus Char.isspace :: (word_group ++ [])) in Hr.
  apply plus_inv in Hr as (? & ? & Hr).
  apply plus_group_inv in Hr as (kind & ? & ? & Hn & Hnw & Hr).
  simpl in Hr. injection Hr as <-. exists kind. done.
Qed.

Lemma trigger_inv line g :
  Re.rmatch trigger_pattern line = Some g →
  ∃ condition action, g = [condition; action].
Proof.
  unfold Re.rmatch, trigger_pattern. intros H.
  destruct (Re.run _ _ _ _ _) as [r|] eqn:Hr; [|done]. injection H as <-.
  apply run_lit_inv in Hr as (? & ? & _ & Hr).
  simpl in Hr.
  apply one_inv in Hr as (? & ? & -> & _ & Hr).
  apply greedy_inv in Hr as (? & ? & ? & -> & _ & Hr).
  apply one_inv in Hr as (? & ? & -> & _ & Hr).
  apply reluctant_inv in Hr as (? & ? & ? & -> & _ & Hr).
  apply one_inv in Hr as (? & ? & -> & _ & Hr).
  apply greedy_inv in Hr as (? & ? & ? & -> & _ & Hr).
  do 4 apply one_inv in Hr as (? & ? & -> & _ & Hr).
  apply one_inv in Hr as (? & ? & -> & _ & Hr).
  apply greedy_inv in Hr as (? & ? & ? & -> & _ & Hr).
  apply one_inv in Hr as (? & ? & -> & _ & Hr).
  apply greedy_inv in Hr as (? & ? & ? & -> & _ & Hr).
  injection Hr as <-. eauto.
Qed.

(** ** The invariant of parser-built ASTs *)

Lemma parsed_empty : parsed empty_ast.
Proof.
  split; simpl; try done.
  intros []; apply map_Forall_empty.
Qed.

Lemma parsed_add_persona node a :
  nonempty (PersonaNode.name node) → nonempty (PersonaNode.value node) →
  parsed a → parsed (add_persona node a).
Proof.
  intros Hn Hv [H1 H2 H3 H4 H5 H6 H7 H8 H9]. destruct a; split; simpl in *; try done.
  - destruct persona0; intros p [= <-]; auto.
  - apply Forall_app; auto.
Qed.

Lemma parsed_add_goal node a :
  nonempty (GoalNode.name node) → nonempty (GoalNode.value node) →
  parsed a → parsed (add_goal node a).
Proof.
  intros Hn Hv [H1 H2 H3 H4 H5 H6 H7 H8 H9]. destruct a; split; simpl in *; try done.
  apply Forall_app; auto.
Qed.

Lemma parsed_add_metric node a :
  nonempty (MetricNode.name node) →
  Float.ltb (MetricNode.value node) Float.zero = false →
  parsed a → parsed (add_metric node a).
Proof.
  intros Hn Hv [H1 H2 H3 H4 H5 H6 H7 H8 H9]. destruct a; split; simpl in *; try done.
  apply Forall_app; auto.
Qed.

Lemma parsed_add_rmetric node a :
  nonempty (RMetricNode.name node) → nonempty (RMetricNode.expr node) →
  parsed a → parsed (add_rmetric node a).
Proof.
  intros Hn Hv [H1 H2 H3 H4 H5 H6 H7 H8 H9]. destruct a; split; simpl in *; try done.
  apply Forall_app; auto.
Qed.

Lemma parsed_add_trigger node a : parsed a → parsed (add_trigger node a).
Proof. intros [H1 H2 H3 H4 H5 H6 H7 H8 H9]. destruct a; split; simpl in *; done. Qed.

Lemma parsed_add_variant node a :
  nonempty (VariantNode.type_ node) → nonempty (VariantNode.value node) →
  parsed a → parsed (add_variant node a).
Proof.
  intros Hn Hv [H1 H2 H3 H4 H5 H6 H7 H8 H9]. destruct a; split; simpl in *; try done.
  apply Forall_app; auto.
Qed.

Lemma parsed_add_sk_tag tag a : nonempty tag → parsed a → parsed (add_sk_tag tag a).
Proof.
  intros Hn [H1 H2 H3 H4 H5 H6 H7 H8 H9]. destruct a; split; simpl in *; try done.
  apply Forall_app; auto.
Qed.

Lemma parsed_set_output kind a :
  in_list kind valid_outputs = true → parsed a → parsed (set_output kind a).
Proof.
  intros Hk [H1 H2 H3 H4 H5 H6 H7 H8 H9]. destruct a; split; simpl in *; try done.
  by intros o [= <-].
Qed.

Lemma parsed_table_insert t key value a :
  nonempty key → nonempty value → parsed a → parsed (table_insert t key value a).
Proof.
  intros Hn Hv [H1 H2 H3 H4 H5 H6 H7 H8 H9].
  destruct a; split; destruct t; simpl in *; try done;
    intros t'; specialize (H7 t'); destruct t'; simpl in *; try done;
    by apply map_Forall_insert_2.
Qed.

(** ** [float] of digits and dots is never negative *)

Lemma round_not_negative m e l :
  Float.ltb (binary_round_aux Float.prec Float.emax false m e l) Float.zero = false.
Proof.
  unfold binary_round_aux.
  destruct (shr_fexp _ _ m e l) as [mrs' e'].
  destruct (shr_fexp _ _ _ e' loc_Exact) as [mrs'' e''].
  destruct (shr_m mrs''); [done| |done].
  by destruct (Z.leb _ _).
Qed.

Lemma of_decimal_not_negative m k :
  Float.ltb (Float.of_decimal m k) Float.zero = false.
Proof.
  unfold Float.of_decimal. destruct m as [|p]; [done|].
  unfold SFdiv. destruct (SFdiv_core_binary _ _ _ _ _ _) as [[mz ez] lz].
  apply round_not_negative.
Qed.

Lemma of_string_not_negative s v :
  Float.of_string s = Some v → Float.ltb v Float.zero = false.
Proof.
  unfold Float.of_string, Float.of_digits.
  destruct (Float.cut_at_dot s) as [i [f|]];
    destruct (_ && _); intros [= <-]; apply of_decimal_not_negative.
Qed.

(** ** Every directive keeps the invariant *)

Lemma parse_table_parsed re what t line a a' :
  (∀ g, Re.rmatch re line = Some g →
     ∃ key value, g = [key; value] ∧ nonempty key ∧ Str.all Char.isword key = true ∧
       nonempty value ∧ Str.all (Char.neq Char.dquote) value = true) →
  parsed a → parse_table re what t line a = Ok a' → parsed a'.
Proof.
  intros Hinv Ha. unfold parse_table.
  destruct (Re.rmatch re line) as [g|] eqn:Hm; [|done].
  destruct (Hinv g eq_refl) as (key & value & -> & Hk & _ & Hv & _).
  intros [= <-]. by apply parsed_table_insert.
Qed.

Lemma dispatch_parsed n line a a' :
  parsed a → dispatch n line a = Ok a' → parsed a'.
Proof.
  intros Ha. unfold dispatch.
  repeat match goal with
  | |- (if ?c then _ else _) = _ → _ => destruct c
  end; try done.
  - unfold _parse_persona. destruct (Re.rmatch _ _) as [g|] eqn:Hm; [|done].
    apply keyed_inv in Hm as (name & value & -> & ? & _ & ? & _).
    intros [= <-]. by apply parsed_add_persona.
  - unfold _parse_goal. destruct (Re.rmatch _ _) as [g|] eqn:Hm; [|done].
    apply keyed_inv in Hm as (name & value & -> & ? & _ & ? & _).
    intros [= <-]. by apply parsed_add_goal.
  - unfold _parse_metric. destruct (Re.rmatch _ _) as [g|] eqn:Hm; [|done].
    apply metric_inv in Hm as (name & number & -> & ? & _ & ? & _).
    destruct (Float.of_string number) as [v|] eqn:Hv; [|done].
    intros [= <-]. apply parsed_add_metric; [done| |done].
    by apply of_string_not_negative in Hv.
  - unfold _parse_rmetric. destruct (Re.rmatch _ _) as [g|] eqn:Hm; [|done].
    apply keyed_inv in Hm as (name & value & -> & ? & _ & ? & _).
    intros [= <-]. by apply parsed_add_rmetric.
  - unfold _parse_trigger. destruct (Re.rmatch _ _) as [g|] eqn:Hm; [|done].
    apply trigger_inv in Hm as (condition & action & ->).
    intros [= <-]. by apply parsed_add_trigger.
  - unfold _parse_variant. destruct (Re.rmatch _ _) as [g|] eqn:Hm; [|done].
    apply keyed_inv in Hm as (name & value & -> & ? & _ & ? & _).
    intros [= <-]. by apply parsed_add_variant.
  - apply parse_table_parsed; [|done]. intros g. apply keyed_inv.
  - apply parse_table_parsed; [|done]. intros g. apply keyed_inv.
  - apply parse_table_parsed; [|done]. intros g. apply keyed_inv.
  - apply parse_table_parsed; [|done]. intros g. apply keyed_inv.
  - apply parse_table_parsed; [|done]. intros g. apply keyed_inv.
  - apply parse_table_parsed; [|done]. intros g. apply keyed_inv.
  - apply parse_table_parsed; [|done]. intros g. apply keyed_inv.
  - apply parse_table_parsed; [|done]. intros g. apply keyed_inv.
  - apply parse_table_parsed; [|done]. intros g. apply prefixed_inv.
  - apply parse_table_parsed; [|done]. intros g. apply prefixed_inv.
  - unfold _parse_sk_tag. destruct (Re.rmatch _ _) as [g|] eqn:Hm; [|done].
    apply sk_tag_inv in Hm as (value & -> & ? & _).
    intros [= <-]. by apply parsed_add_sk_tag.
  - unfold _parse_output. destruct (Re.rmatch _ _) as [g|] eqn:Hm; [|done].
    apply output_inv in Hm as (kind & -> & ? & _).
    destruct (in_list kind valid_outputs) eqn:Hk; simpl; [|done].
    intros [= <-]. by apply parsed_set_output.
Qed.

Lemma parse_from_parsed lines : ∀ n a a',
  parsed a → parse_from n lines a = Ok a' → parsed a'.
Proof.
  induction lines as [|line rest IH]; intros n a a' Ha; simpl.
  - by intros [= <-].
  - destruct (is_comment line); [by apply IH|].
    destruct (dispatch n line a) as [b|e] eqn:Hd; simpl; [|done].
    apply IH. by apply dispatch_parsed in Hd.
Qed.

Lemma parse_parsed text a : parse text = Ok a → parsed a.
Proof. apply parse_from_parsed, parsed_empty. Qed.


(** ** The validator only appends to its two lists *)

Lemma frame_ret {A} (x : A) : frame (ret x).
Proof. done. Qed.

Lemma frame_raise {A} e : frame (@raise A e).
Proof. done. Qed.

Lemma frame_get_ast : frame get_ast.
Proof. done. Qed.

Lemma frame_errors_append msg : frame (errors_append msg).
Proof. done. Qed.

Lemma frame_warnings_append msg : frame (warnings_append msg).
Proof. done. Qed.

Lemma frame_mbind {A B} (m : M A) (f : A → M B) :
  frame m → (∀ x, frame (f x)) → frame (mbind m f).
Proof.
  intros Hm Hf s. unfold mbind. specialize (Hm s).
  destruct (m s) as [s' [x|e]]; simpl in *; [|done].
  by rewrite Hf.
Qed.

Lemma frame_when c body : frame body → frame (when c body).
Proof. by destruct c. Qed.

Lemma frame_first_char name : frame (first_char name).
Proof. unfold first_char. by destruct (Str.head name). Qed.

Lemma frame_for_each {A} (l : list A) body :
  (∀ x, frame (body x)) → frame (for_each l body).
Proof.
  intros Hb. induction l as [|x l IH]; simpl; [done|].
  apply frame_mbind; auto.
Qed.

#[global] Hint Resolve frame_ret frame_raise frame_get_ast frame_errors_append
  frame_warnings_append frame_when frame_first_char : frame.
#[global] Hint Extern 2 (frame (mbind _ _)) => apply frame_mbind; [|intros ?] : frame.
#[global] Hint Extern 2 (frame (for_each _ _)) => apply frame_for_each; intros ? : frame.
#[global] Hint Extern 5 (frame (if ?c then _ else _)) => destruct c : frame.
#[global] Hint Extern 5 (frame (match ?c with _ => _ end)) => destruct c : frame.

Lemma frame_goals_loop l : ∀ names, frame (goals_loop names l).
Proof. induction l as [|g l IH]; intros names; simpl; auto 20 with frame. Qed.

Lemma frame_metrics_loop float_str l : ∀ names, frame (metrics_loop float_str names l).
Proof. induction l as [|g l IH]; intros names; simpl; auto 20 with frame. Qed.

Lemma frame_rmetric_body mn rn r : frame (rmetric_body mn rn r).
Proof. unfold rmetric_body, undefined_refs. auto 20 with frame. Qed.

Lemma frame_rmetrics_loop mn l : ∀ rn, frame (rmetrics_loop mn rn l).
Proof.
  induction l as [|r l IH]; intros rn; simpl; [auto with frame|].
  apply frame_mbind; [apply frame_rmetric_body|auto].
Qed.

Lemma frame_trigger_body mn t : frame (trigger_body mn t).
Proof.
  unfold trigger_body.
  destruct (Re.rmatch _ _) as [[|? [|? [|? [|? ?]]]]|]; auto 20 with frame.
Qed.

#[global] Hint Resolve frame_goals_loop frame_metrics_loop frame_rmetrics_loop
  frame_trigger_body : frame.

Lemma frame_validate_mandatory_fields : frame _validate_mandatory_fields.
Proof. unfold _validate_mandatory_fields. auto 20 with frame. Qed.

Lemma frame_validate_persona : frame _validate_persona.
Proof. unfold _validate_persona. auto 20 with frame. Qed.

Lemma frame_validate_goals : frame _validate_goals.
Proof. unfold _validate_goals. auto 20 with frame. Qed.

Lemma frame_validate_metrics float_str : frame (_validate_metrics float_str).
Proof. unfold _validate_metrics. auto 20 with frame. Qed.

Lemma frame_validate_rmetrics : frame _validate_rmetrics.
Proof. unfold _validate_rmetrics. auto 20 with frame. Qed.

Lemma frame_validate_triggers : frame _validate_triggers.
Proof. unfold _validate_triggers. auto 20 with frame. Qed.

Lemma frame_validate_variants : frame _validate_variants.
Proof. unfold _validate_variants. auto 20 with frame. Qed.

Lemma frame_validate_output : frame _validate_output.
Proof. unfold _validate_output. auto 30 with frame. Qed.

Lemma frame_validate_identifier_references : frame _validate_identifier_references.
Proof. unfold _validate_identifier_references. auto 20 with frame. Qed.

#[global] Hint Resolve frame_validate_mandatory_fields frame_validate_persona
  frame_validate_goals frame_validate_metrics frame_validate_rmetrics
  frame_validate_triggers frame_validate_variants frame_validate_output
  frame_validate_identifier_references : frame.

(** C7: running [validate] leaves the AST unchanged: the AST held by the
    validator after the call, and so every field of it, is the one it held
    before, whether the call returns or raises. *)
Theorem validate_preserves_ast :
  ∀ (float_str : spec_float → string) (s : self),
    ast (validate float_str s).1 = ast s.
Proof.
  intros float_str. change (frame (validate float_str)).
  unfold validate. repeat (apply frame_mbind; [auto with frame|intros _]).
  done.
Qed.

(** ** On a parser-built AST no check raises *)

Lemma returns_ret a {A} (x : A) : returns_at a (ret x).
Proof. intros s Hs. by exists s, x. Qed.

Lemma returns_errors_append a msg : returns_at a (errors_append msg).
Proof. intros s Hs. by eexists _, tt. Qed.

Lemma returns_warnings_append a msg : returns_at a (warnings_append msg).
Proof. intros s Hs. by eexists _, tt. Qed.

Lemma returns_mbind a {A B} (m : M A) (f : A → M B) :
  returns_at a m → (∀ x, returns_at a (f x)) → returns_at a (mbind m f).
Proof.
  intros Hm Hf s Hs. unfold mbind.
  destruct (Hm s Hs) as (s' & x & -> & Hs'). by apply Hf.
Qed.

Lemma returns_get_ast a {B} (f : ROIDSLAST → M B) :
  returns_at a (f a) → returns_at a (mbind get_ast f).
Proof. intros Hf s Hs. unfold mbind, get_ast. rewrite Hs. by apply Hf. Qed.

Lemma returns_when a c body : returns_at a body → returns_at a (when c body).
Proof. destruct c; [done|]. intros _. apply returns_ret. Qed.

Lemma returns_first_char a name :
  nonempty name → returns_at a (first_char name).
Proof.
  intros Hn. destruct name as [|c name]; [done|]. apply returns_ret.
Qed.

Lemma returns_for_each a {A} (l : list A) body :
  (∀ x, returns_at a (body x)) → returns_at a (for_each l body).
Proof.
  intros Hb. induction l as [|x l IH]; simpl; [apply returns_ret|].
  apply returns_mbind; auto.
Qed.

#[global] Hint Resolve returns_ret returns_errors_append returns_warnings_append
  returns_when returns_first_char : returns.
#[global] Hint Extern 2 (returns_at _ (mbind get_ast _)) =>
  apply returns_get_ast : returns.
#[global] Hint Extern 3 (returns_at _ (mbind _ _)) =>
  apply returns_mbind; [|intros ?] : returns.
#[global] Hint Extern 2 (returns_at _ (for_each _ _)) =>
  apply returns_for_each; intros ? : returns.
#[global] Hint Extern 5 (returns_at _ (if ?c then _ else _)) => destruct c : returns.
#[global] Hint Extern 5 (returns_at _ (match ?c with _ => _ end)) =>
  destruct c : returns.

Lemma returns_goals_loop a l : ∀ names,
  Forall (λ g, nonempty (GoalNode.name g)) l → returns_at a (goals_loop names l).
Proof.
  induction l as [|g l IH]; intros names Hl; simpl; [auto with returns|].
  apply Forall_cons_1 in Hl as [Hg Hl]. auto 20 with returns.
Qed.

Lemma returns_metrics_loop a float_str l : ∀ names,
  Forall (λ m, nonempty (MetricNode.name m)) l →
  returns_at a (metrics_loop float_str names l).
Proof.
  induction l as [|g l IH]; intros names Hl; simpl; [auto with returns|].
  apply Forall_cons_1 in Hl as [Hg Hl]. auto 20 with returns.
Qed.

Lemma returns_rmetric_body a mn rn r :
  nonempty (RMetricNode.name r) → returns_at a (rmetric_body mn rn r).
Proof. intros Hr. unfold rmetric_body, undefined_refs. auto 20 with returns. Qed.

Lemma returns_rmetrics_loop a mn l : ∀ rn,
  Forall (λ r, nonempty (RMetricNode.name r)) l →
  returns_at a (rmetrics_loop mn rn l).
Proof.
  induction l as [|r l IH]; intros rn Hl; simpl; [auto with returns|].
  apply Forall_cons_1 in Hl as [Hr Hl].
  apply returns_mbind; [by apply returns_rmetric_body|auto].
Qed.

Lemma returns_trigger_body a mn t : returns_at a (trigger_body mn t).
Proof.
  unfold trigger_body.
  destruct (Re.rmatch _ _) as [[|? [|? [|? [|? ?]]]]|]; auto 20 with returns.
Qed.

Lemma returns_validate_mandatory_fields a : returns_at a _validate_mandatory_fields.
Proof. unfold _validate_mandatory_fields. auto 20 with returns. Qed.

Lemma returns_validate_persona a : returns_at a _validate_persona.
Proof. unfold _validate_persona. auto 20 with returns. Qed.

Lemma returns_validate_goals a : parsed a → returns_at a _validate_goals.
Proof.
  intros Ha. apply returns_get_ast, returns_goals_loop.
  eapply Forall_impl; [apply (parsed_goals a Ha)|]. by intros g [Hn _].
Qed.

Lemma returns_validate_metrics a float_str :
  parsed a → returns_at a (_validate_metrics float_str).
Proof.
  intros Ha. apply returns_get_ast, returns_metrics_loop.
  eapply Forall_impl; [apply (parsed_metrics a Ha)|]. by intros g [Hn _].
Qed.

Lemma returns_validate_rmetrics a : parsed a → returns_at a _validate_rmetrics.
Proof.
  intros Ha. apply returns_get_ast, returns_rmetrics_loop.
  eapply Forall_impl; [apply (parsed_rmetrics a Ha)|]. by intros g [Hn _].
Qed.

Lemma returns_validate_triggers a : returns_at a _validate_triggers.
Proof.
  apply returns_get_ast, returns_for_each. intros t. apply returns_trigger_body.
Qed.

Lemma returns_validate_variants a : returns_at a _validate_variants.
Proof. unfold _validate_variants. auto 20 with returns. Qed.

Lemma returns_validate_output a : returns_at a _validate_output.
Proof. unfold _validate_output. auto 30 with returns. Qed.

Lemma returns_validate_identifier_references a :
  returns_at a _validate_identifier_references.
Proof. unfold _validate_identifier_references. auto 20 with returns. Qed.

Lemma reports_mbind a {A} (m : M A) (k : M Report.t) :
  returns_at a m → reports a k → reports a (mbind m (λ _, k)).
Proof.
  intros Hm Hk s Hs. unfold mbind.
  destruct (Hm s Hs) as (s' & x & -> & Hs'). by apply Hk.
Qed.

Lemma parsed_reports a float_str : parsed a → reports a (validate float_str).
Proof.
  intros Ha. unfold validate.
  apply reports_mbind; [apply returns_validate_mandatory_fields|].
  apply reports_mbind; [apply returns_validate_persona|].
  apply reports_mbind; [by apply returns_validate_goals|].
  apply reports_mbind; [by apply returns_validate_metrics|].
  apply reports_mbind; [by apply returns_validate_rmetrics|].
  apply reports_mbind; [apply returns_validate_triggers|].
  apply reports_mbind; [apply returns_validate_variants|].
  apply reports_mbind; [apply returns_validate_output|].
  apply reports_mbind; [apply returns_validate_identifier_references|].
  intros [a' es ws] Hs. simpl in *. subst a'. by exists es, ws.
Qed.

(** C6: for every AST that a successful parse produced, [validate] returns
    its report of errors and warnings and does not raise. *)
Theorem validate_returns_on_parsed :
  ∀ (float_str : spec_float → string) (text : string) (a : ROIDSLAST),
    parse text = Ok a →
    ∃ es ws, validate float_str (init a) = (mkSelf a es ws, Ok (Report.mk es ws)).
Proof.
  intros float_str text a Hp.
  by apply (parsed_reports a float_str (parse_parsed text a Hp) (init a)).
Qed.

Lemma validate_returns_on_parsed_witness :
  parse Examples.scenario_A = Ok Examples.scenario_A_ast ∧
  ∃ es ws, validate (λ _, "float") (init Examples.scenario_A_ast)
           = (mkSelf Examples.scenario_A_ast es ws, Ok (Report.mk es ws)).
Proof.
  split; [vm_compute; reflexivity|].
  apply (validate_returns_on_parsed _ Examples.scenario_A).
  vm_compute. reflexivity.
Defined.

(** ** Which errors a check can append *)

Lemma appends_ret a Q {A} (x : A) : appends a Q (ret x).
Proof. intros s Hs. split; [done|]. exists []. by rewrite app_nil_r. Qed.

Lemma appends_raise a Q {A} e : appends a Q (@raise A e).
Proof. intros s Hs. split; [done|]. exists []. by rewrite app_nil_r. Qed.

Lemma appends_warnings_append a Q msg : appends a Q (warnings_append msg).
Proof. intros s Hs. split; [done|]. exists []. by rewrite app_nil_r. Qed.

Lemma appends_errors_append a (Q : string → Prop) msg :
  Q msg → appends a Q (errors_append msg).
Proof. intros HQ s Hs. split; [done|]. exists [msg]. split; [done|]. by constructor. Qed.

Lemma appends_mbind a Q {A B} (m : M A) (f : A → M B) :
  appends a Q m → (∀ x, appends a Q (f x)) → appends a Q (mbind m f).
Proof.
  intros Hm Hf s Hs. unfold mbind. destruct (Hm s Hs) as (Ha & l & Hl & HQ).
  destruct (m s) as [s' [x|e]]; simpl in *; [|eauto].
  destruct (Hf x s' Ha) as (Ha' & l' & Hl' & HQ'). split; [done|].
  exists (l ++ l'). rewrite Hl', Hl, <- (assoc_L (++)). split; [done|]. by apply Forall_app.
Qed.

Lemma appends_get_ast a Q {B} (f : ROIDSLAST → M B) :
  appends a Q (f a) → appends a Q (mbind get_ast f).
Proof. intros Hf s Hs. unfold mbind, get_ast. rewrite Hs. by apply Hf. Qed.

Lemma appends_when a Q c body : (c = true → appends a Q body) → appends a Q (when c body).
Proof. destruct c; [auto|]. intros _. apply appends_ret. Qed.

Lemma appends_first_char a Q name : appends a Q (first_char name).
Proof.
  unfold first_char. destruct (Str.head name); [apply appends_ret|apply appends_raise].
Qed.

Lemma appends_for_each a Q {A} (P : A → Prop) (l : list A) body :
  (∀ x, P x → appends a Q (body x)) → Forall P l → appends a Q (for_each l body).
Proof.
  intros Hb Hl. induction Hl as [|x l Hx Hl IH]; simpl; [apply appends_ret|].
  apply appends_mbind; auto.
Qed.

Lemma not_truthy_nonempty s : nonempty s → negb (Str.truthy s) = true → False.
Proof. by destruct s. Qed.

Lemma validate_persona_appends a : parsed a → appends a (λ _, False) _validate_persona.
Proof.
  intros Ha. apply appends_get_ast.
  destruct (persona a) as [p|] eqn:Hp; [|apply appends_ret].
  destruct (parsed_persona a Ha p Hp) as [_ Hv].
  apply appends_mbind.
  - apply appends_when. intros Hc. by destruct (not_truthy_nonempty _ Hv).
  - intros _. apply appends_when. intros _. apply appends_warnings_append.
Qed.

Lemma validate_variants_appends a : parsed a → appends a (λ _, False) _validate_variants.
Proof.
  intros Ha. apply appends_get_ast.
  eapply appends_for_each; [|apply (parsed_variants a Ha)].
  intros v [_ Hv]. apply appends_when. intros Hc.
  by destruct (not_truthy_nonempty _ Hv).
Qed.

Lemma goals_loop_appends a l : ∀ names,
  Forall (λ g, nonempty (GoalNode.name g) ∧ nonempty (GoalNode.value g)) l →
  appends a duplicate_goal_message (goals_loop names l).
Proof.
  induction l as [|g l IH]; intros names Hl; simpl; [apply appends_ret|].
  apply Forall_cons_1 in Hl as [[Hn Hv] Hl].
  apply appends_mbind.
  { apply appends_when. intros _. apply appends_errors_append. by eexists. }
  intros _. apply appends_mbind; [apply appends_first_char|]. intros c.
  apply appends_mbind.
  { apply appends_when. intros _. apply appends_warnings_append. }
  intros _. apply appends_mbind.
  { apply appends_when. intros Hc. by destruct (not_truthy_nonempty _ Hv). }
  intros _. apply appends_mbind.
  { apply appends_when. intros _. apply appends_warnings_append. }
  intros _. by apply IH.
Qed.

Lemma validate_goals_appends a :
  parsed a → appends a duplicate_goal_message _validate_goals.
Proof.
  intros Ha. apply appends_get_ast, goals_loop_appends, (parsed_goals a Ha).
Qed.

Lemma appends_nothing a {A} (m : M A) s :
  appends a (λ _, False) m → ast s = a → errors (m s).1 = errors s.
Proof.
  intros Hm Hs. destruct (Hm s Hs) as (_ & l & -> & Hl).
  destruct l as [|x l]; [by rewrite app_nil_r|]. by apply Forall_cons_1 in Hl as [[] _].
Qed.

(** C10: on every source text that parses, each quoted value stored in the
    AST is a non-empty string, since the grammar wants at least one
    character between the quotes (a goal with nothing between them is a
    syntax error); hence the empty-value error branches of the validator
    never fire on a parser-built AST: the persona check and the variant
    check append no error at all, and the goal check appends
    duplicate-name errors only. *)
Theorem quoted_values_nonempty :
  ∀ (text : string) (a : ROIDSLAST),
    parse text = Ok a →
    (∀ p, persona a = Some p → PersonaNode.value p ≠ EmptyString) ∧
    Forall (λ p, PersonaNode.value p ≠ EmptyString) (personas a) ∧
    Forall (λ g, GoalNode.value g ≠ EmptyString) (goals a) ∧
    Forall (λ r, RMetricNode.expr r ≠ EmptyString) (rmetrics a) ∧
    Forall (λ v, VariantNode.value v ≠ EmptyString) (variants a) ∧
    (∀ t, map_Forall (λ _ value, value ≠ EmptyString) (get_table t a)) ∧
    Forall (λ tag, tag ≠ EmptyString) (sk_tags a) ∧
    parse ("GOAL X: " +:+ Str.dq +:+ Str.dq) =
      Raise (SyntaxError ("Invalid GOAL syntax: GOAL X: " +:+ Str.dq +:+ Str.dq)) ∧
    ∀ s, ast s = a →
      errors (_validate_persona s).1 = errors s ∧
      errors (_validate_variants s).1 = errors s ∧
      ∃ dups, errors (_validate_goals s).1 = errors s ++ dups ∧
              Forall duplicate_goal_message dups.
Proof.
  intros text a Hp. pose proof (parse_parsed text a Hp) as Ha.
  pose proof Ha as [H1 H2 H3 H4 H5 H6 H7 H8 H9].
  split; [intros p Hq; by destruct (H1 p Hq)|].
  split; [eapply Forall_impl; [exact H2|]; by intros ? []|].
  split; [eapply Forall_impl; [exact H3|]; by intros ? []|].
  split; [eapply Forall_impl; [exact H5|]; by intros ? []|].
  split; [eapply Forall_impl; [exact H6|]; by intros ? []|].
  split; [intros t; eapply map_Forall_impl; [exact (H7 t)|]; by intros ? ? []|].
  split; [exact H8|].
  split; [vm_compute; reflexivity|].
  intros s Hs. split; [|split].
  - apply (appends_nothing a); [by apply validate_persona_appends|done].
  - apply (appends_nothing a); [by apply validate_variants_appends|done].
  - by destruct (validate_goals_appends a Ha s Hs) as [_ ?].
Qed.

Lemma quoted_values_nonempty_witness :
  parse Examples.scenario_A = Ok Examples.scenario_A_ast ∧
  Forall (λ g, GoalNode.value g ≠ EmptyString) (goals Examples.scenario_A_ast).
Proof.
  split; [vm_compute; reflexivity|].
  refine (proj1 (proj2 (proj2 (quoted_values_nonempty Examples.scenario_A
    Examples.scenario_A_ast _)))).
  vm_compute. reflexivity.
Defined.

(** ** Matching a text of a known shape *)

Lemma star_run p re gs prev pre post r :
  Str.all p pre = true → stops p post →
  Re.run re gs (last_seen prev pre) post None = Some r →
  Re.run (Re.Star p :: re) gs prev (pre +:+ post) None = Some r.
Proof. intros Hall Hstop Hr. simpl. by apply greedy_all. Qed.

Lemma plus_run p re gs prev pre post r :
  pre ≠ EmptyString → Str.all p pre = true → stops p post →
  Re.run re gs (last_seen prev pre) post None = Some r →
  Re.run (Re.Plus p :: re) gs prev (pre +:+ post) None = Some r.
Proof.
  intros Hne Hall Hstop Hr. destruct pre as [|c pre]; [done|].
  simpl in *. apply andb_prop in Hall as [Hc Hall]. rewrite Hc.
  by apply greedy_all.
Qed.

Lemma plus_group_run p re gs prev g post r :
  g ≠ EmptyString → Str.all p g = true → stops p post →
  Re.run re (g :: gs) (last_seen prev g) post None = Some r →
  Re.run ([Re.Open; Re.Plus p; Re.Close] ++ re) gs prev (g +:+ post) None = Some r.
Proof.
  intros Hne Hall Hstop Hr. destruct g as [|c g]; [done|].
  simpl in *. apply andb_prop in Hall as [Hc Hall]. rewrite Hc.
  apply greedy_all; [done..|]. exact Hr.
Qed.

Lemma lit_run c re gs prev s :
  Re.run (Re.Lit c :: re) gs prev (String c s) None = Re.run re gs (Some c) s None.
Proof. simpl. unfold Char.eq. by rewrite Ascii.eqb_refl. Qed.

Lemma stops_word_space kind post :
  kind ≠ EmptyString → Str.all Char.isword kind = true →
  stops Char.isspace (kind +:+ post).
Proof.
  destruct kind as [|c kind]; [done|]. simpl. intros _ Hall.
  apply andb_prop in Hall as [Hc _]. by apply word_not_space.
Qed.

Lemma output_match kind :
  kind ≠ EmptyString → Str.all Char.isword kind = true →
  Re.rmatch output_pattern ("OUTPUT " +:+ kind) = Some [kind].
Proof.
  intros Hne Hall. unfold Re.rmatch, output_pattern.
  replace ("OUTPUT " +:+ kind) with ("OUTPUT" +:+ (" " +:+ (kind +:+ EmptyString)))
    by (by rewrite str_app_empty_r).
  rewrite run_lit.
  rewrite (plus_run Char.isspace (word_group ++ []) [] _ " " (kind +:+ EmptyString)
             ([kind], last_seen (Some " "%char) kind, EmptyString)); try done.
  - by apply stops_word_space.
  - by apply plus_group_run.
Qed.

(** ** Lines of a one-line text *)

Lemma split_lines_one s :
  Str.all not_newline s = true → Str.split_lines s = [s].
Proof.
  induction s as [|c s IH]; simpl; [done|]. unfold not_newline at 1.
  intros H. apply andb_prop in H as [Hc Hs].
  destruct (Ascii.eqb c "010"%char); [done|]. by rewrite IH.
Qed.

Lemma rstrip_app a b :
  Str.rstrip b ≠ EmptyString → Str.rstrip (a +:+ b) = a +:+ Str.rstrip b.
Proof.
  intros Hb. induction a as [|c a IH]; simpl; [done|].
  rewrite IH. destruct (a +:+ Str.rstrip b) eqn:E; [|done].
  destruct a; simpl in E; [done|discriminate].
Qed.

Lemma rstrip_word kind :
  Str.all Char.isword kind = true → Str.rstrip kind = kind.
Proof.
  induction kind as [|c kind IH]; simpl; [done|].
  intros H. apply andb_prop in H as [Hc Hs]. rewrite IH by done.
  destruct kind; [|done]. by rewrite word_not_space.
Qed.

Lemma all_word_not_newline kind :
  Str.all Char.isword kind = true → Str.all not_newline kind = true.
Proof.
  induction kind as [|c kind IH]; simpl; [done|].
  intros H. apply andb_prop in H as [Hc Hs]. unfold not_newline at 1.
  by rewrite word_not_newline, IH.
Qed.

Lemma lines_of_output kind :
  kind ≠ EmptyString → Str.all Char.isword kind = true →
  lines_of ("OUTPUT " +:+ kind) = ["OUTPUT " +:+ kind].
Proof.
  intros Hne Hall. unfold lines_of.
  rewrite split_lines_one by (simpl; by apply all_word_not_newline).
  assert (Str.strip ("OUTPUT " +:+ kind) = "OUTPUT " +:+ kind) as Hs;
    [|by rewrite list_fmap_singleton, Hs].
  unfold Str.strip. change (Str.lstrip ("OUTPUT " +:+ kind)) with ("OUTPUT " +:+ kind).
  rewrite rstrip_app; rewrite rstrip_word; done.
Qed.

Lemma dispatch_output n kind a :
  kind ≠ EmptyString → Str.all Char.isword kind = true →
  dispatch n ("OUTPUT " +:+ kind) a =
  if in_list kind valid_outputs then Ok (set_output kind a)
  else Raise (SyntaxError (invalid_output_message kind)).
Proof.
  intros Hne Hall. change (dispatch n ("OUTPUT " +:+ kind) a)
    with (_parse_output ("OUTPUT " +:+ kind) a).
  unfold _parse_output. rewrite output_match by done.
  destruct (in_list kind valid_outputs); reflexivity.
Qed.

(** C9: for an identifier [kind], the line [OUTPUT kind] is rejected with a
    syntax error that names the kind and lists the six valid kinds when the
    kind is outside the closed set, and sets the output intent to the kind
    when it is one of the six; this holds for the line as a whole document
    and for the line met anywhere in a document. *)
Theorem output_kind_closed_set :
  ∀ kind : string,
    kind ≠ EmptyString → Str.all Char.isword kind = true →
    (in_list kind valid_outputs = false →
       parse ("OUTPUT " +:+ kind) = Raise (SyntaxError (invalid_output_message kind)) ∧
       ∀ n a, dispatch n ("OUTPUT " +:+ kind) a =
              Raise (SyntaxError (invalid_output_message kind))) ∧
    (in_list kind valid_outputs = true →
       parse ("OUTPUT " +:+ kind) = Ok (set_output kind empty_ast) ∧
       ∀ n a, dispatch n ("OUTPUT " +:+ kind) a = Ok (set_output kind a) ∧
              output (set_output kind a) = Some kind).
Proof.
  intros kind Hne Hall. unfold parse. rewrite lines_of_output by done.
  cbn [parse_from].
  change (is_comment ("OUTPUT " +:+ kind)) with false. cbn iota.
  split; intros Hk.
  - split; [|intros n a]; rewrite dispatch_output, Hk; done.
  - split; [|intros n a]; rewrite dispatch_output, Hk by done; [done|].
    split; [done|]. by destruct a.
Qed.

Lemma output_kind_closed_set_witness :
  parse "OUTPUT Widget" =
    Raise (SyntaxError
      "Invalid OUTPUT type 'Widget'. Must be one of: SMS_CAMPAIGN, AGENT, RMetrics, vROI, MintSite, SK_SKILL") ∧
  Forall (λ kind, parse ("OUTPUT " +:+ kind) = Ok (set_output kind empty_ast))
    valid_outputs.
Proof.
  split.
  - apply (output_kind_closed_set "Widget"); [done|reflexivity|reflexivity].
  - repeat constructor;
      (eapply output_kind_closed_set; [done|reflexivity|reflexivity]).
Defined.

(** ** How a match cuts the text *)

Lemma lit_split c re gs prev s r :
  Re.run (Re.Lit c :: re) gs prev s None = Some r →
  ∃ s', s = String c s' ∧ Re.run re gs (Some c) s' None = Some r.
Proof.
  simpl. intros H. apply one_inv in H as (c' & s' & -> & Hc & H).
  apply Ascii.eqb_eq in Hc as <-. eauto.
Qed.

Lemma star_split p re gs prev s r :
  Re.run (Re.Star p :: re) gs prev s None = Some r →
  ∃ pre post prev', s = pre +:+ post ∧ Str.all p pre = true ∧
    Re.run re gs prev' post None = Some r.
Proof.
  simpl. intros H. apply greedy_inv in H as (pre & post & prev' & -> & Hall & H).
  by exists pre, post, prev'.
Qed.

Lemma plus_split p re gs prev s r :
  Re.run (Re.Plus p :: re) gs prev s None = Some r →
  ∃ c pre post prev', s = String c (pre +:+ post) ∧ p c = true ∧
    Str.all p pre = true ∧ Re.run re gs prev' post None = Some r.
Proof.
  simpl. intros H. apply one_inv in H as (c & s' & -> & Hc & H).
  apply greedy_inv in H as (pre & post & prev' & -> & Hall & H).
  by exists c, pre, post, prev'.
Qed.

Lemma plus_group_split p re gs prev s r :
  Re.run ([Re.Open; Re.Plus p; Re.Close] ++ re) gs prev s None = Some r →
  ∃ c pre post prev', s = String c (pre +:+ post) ∧ p c = true ∧
    Str.all p pre = true ∧
    Re.run re (String c pre :: gs) prev' post None = Some r.
Proof.
  simpl. intros H. apply one_inv in H as (c & s' & -> & Hc & H).
  apply greedy_inv in H as (pre & post & prev' & -> & Hall & H).
  by exists c, pre, post, prev'.
Qed.

(** Two ways of cutting one text after a run of the class [p], each cut
    followed by something outside [p], are the same cut. *)
Lemma span_unique p a : ∀ b x y,
  a +:+ x = b +:+ y → Str.all p a = true → Str.all p b = true →
  stops p x → stops p y → a = b ∧ x = y.
Proof.
  induction a as [|c a IH]; intros [|d b] x y; simpl; intros He Ha Hb Hx Hy.
  - done.
  - subst x. simpl in Hx. apply andb_prop in Hb as [Hd _]. congruence.
  - subst y. simpl in Hy. apply andb_prop in Ha as [Hc _]. congruence.
  - injection He as -> He. apply andb_prop in Ha as [_ Ha].
    apply andb_prop in Hb as [_ Hb].
    destruct (IH b x y He Ha Hb Hx Hy) as [-> ->]. done.
Qed.

(** ** METRIC lines *)

Lemma stops_number_space number post :
  number ≠ EmptyString → Str.all Char.digit_or_dot number = true →
  stops Char.isspace (number +:+ post).
Proof.
  destruct number as [|c number]; [done|]. simpl. intros _ Hall.
  apply andb_prop in Hall as [Hc _]. by apply digit_or_dot_not_space.
Qed.

Lemma metric_match id number :
  id ≠ EmptyString → Str.all Char.isword id = true →
  number ≠ EmptyString → Str.all Char.digit_or_dot number = true →
  Re.rmatch metric_pattern (metric_line id number) = Some [id; number].
Proof.
  intros Hi Hiw Hn Hnd. unfold Re.rmatch, metric_pattern, metric_line.
  assert (∃ pv, Re.run (Re.lit "METRIC" ++ [sp_plus] ++ word_group ++
      [sp_star; Re.Lit ":"; sp_star; Re.Open; Re.Plus Char.digit_or_dot; Re.Close])
      [] None ("METRIC " +:+ id +:+ ": " +:+ number) None
      = Some ([id; number], pv, EmptyString)) as [pv ->]; [|done].
  eexists.
  replace ("METRIC " +:+ id +:+ ": " +:+ number)
    with ("METRIC" +:+ (" " +:+ (id +:+ (EmptyString +:+ String ":"
            (" " +:+ (number +:+ EmptyString))))))
    by (simpl; by rewrite str_app_empty_r).
  rewrite run_lit.
  apply (plus_run Char.isspace (word_group ++ _)); [done|done| |].
  { by apply stops_word_space. }
  apply plus_group_run; [done|done|done|].
  apply star_run; [done|done|]. rewrite lit_run.
  apply star_run; [done| |].
  { by apply stops_number_space. }
  apply (plus_group_run Char.digit_or_dot []); [done|done|done|]. reflexivity.
Qed.

Lemma cut_at_dot_spec s :
  match Float.cut_at_dot s with
  | (i, None) => s = i
  | (i, Some f) => s = i +:+ String "." f
  end.
Proof.
  induction s as [|c s IH]; [done|]. cbn [Float.cut_at_dot].
  destruct (Char.eq "." c) eqn:Hc.
  - apply Ascii.eqb_eq in Hc as <-. reflexivity.
  - destruct (Float.cut_at_dot s) as [i [f|]]; subst s; reflexivity.
Qed.

Lemma digits_are_digit_or_dot s :
  Str.all Char.isdigit s = true → Str.all Char.digit_or_dot s = true.
Proof.
  induction s as [|c s IH]; simpl; [done|]. intros H.
  apply andb_prop in H as [Hc Hs]. unfold Char.digit_or_dot at 1, Char.or.
  by rewrite Hc, IH.
Qed.

(** The texts on which [float] succeeds are not empty and hold digits and
    dots only. *)
Lemma of_string_shape s v :
  Float.of_string s = Some v →
  s ≠ EmptyString ∧ Str.all Char.digit_or_dot s = true.
Proof.
  unfold Float.of_string, Float.of_digits. pose proof (cut_at_dot_spec s) as Hs.
  destruct (Float.cut_at_dot s) as [i [f|]]; subst s.
  - destruct (Str.all Char.isdigit (i +:+ f)) eqn:Hd; [|done]. intros _.
    rewrite all_app in Hd. apply andb_prop in Hd as [Hi Hf].
    split; [by destruct i|]. rewrite all_app. simpl.
    by rewrite !digits_are_digit_or_dot.
  - rewrite str_app_empty_r.
    destruct (Str.all Char.isdigit i) eqn:Hd; [|done].
    destruct i; [done|]. intros _. split; [done|].
    by apply digits_are_digit_or_dot.
Qed.

Lemma dispatch_metric n id number v a :
  id ≠ EmptyString → Str.all Char.isword id = true →
  Float.of_string number = Some v →
  dispatch n (metric_line id number) a = Ok (add_metric (MetricNode.mk id v) a).
Proof.
  intros Hi Hiw Hv. destruct (of_string_shape _ _ Hv) as [Hn Hnd].
  change (dispatch n (metric_line id number) a)
    with (_parse_metric (metric_line id number) a).
  unfold _parse_metric. rewrite metric_match by done. by rewrite Hv.
Qed.

(** A METRIC line whose number starts with a character that is neither a
    digit, a dot nor white space, such as a sign, does not match. *)
Lemma metric_sign_no_match id c rest :
  id ≠ EmptyString → Str.all Char.isword id = true →
  Char.digit_or_dot c = false → Char.isspace c = false →
  Re.rmatch metric_pattern (metric_line id (String c rest)) = None.
Proof.
  intros Hi Hiw Hc Hcs. unfold Re.rmatch.
  destruct (Re.run _ _ _ _ _) as [r|] eqn:Hr; [exfalso|done].
  unfold metric_pattern, metric_line in Hr.
  change ("METRIC " +:+ id +:+ ": " +:+ String c rest)
    with ("METRIC" +:+ (" " +:+ (id +:+ ": " +:+ String c rest))) in Hr.
  rewrite run_lit in Hr.
  change ([sp_plus] ++ word_group ++ ?l)
    with (Re.Plus Char.isspace :: (word_group ++ l)) in Hr.
  apply plus_split in Hr as (c1 & sp & post1 & pv1 & He1 & _ & Hsp & Hr).
  simpl in He1. injection He1 as <- He1.
  apply plus_group_split in Hr as (c2 & name & post2 & pv2 & -> & Hc2 & Hname & Hr).
  assert (sp = EmptyString ∧ id +:+ ": " +:+ String c rest = String c2 (name +:+ post2))
    as [-> He2].
  { destruct sp as [|d sp]; [done|]. exfalso. destruct id as [|e id]; [done|].
    simpl in *. injection He1 as <- _.
    apply andb_prop in Hsp as [Hd _]. apply andb_prop in Hiw as [He _].
    apply word_not_space in He. congruence. }
  clear He1 Hsp.
  apply star_split in Hr as (sp2 & post3 & pv3 & -> & Hsp2 & Hr).
  apply lit_split in Hr as (post4 & -> & Hr).
  apply star_split in Hr as (sp3 & post5 & pv5 & -> & Hsp3 & Hr).
  apply (plus_group_split Char.digit_or_dot []) in Hr
    as (c6 & num & post6 & pv6 & -> & Hc6 & _ & _).
  destruct (span_unique Char.isword id (String c2 name)
              (": " +:+ String c rest)
              (sp2 +:+ String ":" (sp3 +:+ String c6 (num +:+ post6))))
    as [_ He3]; [done|done|by simpl; rewrite Hc2|done| |].
  { destruct sp2 as [|d sp2]; simpl; [done|].
    simpl in Hsp2. apply andb_prop in Hsp2 as [Hd _].
    destruct (Char.isword d) eqn:Hw; [|done].
    apply word_not_space in Hw. congruence. }
  destruct (span_unique Char.isspace EmptyString sp2
              (": " +:+ String c rest)
              (String ":" (sp3 +:+ String c6 (num +:+ post6))))
    as [<- He4]; [done|done|done|done|done|].
  simpl in He4. injection He4 as He4.
  destruct sp3 as [|d [|d' sp3]]; simpl in *.
  - injection He4 as <- _. vm_compute in Hc6. done.
  - injection He4 as <- <- _. congruence.
  - injection He4 as <- <- _. apply andb_prop in Hsp3 as [_ Hsp3].
    apply andb_prop in Hsp3 as [Hd' _]. congruence.
Qed.

Lemma digit_or_dot_not_newline c :
  Char.digit_or_dot c = true → Ascii.eqb c "010"%char = false.
Proof. destruct c as [[] [] [] [] [] [] [] []]; vm_compute; intros H; congruence. Qed.

Lemma rstrip_number number :
  Str.all Char.digit_or_dot number = true → Str.rstrip number = number.
Proof.
  induction number as [|c s IH]; simpl; [done|].
  intros H. apply andb_prop in H as [Hc Hs]. rewrite IH by done.
  destruct s; [|done]. by rewrite digit_or_dot_not_space.
Qed.

Lemma all_number_not_newline number :
  Str.all Char.digit_or_dot number = true → Str.all not_newline number = true.
Proof.
  induction number as [|c s IH]; simpl; [done|].
  intros H. apply andb_prop in H as [Hc Hs]. unfold not_newline at 1.
  by rewrite digit_or_dot_not_newline, IH.
Qed.

Lemma lines_of_metric id number :
  Str.all Char.isword id = true →
  number ≠ EmptyString → Str.all Char.digit_or_dot number = true →
  lines_of (metric_line id number) = [metric_line id number].
Proof.
  intros Hiw Hn Hnd. unfold lines_of.
  rewrite split_lines_one.
  2:{ unfold metric_line. rewrite !all_app.
      rewrite (all_word_not_newline id), (all_number_not_newline number) by done.
      done. }
  assert (Str.strip (metric_line id number) = metric_line id number) as Hs.
  { unfold Str.strip, metric_line.
    change (Str.lstrip ("METRIC " +:+ id +:+ ": " +:+ number))
      with ("METRIC " +:+ id +:+ ": " +:+ number).
    rewrite <- !str_app_assoc.
    rewrite rstrip_app; rewrite rstrip_number; done. }
  rewrite list_fmap_singleton, Hs. done.
Qed.

(** C3, counterexample: the signed literal [-0.5] is rejected. *)
Lemma signed_metric_rejected :
  parse "METRIC A: -0.5" = Raise (SyntaxError "Invalid METRIC syntax: METRIC A: -0.5").
Proof. vm_compute. reflexivity. Qed.

(** C3, amended: a line [METRIC Id: number] whose number is an unsigned
    literal, digits with at most one dot, on which [float] succeeds, parses
    and appends a metric with that value, which is not negative; a number
    that starts with a sign is rejected as a syntax error; so no metric of a
    parsed AST is negative, and the negative-value warning of the validator
    is out of reach from parsed source. *)
Theorem metric_literals_unsigned :
  ∀ (id number rest text : string) (v : spec_float) (a : ROIDSLAST),
    id ≠ EmptyString → Str.all Char.isword id = true →
    Float.of_string number = Some v →
    parse text = Ok a →
    parse (metric_line id number) = Ok (add_metric (MetricNode.mk id v) empty_ast) ∧
    (∀ n b, dispatch n (metric_line id number) b
            = Ok (add_metric (MetricNode.mk id v) b)) ∧
    Float.ltb v Float.zero = false ∧
    (∀ n b sign, sign = "-"%char ∨ sign = "+"%char →
       dispatch n (metric_line id (String sign rest)) b
       = Raise (invalid "METRIC" (metric_line id (String sign rest)))) ∧
    Forall (λ m, Float.ltb (MetricNode.value m) Float.zero = false) (metrics a).
Proof.
  intros id number rest text v a Hi Hiw Hv Hp.
  destruct (of_string_shape _ _ Hv) as [Hn Hnd].
  split; [|split; [|split; [|split]]].
  - unfold parse. rewrite lines_of_metric by done. cbn [parse_from].
    change (is_comment (metric_line id number)) with false. cbn iota.
    by rewrite (dispatch_metric 0 id number v).
  - intros n b. by apply dispatch_metric.
  - by apply of_string_not_negative in Hv.
  - intros n b sign Hs.
    change (dispatch n (metric_line id (String sign rest)) b)
      with (_parse_metric (metric_line id (String sign rest)) b).
    unfold _parse_metric. rewrite metric_sign_no_match; try done.
    + by destruct Hs as [-> | ->].
    + by destruct Hs as [-> | ->].
  - eapply Forall_impl; [apply (parsed_metrics a (parse_parsed text a Hp))|].
    by intros m [_ Hm].
Qed.

Lemma metric_literals_unsigned_witness :
  parse (metric_line "Risk" "0.7")
  = Ok (add_metric (MetricNode.mk "Risk" Examples.float_0_7) empty_ast).
Proof.
  refine (proj1 (metric_literals_unsigned "Risk" "0.7" "0.5" Examples.scenario_A
                   Examples.float_0_7 Examples.scenario_A_ast _ _ _ _)).
  - done.
  - reflexivity.
  - vm_compute. reflexivity.
  - vm_compute. reflexivity.
Defined.

(** ** Undefined references, one error per occurrence *)

Lemma occurrences_app x l1 l2 :
  occurrences x (l1 ++ l2) = occurrences x l1 + occurrences x l2.
Proof. unfold occurrences. by rewrite filter_app, length_app. Qed.

Lemma undefined_message_inj name t1 t2 :
  undefined_message name t1 = undefined_message name t2 → t1 = t2.
Proof.
  unfold undefined_message. intros H.
  by do 3 apply str_app_inv_head in H.
Qed.

Lemma undefined_refs_run name mn rn tokens : ∀ s,
  undefined_refs name mn rn tokens s =
  (mkSelf (ast s)
     (errors s ++ (undefined_message name <$> filter (undefined mn rn) tokens))
     (warnings s), Ok tt).
Proof.
  unfold undefined_refs.
  induction tokens as [|t tokens IH]; intros [a es ws]; simpl.
  - by rewrite app_nil_r.
  - unfold mbind, when. rewrite filter_cons.
    destruct (decide (undefined mn rn t)) as [[H1 H2]|Hn].
    + rewrite !bool_decide_eq_false_2 by done. simpl.
      rewrite IH. simpl. by rewrite <- (assoc_L (++)).
    + assert (negb (bool_decide (t ∈ mn)) && negb (bool_decide (t ∈ rn)) = false) as ->.
      { unfold undefined in Hn. do 2 case_bool_decide; simpl; try done. tauto. }
      simpl. by rewrite IH.
Qed.

Lemma occurrences_undefined name mn rn token tokens :
  undefined mn rn token →
  occurrences (undefined_message name token)
    (undefined_message name <$> filter (undefined mn rn) tokens)
  = occurrences token tokens.
Proof.
  intros Hu. unfold occurrences.
  induction tokens as [|t tokens IH]; [done|].
  rewrite !filter_cons.
  destruct (decide (undefined mn rn t)) as [Ht|Ht];
    destruct (decide (t = token)) as [->|Hne]; try done.
  - rewrite fmap_cons, filter_cons, decide_True by done.
    cbn [length]. by rewrite IH.
  - rewrite fmap_cons, filter_cons, decide_False; [done|].
    intros H. by apply undefined_message_inj in H.
Qed.

(** C5, counterexample: the undeclared name [Unknown] occurs twice in one
    expression and is reported twice, not once. *)
Lemma repeated_token_reported_twice :
  Examples.check (λ _, "float") Examples.repeated_token_document =
    Some (Ok (Report.mk
      [undefined_message "Health" "Unknown"; undefined_message "Health" "Unknown"]
      ["PERSONA is recommended but not mandatory";
       "AGENT output can use triggers for automation logic";
       "RMetric Health references 'Unknown' which is not a declared METRIC";
       "RMetric Health references 'Unknown' which is not a declared METRIC"])) ∧
  occurrences (undefined_message "Health" "Unknown")
    [undefined_message "Health" "Unknown"; undefined_message "Health" "Unknown"] ≠ 1.
Proof. split; [vm_compute; reflexivity|]. vm_compute. congruence. Qed.

(** The errors one turn of the loop of [_validate_rmetrics] appends: the
    duplicate-name error, then one error per undefined token occurrence,
    then the circular-reference error. *)
Lemma rmetric_body_errors mn rn r s :
  RMetricNode.name r ≠ EmptyString →
  errors (rmetric_body mn rn r s).1 =
  errors s ++
  (if bool_decide (RMetricNode.name r ∈ rn)
   then [duplicate_rmetric_message (RMetricNode.name r)] else []) ++
  (undefined_message (RMetricNode.name r) <$>
     filter (undefined mn (rn ∪ {[RMetricNode.name r]}))
       (capital_tokens (RMetricNode.expr r))) ++
  (if Str.contains (RMetricNode.name r) (RMetricNode.expr r)
   then [circular_message (RMetricNode.name r)] else []).
Proof.
  destruct r as [name expr], s as [a es ws]. cbn [RMetricNode.name RMetricNode.expr].
  destruct name as [|c name]; [done|]. intros _.
  unfold rmetric_body, mbind, when, first_char, ret.
  cbn [Str.head RMetricNode.name RMetricNode.expr].
  destruct (bool_decide (String c name ∈ rn)); cbn [errors_append fst snd];
    destruct (negb (Char.isupper c)); cbn [warnings_append fst snd ast errors warnings];
    rewrite undefined_refs_run; cbn [ast errors warnings];
    destruct (Str.contains (String c name) expr);
    cbn [errors_append fst snd ast errors warnings];
    by rewrite <- ?(assoc_L (++)), ?app_nil_r.
Qed.

Lemma occurrences_duplicate name token :
  occurrences (undefined_message name token) [duplicate_rmetric_message name] = 0.
Proof.
  unfold occurrences. rewrite filter_cons, decide_False; [done|]. discriminate.
Qed.

Lemma occurrences_circular name token :
  occurrences (undefined_message name token) [circular_message name] = 0.
Proof.
  unfold occurrences. rewrite filter_cons, decide_False; [done|].
  unfold undefined_message, circular_message. intros H.
  do 2 apply str_app_inv_head in H. discriminate.
Qed.

(** C5, amended: while the validator checks one DerivedMetric, each
    occurrence of a capitalized token that is outside the reserved words
    and names neither a declared Metric nor a DerivedMetric met so far
    (this one included) appends one undefined-reference error: a token that
    occurs n times in the expression is reported n times. *)
Theorem undefined_reference_per_occurrence :
  ∀ (mn rn : gset string) (r : RMetricNode.t) (token : string) (s : self),
    RMetricNode.name r ≠ EmptyString →
    in_list token ["AND"; "OR"; "NOT"; "IF"] = false →
    token ∉ mn → token ∉ rn → token ≠ RMetricNode.name r →
    occurrences (undefined_message (RMetricNode.name r) token)
      (errors (rmetric_body mn rn r s).1)
    = occurrences (undefined_message (RMetricNode.name r) token) (errors s)
      + occurrences token (capital_tokens (RMetricNode.expr r)).
Proof.
  intros mn rn r token s Hn _ Hmn Hrn Hne.
  assert (undefined mn (rn ∪ {[RMetricNode.name r]}) token) as Hu.
  { split; [done|]. apply not_elem_of_union. split; [done|].
    by apply not_elem_of_singleton. }
  rewrite rmetric_body_errors by done.
  rewrite !occurrences_app, occurrences_undefined by done.
  assert (occurrences (undefined_message (RMetricNode.name r) token) [] = 0) as Hnil
    by done.
  destruct (bool_decide _), (Str.contains _ _);
    rewrite ?occurrences_duplicate, ?occurrences_circular, ?Hnil; lia.
Qed.

Lemma undefined_reference_per_occurrence_witness :
  occurrences (undefined_message "Health" "Unknown")
    (errors (rmetric_body {["Risk"]} ∅
               (RMetricNode.mk "Health" "Unknown + Unknown") (init empty_ast)).1)
  = 0 + 2.
Proof.
  apply (undefined_reference_per_occurrence {["Risk"]} ∅
           (RMetricNode.mk "Health" "Unknown + Unknown") "Unknown" (init empty_ast)).
  - done.
  - reflexivity.
  - compute_done.
  - compute_done.
  - done.
Defined.

(** ** Failing at the first invalid line *)

Lemma metric_not_rmetric line :
  Str.startswith "METRIC" line = true → Str.startswith "RMetric" line = false.
Proof.
  destruct line as [|c line]; [done|]. cbn [Str.startswith].
  destruct (Ascii.eqb "M" c) eqn:Hc; [|done].
  apply Ascii.eqb_eq in Hc as <-. reflexivity.
Qed.











(** * Further properties of the parser *)

(** ** Every accepted line is one effect *)

Lemma parse_table_effect re what t line :
  (∀ g, Re.rmatch re line = Some g →
     ∃ key value, g = [key; value] ∧ nonempty key ∧ Str.all Char.isword key = true ∧
       nonempty value ∧ Str.all (Char.neq Char.dquote) value = true) →
  (∃ e, effect_shape e ∧ ∀ a, parse_table re what t line a = Ok (apply_effect e a)) ∨
  (∃ x, ∀ a, parse_table re what t line a = Raise x).
Proof.
  intros Hinv. unfold parse_table.
  destruct (Re.rmatch re line) as [g|] eqn:Hm; [|right; by eexists].
  destruct (Hinv g eq_refl) as (key & value & -> & Hk & Hkw & Hv & Hvq).
  left. exists (SetTable t key value). by repeat split.
Qed.

(** A line is either accepted, and then it applies one effect of the
    expected shape whatever the AST and the index are, or rejected. *)
Lemma dispatch_effect line :
  (∃ e, effect_shape e ∧ ∀ n a, dispatch n line a = Ok (apply_effect e a)) ∨
  (∃ x, ∀ n a, dispatch n line a = Raise (x n)).
Proof.
  assert (∀ (P : ROIDSLAST → result ROIDSLAST),
    (∃ e, effect_shape e ∧ ∀ a, P a = Ok (apply_effect e a)) ∨
    (∃ x, ∀ a, P a = Raise x) →
    (∃ e, effect_shape e ∧ ∀ (n : nat) a, P a = Ok (apply_effect e a)) ∨
    (∃ x : nat → exn, ∀ (n : nat) a, P a = Raise (x n))) as Hlift.
  { intros P [(e & He & HP)|(x & HP)]; [left; eauto|].
    right. exists (λ _, x). eauto. }
  unfold dispatch.
  repeat match goal with
  | |- context [if ?c then _ else _] => destruct c
  end; try apply Hlift;
    try (apply parse_table_effect; intros g; first [apply keyed_inv|apply prefixed_inv]).
  - unfold _parse_persona. destruct (Re.rmatch _ _) as [g|] eqn:Hm; [|right; by eexists].
    apply keyed_inv in Hm as (name & value & -> & ? & ? & ? & ?).
    left. exists (AddPersona (PersonaNode.mk name value)). by repeat split.
  - unfold _parse_goal. destruct (Re.rmatch _ _) as [g|] eqn:Hm; [|right; by eexists].
    apply keyed_inv in Hm as (name & value & -> & ? & ? & ? & ?).
    left. exists (AddGoal (GoalNode.mk name value)). by repeat split.
  - unfold _parse_metric. destruct (Re.rmatch _ _) as [g|] eqn:Hm; [|right; by eexists].
    apply metric_inv in Hm as (name & number & -> & ? & ? & ? & ?).
    destruct (Float.of_string number) as [v|] eqn:Hv; [|right; by eexists].
    left. exists (AddMetric (MetricNode.mk name v)). repeat split; eauto.
  - unfold _parse_rmetric. destruct (Re.rmatch _ _) as [g|] eqn:Hm; [|right; by eexists].
    apply keyed_inv in Hm as (name & value & -> & ? & ? & ? & ?).
    left. exists (AddRMetric (RMetricNode.mk name value)). by repeat split.
  - unfold _parse_trigger. destruct (Re.rmatch _ _) as [g|] eqn:Hm; [|right; by eexists].
    apply trigger_inv in Hm as (condition & action & ->).
    left. exists (AddTrigger (TriggerNode.mk (Str.strip condition) (Str.strip action))).
    repeat split; simpl; eauto.
  - unfold _parse_variant. destruct (Re.rmatch _ _) as [g|] eqn:Hm; [|right; by eexists].
    apply keyed_inv in Hm as (name & value & -> & ? & ? & ? & ?).
    left. exists (AddVariant (VariantNode.mk name value)). by repeat split.
  - unfold _parse_sk_tag. destruct (Re.rmatch _ _) as [g|] eqn:Hm; [|right; by eexists].
    apply sk_tag_inv in Hm as (value & -> & ? & ?).
    left. exists (AddTag value). by repeat split.
  - unfold _parse_output. destruct (Re.rmatch _ _) as [g|] eqn:Hm; [|right; by eexists].
    apply output_inv in Hm as (kind & -> & ? & ?).
    destruct (in_list kind valid_outputs) eqn:Hk; simpl; [|right; by eexists].
    left. exists (SetOutput kind). by repeat split.
  - right. by eexists (λ n, _).
Qed.

(** A list of lines is either accepted, and then it applies a sequence of
    effects that depends on the lines only, or rejected whatever the AST
    and the starting index are. *)
Lemma parse_from_effects lines :
  (∃ es, Forall effect_shape es ∧
     ∀ n a, parse_from n lines a = Ok (apply_effects es a)) ∨
  (∀ n a, ∃ x, parse_from n lines a = Raise x).
Proof.
  induction lines as [|line rest IH].
  { left. exists []. by split. }
  cbn [parse_from]. destruct (is_comment line).
  { destruct IH as [(es & Hes & IH)|IH]; [left|right]; eauto. }
  destruct (dispatch_effect line) as [(e & He & Hd)|(x & Hd)].
  - destruct IH as [(es & Hes & IH)|IH].
    + left. exists (e :: es). split; [by constructor|].
      intros n a. rewrite Hd. simpl. by rewrite IH.
    + right. intros n a. rewrite Hd. simpl. apply IH.
  - right. intros n a. rewrite Hd. simpl. eauto.
Qed.

Lemma parse_from_ok_index lines n m a r :
  parse_from n lines a = Ok r → parse_from m lines a = Ok r.
Proof.
  destruct (parse_from_effects lines) as [(es & _ & H)|H].
  - by rewrite !H.
  - destruct (H n a) as [x ->]. done.
Qed.

Lemma parse_from_app l1 : ∀ l2 n a,
  parse_from n (l1 ++ l2) a =
  bind (parse_from n l1 a) (parse_from (n + length l1) l2).
Proof.
  induction l1 as [|line l1 IH]; intros l2 n a; cbn [app parse_from length].
  - simpl. by rewrite Nat.add_0_r.
  - replace (n + S (length l1)) with (S n + length l1) by lia.
    destruct (is_comment line); [apply IH|].
    destruct (dispatch n line a) as [b|x]; simpl; [apply IH|done].
Qed.

Lemma split_lines_nonempty s : Str.split_lines s ≠ [].
Proof.
  destruct s as [|c s]; simpl; [done|].
  destruct (Ascii.eqb c "010"%char); [done|]. by destruct (Str.split_lines s).
Qed.

(** [split] cuts at every newline: the lines of two texts joined by a
    newline are the lines of the first followed by those of the second. *)
Lemma split_lines_app a b :
  Str.split_lines (a +:+ nl +:+ b) = Str.split_lines a ++ Str.split_lines b.
Proof.
  induction a as [|c a IH]; [done|].
  cbn [String.append Str.split_lines].
  destruct (Ascii.eqb c "010"%char); [by rewrite IH|].
  rewrite IH. pose proof (split_lines_nonempty a) as Hne.
  by destruct (Str.split_lines a).
Qed.

Lemma lines_of_app a b : lines_of (a +:+ nl +:+ b) = lines_of a ++ lines_of b.
Proof. unfold lines_of. by rewrite split_lines_app, fmap_app, filter_app. Qed.

Lemma lines_of_one c :
  Str.all not_newline c = true →
  lines_of c = if Str.truthy (Str.strip c) then [Str.strip c] else [].
Proof.
  intros Hc. unfold lines_of. rewrite split_lines_one by done.
  rewrite list_fmap_singleton, filter_cons.
  destruct (Str.truthy (Str.strip c)) eqn:Ht.
  - by rewrite decide_True.
  - by rewrite decide_False.
Qed.

(** X1: a blank line or a comment line (one whose first characters after
    the leading white space are [#] or [//]) does not change the result of
    a successful parse: the text with the line and the text without it
    yield the same AST, and one parses exactly when the other does. *)
Theorem comment_and_blank_lines_ignored :
  ∀ (a b c : string) (r : ROIDSLAST),
    Str.all not_newline c = true →
    Str.truthy (Str.strip c) = false ∨ is_comment (Str.strip c) = true →
    parse (a +:+ nl +:+ c +:+ nl +:+ b) = Ok r ↔ parse (a +:+ nl +:+ b) = Ok r.
Proof.
  intros a b c r Hc Hskip. unfold parse.
  rewrite (lines_of_app a (c +:+ nl +:+ b)), (lines_of_app c b), (lines_of_app a b).
  rewrite (lines_of_one c Hc).
  destruct (Str.truthy (Str.strip c)) eqn:Ht; [|done].
  destruct Hskip as [|Hcm]; [done|].
  rewrite !parse_from_app.
  destruct (parse_from 0 (lines_of a) empty_ast) as [x|e]; simpl; [|done].
  rewrite Hcm. split; apply parse_from_ok_index.
Qed.

Lemma comment_and_blank_lines_ignored_witness :
  parse ("METRIC Risk: 0.7" +:+ nl +:+ "  # a note" +:+ nl +:+ "OUTPUT AGENT")
  = Ok (set_output "AGENT"
          (add_metric (MetricNode.mk "Risk" Examples.float_0_7) empty_ast)).
Proof.
  apply (comment_and_blank_lines_ignored "METRIC Risk: 0.7" "OUTPUT AGENT" "  # a note").
  - reflexivity.
  - right. reflexivity.
  - vm_compute. reflexivity.
Defined.

(** ** Invariants of parser-built ASTs *)

(** A property of the empty AST that every effect of the expected shape
    keeps holds of every parsed AST. *)
Lemma parse_invariant (P : ROIDSLAST → Prop) text a :
  P empty_ast →
  (∀ e b, effect_shape e → P b → P (apply_effect e b)) →
  parse text = Ok a → P a.
Proof.
  intros H0 Hstep. unfold parse.
  destruct (parse_from_effects (lines_of text)) as [(es & Hes & H)|H].
  - rewrite H. intros [= <-]. clear H. unfold apply_effects.
    revert H0. generalize empty_ast.
    induction Hes as [|e es He Hes IH]; intros b Hb; simpl; [done|].
    apply IH. by apply Hstep.
  - destruct (H 0 empty_ast) as [x ->]. done.
Qed.

Lemma shaped_step e b : effect_shape e → shaped b → shaped (apply_effect e b).
Proof.
  intros He [H1 H2 H3 H4 H5 H6 H7].
  destruct e as [node|node|node|node|node|node|t key value|tag|kind];
    try destruct t; destruct b; simpl in He |- *; split; simpl in *; try done;
    try (apply Forall_app; split; [done|]; constructor; [|done]; tauto).
  all: intros t'; specialize (H6 t'); destruct t'; simpl in *; try done;
    by apply map_Forall_insert_2.
Qed.

(** X2: in every AST a successful parse produces, each name (of a persona,
    goal, metric, derived metric, variant kind or fact-table key) is a
    non-empty text of word characters, taken from the line as it stands, and
    each quoted text (description, expression, value, tag) is non-empty and
    holds no double quote. *)
Theorem parsed_names_are_identifiers :
  ∀ (text : string) (a : ROIDSLAST), parse text = Ok a → shaped a.
Proof.
  intros text a. apply (parse_invariant shaped).
  - split; simpl; try done. intros []; apply map_Forall_empty.
  - apply shaped_step.
Qed.

Lemma parsed_names_are_identifiers_witness : shaped Examples.scenario_A_ast.
Proof.
  apply (parsed_names_are_identifiers Examples.scenario_A).
  vm_compute. reflexivity.
Defined.



(** ** Lines written in the directive's form parse back *)

Lemma colon_quoted_match text rest gs prev :
  quotable text →
  ∃ pv, Re.run colon_quoted gs prev (": " +:+ Str.dq +:+ text +:+ Str.dq +:+ rest) None
        = Some (reverse (text :: gs), pv, rest).
Proof.
  intros [Ht Htq]. eexists. unfold colon_quoted, quoted_group, sp_star.
  change ([Re.Star Char.isspace; Re.Lit ":"; Re.Star Char.isspace] ++ _)
    with (Re.Star Char.isspace :: Re.Lit ":" :: Re.Star Char.isspace ::
          Re.Lit Char.dquote ::
          ([Re.Open; Re.Plus (Char.neq Char.dquote); Re.Close] ++ [Re.Lit Char.dquote])).
  change (": " +:+ Str.dq +:+ text +:+ Str.dq +:+ rest)
    with (EmptyString +:+ String ":" (" " +:+ String Char.dquote
            (text +:+ String Char.dquote rest))).
  apply star_run; [done|done|]. rewrite lit_run.
  apply star_run; [done|done|]. rewrite lit_run.
  apply plus_group_run; [done|done|simpl; by vm_compute|].
  rewrite lit_run. reflexivity.
Qed.

Lemma keyed_match kw id text rest :
  identifier id → quotable text →
  Re.rmatch (keyed kw)
    (kw +:+ " " +:+ id +:+ ": " +:+ Str.dq +:+ text +:+ Str.dq +:+ rest)
  = Some [id; text].
Proof.
  intros [Hi Hiw] Ht. unfold Re.rmatch, keyed.
  destruct (colon_quoted_match text rest [id] (last_seen (last_seen
              (last_seen None kw) " ") id) Ht) as [pv Hcq].
  assert (Re.run (Re.lit kw ++ [sp_plus] ++ word_group ++ colon_quoted) [] None
            (kw +:+ " " +:+ id +:+ ": " +:+ Str.dq +:+ text +:+ Str.dq +:+ rest) None
          = Some ([id; text], pv, rest)) as ->; [|done].
  rewrite run_lit.
  apply (plus_run Char.isspace (word_group ++ colon_quoted)); [done|done| |].
  { by apply stops_word_space. }
  apply plus_group_run; [done|done|done|]. exact Hcq.
Qed.

Lemma prefixed_match kw id text rest :
  identifier id → quotable text →
  Re.rmatch (prefixed kw)
    (kw +:+ id +:+ ": " +:+ Str.dq +:+ text +:+ Str.dq +:+ rest)
  = Some [id; text].
Proof.
  intros [Hi Hiw] Ht. unfold Re.rmatch, prefixed.
  destruct (colon_quoted_match text rest [id] (last_seen (last_seen None kw) id) Ht)
    as [pv Hcq].
  assert (Re.run (Re.lit kw ++ word_group ++ colon_quoted) [] None
            (kw +:+ id +:+ ": " +:+ Str.dq +:+ text +:+ Str.dq +:+ rest) None
          = Some ([id; text], pv, rest)) as ->; [|done].
  rewrite run_lit.
  apply plus_group_run; [done|done|done|]. exact Hcq.
Qed.

Lemma keyed_line_rest kw id text rest :
  Examples.keyed_line kw id text +:+ rest
  = kw +:+ " " +:+ id +:+ ": " +:+ Str.dq +:+ text +:+ Str.dq +:+ rest.
Proof. unfold Examples.keyed_line. by rewrite !str_app_assoc. Qed.

Lemma prefixed_line_rest kw id text rest :
  prefixed_line kw id text +:+ rest
  = kw +:+ id +:+ ": " +:+ Str.dq +:+ text +:+ Str.dq +:+ rest.
Proof. unfold prefixed_line. by rewrite !str_app_assoc. Qed.

(** X4: a line written as [KW Id: <quote>text<quote>], with an identifier
    and a text free of double quotes, parses back to exactly that name and
    that text, for PERSONA, GOAL, RMetric and VARIANT; whatever follows the
    closing quote on the line is ignored. *)
Theorem keyed_line_round_trip :
  ∀ (id text rest : string) (n : nat) (a : ROIDSLAST),
    identifier id → quotable text →
    dispatch n (Examples.keyed_line "PERSONA" id text +:+ rest) a
      = Ok (add_persona (PersonaNode.mk id text) a) ∧
    dispatch n (Examples.keyed_line "GOAL" id text +:+ rest) a
      = Ok (add_goal (GoalNode.mk id text) a) ∧
    dispatch n (Examples.keyed_line "RMetric" id text +:+ rest) a
      = Ok (add_rmetric (RMetricNode.mk id text) a) ∧
    dispatch n (Examples.keyed_line "VARIANT" id text +:+ rest) a
      = Ok (add_variant (VariantNode.mk id text) a).
Proof.
  intros id text rest n a Hi Ht. rewrite !keyed_line_rest. repeat split.
  - change (dispatch n ?l a) with (_parse_persona l a).
    unfold _parse_persona. by rewrite keyed_match.
  - change (dispatch n ?l a) with (_parse_goal l a).
    unfold _parse_goal. by rewrite keyed_match.
  - change (dispatch n ?l a) with (_parse_rmetric l a).
    unfold _parse_rmetric. by rewrite keyed_match.
  - change (dispatch n ?l a) with (_parse_variant l a).
    unfold _parse_variant. by rewrite keyed_match.
Qed.

Lemma keyed_line_round_trip_witness :
  dispatch 0 (Examples.keyed_line "GOAL" "Cost" "Avoid $2M/mo burn" +:+ " # why") empty_ast
  = Ok (add_goal (GoalNode.mk "Cost" "Avoid $2M/mo burn") empty_ast).
Proof.
  refine (proj1 (proj2 (keyed_line_round_trip "Cost" "Avoid $2M/mo burn" " # why" 0
                          empty_ast _ _))); split; done.
Defined.

Lemma dispatch_table_line t key text rest n a :
  identifier key → quotable text →
  dispatch n (table_line t key text +:+ rest) a = Ok (table_insert t key text a).
Proof.
  intros Hk Ht. destruct t; unfold table_line;
    rewrite ?keyed_line_rest, ?prefixed_line_rest.
  - change (dispatch n ?l a) with (_parse_credential l a).
    unfold _parse_credential, parse_table. by rewrite keyed_match.
  - change (dispatch n ?l a) with (_parse_case_study l a).
    unfold _parse_case_study, parse_table. by rewrite keyed_match.
  - change (dispatch n ?l a) with (_parse_service l a).
    unfold _parse_service, parse_table. by rewrite keyed_match.
  - change (dispatch n ?l a) with (_parse_training l a).
    unfold _parse_training, parse_table. by rewrite keyed_match.
  - change (dispatch n ?l a) with (_parse_vroi_input l a).
    unfold _parse_vroi_input, parse_table. by rewrite keyed_match.
  - change (dispatch n ?l a) with (_parse_vroi_output l a).
    unfold _parse_vroi_output, parse_table. by rewrite keyed_match.
  - change (dispatch n ?l a) with (_parse_stat l a).
    unfold _parse_stat, parse_table. by rewrite keyed_match.
  - change (dispatch n ?l a) with (_parse_microtraining l a).
    unfold _parse_microtraining, parse_table. by rewrite keyed_match.
  - change (dispatch n ?l a) with (_parse_seo l a).
    unfold _parse_seo, parse_table. by rewrite prefixed_match.
  - change (dispatch n ?l a) with (_parse_contact l a).
    unfold _parse_contact, parse_table. by rewrite prefixed_match.
Qed.

(** ** Fact tables *)

Lemma get_table_insert t key value a :
  get_table t (table_insert t key value a) = <[key:=value]> (get_table t a).
Proof. by destruct a, t. Qed.

Lemma get_table_insert_other t t' key value a :
  t' ≠ t → get_table t' (table_insert t key value a) = get_table t' a.
Proof. by destruct a, t, t'. Qed.

Lemma table_insert_twice t key v1 v2 a :
  table_insert t key v2 (table_insert t key v1 a) = table_insert t key v2 a.
Proof. destruct a, t; simpl; by rewrite insert_insert_eq. Qed.

(** X5: a fact-table line ([CREDENTIAL], [CASE_STUDY], [SERVICE],
    [TRAINING], [VROI_INPUT], [VROI_OUTPUT], [STAT], [MICROTRAINING] with a
    key, or [SEO_key], [CONTACT_key]) stores its text under its key in its
    own table: looking the key up gives the text, every other key of that
    table and every other table are as before. *)
Theorem fact_table_line_stores :
  ∀ (t : table) (key text rest : string) (n : nat) (a : ROIDSLAST),
    identifier key → quotable text →
    ∃ a', dispatch n (table_line t key text +:+ rest) a = Ok a' ∧
      get_table t a' !! key = Some text ∧
      (∀ k, k ≠ key → get_table t a' !! k = get_table t a !! k) ∧
      (∀ t', t' ≠ t → get_table t' a' = get_table t' a).
Proof.
  intros t key text rest n a Hk Ht. exists (table_insert t key text a).
  split; [by apply dispatch_table_line|]. rewrite get_table_insert.
  split; [apply lookup_insert_eq|]. split.
  - intros k Hne. by apply lookup_insert_ne.
  - intros t' Hne. by apply get_table_insert_other.
Qed.

Lemma fact_table_line_stores_witness :
  ∃ a', dispatch 0 (table_line Seo "TITLE" "Clinical Operations" +:+ EmptyString) empty_ast
        = Ok a' ∧ seo a' !! "TITLE" = Some "Clinical Operations".
Proof.
  destruct (fact_table_line_stores Seo "TITLE" "Clinical Operations" EmptyString 0
              empty_ast) as (a' & Hd & Hl & _); [split; done..|].
  exists a'. split; [exact Hd|exact Hl].
Defined.

(** X6: two fact-table lines with the same key: the later text silently
    replaces the earlier one, and the AST is the one the later line alone
    would have given. *)
Theorem fact_table_last_write_wins :
  ∀ (t : table) (key text1 text2 rest1 rest2 : string) (n m : nat) (a : ROIDSLAST),
    identifier key → quotable text1 → quotable text2 →
    bind (dispatch n (table_line t key text1 +:+ rest1) a)
         (dispatch m (table_line t key text2 +:+ rest2))
    = dispatch m (table_line t key text2 +:+ rest2) a ∧
    bind (dispatch n (table_line t key text1 +:+ rest1) a)
         (dispatch m (table_line t key text2 +:+ rest2))
    = Ok (table_insert t key text2 a).
Proof.
  intros t key text1 text2 rest1 rest2 n m a Hk H1 H2.
  rewrite !dispatch_table_line by done. simpl.
  rewrite dispatch_table_line by done. by rewrite table_insert_twice.
Qed.

Lemma fact_table_last_write_wins_witness :
  bind (dispatch 0 (table_line Stats "Sites" "536 Sites" +:+ EmptyString) empty_ast)
       (dispatch 1 (table_line Stats "Sites" "540 Sites" +:+ EmptyString))
  = Ok (table_insert Stats "Sites" "540 Sites" empty_ast).
Proof.
  apply (fact_table_last_write_wins Stats "Sites" "536 Sites" "540 Sites"
           EmptyString EmptyString 0 1 empty_ast); split; done.
Defined.

(** ** The output intent *)

Lemma valid_output_identifier kind :
  in_list kind valid_outputs = true → identifier kind.
Proof.
  unfold in_list, valid_outputs. cbn [existsb]. intros H.
  repeat (apply orb_prop in H as [H|H];
          [apply String.eqb_eq in H as ->; by split|]).
  done.
Qed.

(** X7: a second OUTPUT line replaces the output intent of the first: after
    two OUTPUT lines with kinds of the closed set, the AST is the one the
    second line alone would have given. *)
Theorem output_last_write_wins :
  ∀ (kind1 kind2 : string) (n m : nat) (a : ROIDSLAST),
    in_list kind1 valid_outputs = true → in_list kind2 valid_outputs = true →
    bind (dispatch n ("OUTPUT " +:+ kind1) a) (dispatch m ("OUTPUT " +:+ kind2))
    = Ok (set_output kind2 a) ∧
    output (set_output kind2 a) = Some kind2.
Proof.
  intros kind1 kind2 n m a H1 H2.
  destruct (valid_output_identifier _ H1) as [Hn1 Hw1].
  destruct (valid_output_identifier _ H2) as [Hn2 Hw2].
  rewrite dispatch_output, H1 by done. cbn [bind].
  rewrite dispatch_output, H2 by done. by destruct a.
Qed.

Lemma output_last_write_wins_witness :
  bind (dispatch 0 ("OUTPUT " +:+ "AGENT") empty_ast) (dispatch 1 ("OUTPUT " +:+ "vROI"))
  = Ok (set_output "vROI" empty_ast).
Proof.
  apply (output_last_write_wins "AGENT" "vROI" 0 1 empty_ast); reflexivity.
Defined.

(** ** Which lines are unknown syntax *)



(** ** Declaration order *)

Lemma startswith_first c p line :
  Str.startswith (String c p) line = true → ∃ rest, line = String c rest.
Proof.
  destruct line as [|d rest]; [done|]. cbn [Str.startswith].
  destruct (Ascii.eqb c d) eqn:Hc; [|done].
  apply Ascii.eqb_eq in Hc as ->. eauto.
Qed.

(** Unfolds the directive methods and settles the goals where the line was
    handed to a directive that does not touch the field in question. *)
Ltac untouched :=
  unfold _parse_persona, _parse_goal, _parse_metric, _parse_rmetric,
    _parse_trigger, _parse_variant, _parse_credential, _parse_case_study,
    _parse_service, _parse_training, _parse_vroi_input, _parse_vroi_output,
    _parse_stat, _parse_microtraining, _parse_seo, _parse_contact,
    _parse_sk_tag, _parse_output, parse_table;
  repeat case_match; intros Hr; simplify_eq;
  match goal with a : ROIDSLAST |- _ => destruct a end;
  try match goal with t : table |- _ => destruct t end;
  simpl; by rewrite ?app_nil_r.

Lemma dispatch_goals n line a a' :
  dispatch n line a = Ok a' →
  goals a' = goals a ++ option_list (goal_of_line line).
Proof.
  unfold dispatch, goal_of_line.
  destruct (Str.startswith "PERSONA" line) eqn:HP.
  { apply startswith_first in HP as [rest ->].
    change (Str.startswith "GOAL" (String "P" rest)) with false. untouched. }
  destruct (Str.startswith "GOAL" line); [|untouched].
  unfold _parse_goal. repeat case_match; intros Hr; simplify_eq.
  by destruct a.
Qed.

Lemma dispatch_metrics n line a a' :
  dispatch n line a = Ok a' →
  metrics a' = metrics a ++ option_list (metric_of_line line).
Proof.
  unfold dispatch, metric_of_line.
  destruct (Str.startswith "PERSONA" line) eqn:HP.
  { apply startswith_first in HP as [rest ->].
    change (Str.startswith "METRIC" (String "P" rest)) with false. untouched. }
  destruct (Str.startswith "GOAL" line) eqn:HG.
  { apply startswith_first in HG as [rest ->].
    change (Str.startswith "METRIC" (String "G" rest)) with false. untouched. }
  destruct (Str.startswith "METRIC" line) eqn:HM; [|cbn [andb]; untouched].
  rewrite (metric_not_rmetric line HM). cbn [negb andb].
  unfold _parse_metric. repeat case_match; intros Hr; simplify_eq.
  by destruct a.
Qed.

Lemma comment_declares_nothing line :
  is_comment line = true → goal_of_line line = None ∧ metric_of_line line = None.
Proof.
  unfold is_comment. intros H. apply orb_prop in H as [H|H];
    apply startswith_first in H as [rest ->]; done.
Qed.

Lemma parse_from_goals_metrics lines : ∀ n a a',
  parse_from n lines a = Ok a' →
  goals a' = goals a ++ omap goal_of_line lines ∧
  metrics a' = metrics a ++ omap metric_of_line lines.
Proof.
  induction lines as [|line rest IH]; intros n a a'; cbn [parse_from omap list_omap].
  { intros [= <-]. by rewrite !app_nil_r. }
  destruct (is_comment line) eqn:Hc.
  { destruct (comment_declares_nothing line Hc) as [-> ->]. apply IH. }
  destruct (dispatch n line a) as [b|x] eqn:Hd; [|done]. cbn [bind].
  intros Hp. destruct (IH _ _ _ Hp) as [-> ->].
  rewrite (dispatch_goals _ _ _ _ Hd), (dispatch_metrics _ _ _ _ Hd).
  rewrite <- !(assoc_L (++)).
  by destruct (goal_of_line line), (metric_of_line line).
Qed.

(** X9: in the AST of a successful parse the goals are the goals of the
    GOAL lines, one per line and in the order of the source, and the
    metrics are those of the METRIC lines likewise; no other directive adds
    to, removes from or reorders either list. *)
Theorem goals_and_metrics_in_source_order :
  ∀ (text : string) (a : ROIDSLAST),
    parse text = Ok a →
    goals a = omap goal_of_line (lines_of text) ∧
    metrics a = omap metric_of_line (lines_of text).
Proof. intros text a Hp. by apply parse_from_goals_metrics in Hp. Qed.

Lemma goals_and_metrics_in_source_order_witness :
  goals Examples.scenario_A_ast = omap goal_of_line (lines_of Examples.scenario_A).
Proof.
  refine (proj1 (goals_and_metrics_in_source_order Examples.scenario_A
                   Examples.scenario_A_ast _)).
  vm_compute. reflexivity.
Defined.

(** ** What follows the number of a METRIC line *)

Lemma metric_match_rest id number rest :
  identifier id →
  number ≠ EmptyString → Str.all Char.digit_or_dot number = true →
  stops Char.digit_or_dot rest →
  Re.rmatch metric_pattern (metric_line id number +:+ rest) = Some [id; number].
Proof.
  intros [Hi Hiw] Hn Hnd Hrest. unfold Re.rmatch, metric_pattern, metric_line.
  assert (∃ pv, Re.run (Re.lit "METRIC" ++ [sp_plus] ++ word_group ++
      [sp_star; Re.Lit ":"; sp_star; Re.Open; Re.Plus Char.digit_or_dot; Re.Close])
      [] None (("METRIC " +:+ id +:+ ": " +:+ number) +:+ rest) None
      = Some ([id; number], pv, rest)) as [pv ->]; [|done].
  eexists.
  replace (("METRIC " +:+ id +:+ ": " +:+ number) +:+ rest)
    with ("METRIC" +:+ (" " +:+ (id +:+ (EmptyString +:+ String ":"
            (" " +:+ (number +:+ rest))))))
    by (simpl; by rewrite !str_app_assoc).
  rewrite run_lit.
  apply (plus_run Char.isspace (word_group ++ _)); [done|done| |].
  { by apply stops_word_space. }
  apply plus_group_run; [done|done|done|].
  apply star_run; [done|done|]. rewrite lit_run.
  apply star_run; [done| |].
  { by apply stops_number_space. }
  apply (plus_group_run Char.digit_or_dot []); [done|done|done|]. reflexivity.
Qed.

(** X10: the number of a METRIC line ends at the first character that is
    neither a digit nor a dot, and what follows on the line is dropped
    without any error: [METRIC A: 1e5] declares the value 1.0 and
    [METRIC A: 5 percent] the value 5.0. *)
Theorem metric_trailing_text_dropped :
  ∀ (id number rest : string) (v : spec_float) (n : nat) (a : ROIDSLAST),
    identifier id → Float.of_string number = Some v →
    stops Char.digit_or_dot rest →
    dispatch n (metric_line id number +:+ rest) a
    = Ok (add_metric (MetricNode.mk id v) a).
Proof.
  intros id number rest v n a Hi Hv Hrest.
  destruct (of_string_shape _ _ Hv) as [Hn Hnd].
  change (dispatch n (metric_line id number +:+ rest) a)
    with (_parse_metric (metric_line id number +:+ rest) a).
  unfold _parse_metric. rewrite metric_match_rest by done. by rewrite Hv.
Qed.

Lemma metric_trailing_text_dropped_witness :
  dispatch 0 (metric_line "A" "1" +:+ "e5") empty_ast
  = Ok (add_metric (MetricNode.mk "A" Float.one) empty_ast).
Proof.
  apply (metric_trailing_text_dropped "A" "1" "e5" Float.one 0 empty_ast).
  - split; done.
  - vm_compute. reflexivity.
  - reflexivity.
Defined.

(** ** Where a WHEN line is cut *)

Lemma span_exists p s :
  ∃ pre post, s = pre +:+ post ∧ Str.all p pre = true ∧ stops p post.
Proof.
  induction s as [|c s (pre & post & -> & Hall & Hstop)].
  - by exists EmptyString, EmptyString.
  - destruct (p c) eqn:Hc.
    + exists (String c pre), post. simpl. by rewrite Hc, Hall.
    + by exists EmptyString, (String c (pre +:+ post)).
Qed.

Lemma rstrip_length s : String.length (Str.rstrip s) ≤ String.length s.
Proof.
  induction s as [|c s IH]; simpl; [done|].
  destruct (Str.rstrip s); [destruct (Char.isspace c)|]; simpl in *; lia.
Qed.

Lemma lstrip_length s : String.length (Str.lstrip s) ≤ String.length s.
Proof.
  induction s as [|c s IH]; simpl; [done|].
  destruct (Char.isspace c); simpl; lia.
Qed.

Lemma trimmed_ends s :
  trimmed s → stops Char.isspace s ∧ Str.rstrip s = s.
Proof.
  intros [Hne Hs]. unfold Str.strip in Hs. destruct s as [|c s]; [done|].
  cbn [Str.lstrip stops] in *. destruct (Char.isspace c) eqn:Hc; [exfalso|done].
  pose proof (rstrip_length (Str.lstrip s)) as H1.
  pose proof (lstrip_length s) as H2.
  rewrite Hs in H1. simpl in H1. lia.
Qed.

Lemma rstrip_suffix a : ∀ b,
  Str.rstrip (a +:+ b) = a +:+ b → Str.rstrip b = b.
Proof.
  induction a as [|c a IH]; intros b; simpl; [done|].
  destruct (Str.rstrip (a +:+ b)) as [|d r] eqn:E.
  - destruct (Char.isspace c); [done|]. intros [= H].
    destruct a; simpl in *; [by subst b|done].
  - intros [= H]. apply IH. by rewrite E.
Qed.

Lemma rstrip_fixed_not_space s :
  Str.rstrip s = s → s ≠ EmptyString → Str.all Char.isspace s = false.
Proof.
  induction s as [|c s IH]; simpl; [done|]. intros H _.
  destruct (Str.rstrip s) as [|d r] eqn:E.
  - destruct (Char.isspace c); [done|done].
  - injection H as H.
    assert (Str.all Char.isspace s = false) as ->
      by (apply IH; [congruence|by rewrite <- H]).
    by rewrite andb_false_r.
Qed.

Lemma first_non_space s :
  Str.all Char.isspace s = false →
  ∃ sp d rest, s = sp +:+ String d rest ∧ Str.all Char.isspace sp = true ∧
    Char.isspace d = false.
Proof.
  intros Hs. destruct (span_exists Char.isspace s) as (pre & post & -> & Hpre & Hpost).
  destruct post as [|d rest].
  - by rewrite str_app_empty_r, Hpre in Hs.
  - by exists pre, d, rest.
Qed.

Lemma contains_suffix w a : ∀ b,
  Str.contains w (a +:+ b) = false → Str.contains w b = false.
Proof.
  induction a as [|c a IH]; intros b; simpl; [done|].
  intros H. apply orb_false_elim in H as [_ H]. by apply IH.
Qed.

Lemma reluctant_here {R} p (k : option ascii → string → option string → option R)
    prev s cur r :
  k prev s cur = Some r → Re.reluctant p k prev s cur = Some r.
Proof. intros H. destruct s; simpl; by rewrite H. Qed.

Lemma reluctant_first {R} p (k : option ascii → string → option string → option R) y x :
  ∀ prev cur,
    Str.all p x = true →
    (∀ x1 x2, x = x1 +:+ x2 → x2 ≠ EmptyString → ∀ pv c, k pv (x2 +:+ y) c = None) →
    Re.reluctant p k prev (x +:+ y) cur
    = Re.reluctant p k (last_seen prev x) y (pushs cur x).
Proof.
  induction x as [|c x IH]; intros prev cur Hall Hk.
  - by rewrite pushs_empty.
  - cbn [String.append]. cbn [Re.reluctant].
    rewrite (Hk EmptyString (String c x)) by done.
    simpl in Hall. apply andb_prop in Hall as [Hc Hall]. rewrite Hc.
    rewrite IH; [by rewrite pushs_push|done|].
    intros x1 x2 -> Hne. by apply (Hk (String c x1) x2).
Qed.

(** [THEN] does not start in [u] and go on into a text that starts with a
    space. *)
Lemma then_straddle u y s :
  u ≠ EmptyString → Str.contains "THEN" u = false →
  "THEN" +:+ s = u +:+ String " " y → False.
Proof.
  intros Hu Hc H.
  destruct u as [|a [|b [|c [|d u]]]]; simpl in H; try done;
    injection H as; subst; discriminate.
Qed.

Lemma then_fails gs pv cur x1 x2 action :
  Str.rstrip (x1 +:+ x2) = x1 +:+ x2 → x2 ≠ EmptyString →
  Str.contains "THEN" (x1 +:+ x2) = false →
  Re.run ([Re.Close; sp_plus] ++ Re.lit "THEN" ++
          [sp_plus; Re.Open; Re.Plus Char.isdot; Re.Close]) gs pv
    (x2 +:+ " THEN " +:+ action) cur = None.
Proof.
  intros Hr Hne Hc.
  destruct (Re.run _ _ _ _ _) as [r|] eqn:E; [exfalso|done].
  change (Re.run (Re.Plus Char.isspace ::
            (Re.lit "THEN" ++ [sp_plus; Re.Open; Re.Plus Char.isdot; Re.Close]))
            (default EmptyString cur :: gs) pv (x2 +:+ " THEN " +:+ action) None
          = Some r) in E.
  apply plus_split in E as (c & pre & post & pv' & Hs & Hcs & Hpre & E).
  apply run_lit_inv in E as (s' & ? & -> & _).
  apply rstrip_suffix in Hr. apply rstrip_fixed_not_space in Hr; [|done].
  apply first_non_space in Hr as (sp & d & u & -> & Hsp & Hd).
  rewrite str_app_assoc in Hs.
  destruct (span_unique Char.isspace (String c pre) sp ("THEN" +:+ s')
              (String d u +:+ " THEN " +:+ action)) as [_ H]; try done.
  { simpl. by rewrite Hcs, Hpre. }
  rewrite <- str_app_assoc in Hc. apply contains_suffix in Hc.
  by apply (then_straddle (String d u) ("THEN " +:+ action) s').
Qed.

Lemma lazy_group_first p re gs prev c x y r :
  p c = true → Str.all p x = true →
  (∀ x1 x2, x = x1 +:+ x2 → x2 ≠ EmptyString →
     ∀ pv cur, Re.run (Re.Close :: re) gs pv (x2 +:+ y) cur = None) →
  Re.run re (String c x :: gs) (last_seen (Some c) x) y None = Some r →
  Re.run ([Re.Open; Re.LazyPlus p; Re.Close] ++ re) gs prev (String c x +:+ y) None
  = Some r.
Proof.
  intros Hc Hx Hk Hr.
  change (Re.one p (Re.reluctant p (Re.run (Re.Close :: re) gs))
            (String c (x +:+ y)) (Some EmptyString) = Some r).
  cbn [Re.one]. rewrite Hc. rewrite reluctant_first by done.
  apply reluctant_here. exact Hr.
Qed.

Lemma trigger_match condition action :
  trimmed condition → Str.all Char.isdot condition = true →
  Str.contains "THEN" condition = false →
  trimmed action → Str.all Char.isdot action = true →
  Re.rmatch trigger_pattern (trigger_line condition action)
  = Some [condition; action].
Proof.
  intros Hc Hcd Hct Ha Had.
  destruct (trimmed_ends _ Hc) as [Hcs Hcr], (trimmed_ends _ Ha) as [Has _].
  destruct Hc as [Hc _], Ha as [Ha _].
  destruct condition as [|c x]; [done|].
  simpl in Hcd. apply andb_prop in Hcd as [Hcc Hcd].
  unfold Re.rmatch, trigger_pattern, trigger_line.
  assert (∃ pv, Re.run (Re.lit "WHEN" ++
      [sp_plus; Re.Open; Re.LazyPlus Char.isdot; Re.Close; sp_plus] ++
      Re.lit "THEN" ++ [sp_plus; Re.Open; Re.Plus Char.isdot; Re.Close])
      [] None ("WHEN " +:+ String c x +:+ " THEN " +:+ action) None
      = Some ([String c x; action], pv, EmptyString)) as [pv ->]; [|done].
  eexists.
  change ("WHEN " +:+ String c x +:+ " THEN " +:+ action)
    with ("WHEN" +:+ (" " +:+ (String c x +:+ " THEN " +:+ action))).
  rewrite run_lit.
  apply (plus_run Char.isspace); [done|done|exact Hcs|].
  apply (lazy_group_first Char.isdot
           (sp_plus :: Re.lit "THEN" ++ [sp_plus; Re.Open; Re.Plus Char.isdot; Re.Close]));
    [done|done| |].
  { intros x1 x2 -> Hne pv' cur.
    by apply (then_fails [] pv' cur (String c x1) x2 action). }
  change (" THEN " +:+ action) with (" " +:+ ("THEN" +:+ (" " +:+ action))).
  apply (plus_run Char.isspace); [done|done|done|].
  rewrite run_lit.
  apply (plus_run Char.isspace); [done|done| |].
  { exact Has. }
  rewrite <- (str_app_empty_r action).
  apply (plus_group_run Char.isdot []); [done|done|done|].
  rewrite str_app_empty_r. reflexivity.
Qed.

(** X21: a WHEN line is cut at its first [THEN]: when the condition holds
    no [THEN] itself, the trigger stored has exactly that condition, and
    the action is all the rest of the line, further [THEN]s included. *)
Theorem trigger_cut_at_first_then :
  ∀ (condition action : string) (n : nat) (a : ROIDSLAST),
    trimmed condition → Str.all Char.isdot condition = true →
    Str.contains "THEN" condition = false →
    trimmed action → Str.all Char.isdot action = true →
    dispatch n (trigger_line condition action) a
    = Ok (add_trigger (TriggerNode.mk condition action) a).
Proof.
  intros condition action n a Hc Hcd Hct Ha Had.
  change (dispatch n (trigger_line condition action) a)
    with (_parse_trigger (trigger_line condition action) a).
  unfold _parse_trigger. rewrite trigger_match by done.
  by rewrite (proj2 Hc), (proj2 Ha).
Qed.

Lemma trigger_cut_at_first_then_witness :
  dispatch 0 (trigger_line "VendorDrift > 0.40" "escalate THEN notify") empty_ast
  = Ok (add_trigger (TriggerNode.mk "VendorDrift > 0.40" "escalate THEN notify")
          empty_ast).
Proof.
  apply (trigger_cut_at_first_then "VendorDrift > 0.40" "escalate THEN notify"
           0 empty_ast); (split; done) || reflexivity.
Defined.

(** ** The dictionaries of metrics and goals *)

Lemma foldl_insert_lookup {A V} (key : A → string) (val : A → V) (l : list A) :
  ∀ (d : gmap string V) n,
    foldl (λ d m, <[key m := val m]> d) d l !! n =
    match last (filter (λ m, key m = n) l) with
    | Some m => Some (val m)
    | None => d !! n
    end.
Proof.
  induction l as [|x l IH] using rev_ind; intros d n; [done|].
  rewrite foldl_app, filter_app. simpl.
  rewrite filter_cons, filter_nil. destruct (decide (key x = n)) as [<-|Hn].
  - by rewrite last_snoc, lookup_insert_eq.
  - rewrite app_nil_r, lookup_insert_ne by done. apply IH.
Qed.

Lemma foldl_insert_dom {A V} (key : A → string) (val : A → V) (l : list A) :
  ∀ (d : gmap string V),
    dom (foldl (λ d m, <[key m := val m]> d) d l) = dom d ∪ list_to_set (key <$> l).
Proof.
  induction l as [|x l IH]; intros d; simpl.
  - by rewrite (right_id_L ∅ (∪)).
  - rewrite IH, dom_insert_L, (comm_L (∪) {[key x]} (dom d)).
    by rewrite (assoc_L (∪)).
Qed.

(** X18: [get_metrics_map] and [get_goals_map] hold, for every name, the
    value of its last declaration, and no entry for a name that is not
    declared; the keys of the metrics dictionary are the metric names the
    validator checks references against. *)
Theorem maps_hold_last_declaration :
  ∀ (a : ROIDSLAST) (n : string),
    get_metrics_map a !! n
      = MetricNode.value <$> last (filter (λ m, MetricNode.name m = n) (metrics a))
    ∧ get_goals_map a !! n
      = GoalNode.value <$> last (filter (λ g, GoalNode.name g = n) (goals a))
    ∧ dom (get_metrics_map a) = metric_name_set a.
Proof.
  intros a n. unfold get_metrics_map, get_goals_map, metric_name_set.
  rewrite !foldl_insert_lookup, foldl_insert_dom, !lookup_empty, dom_empty_L.
  split_and!; [by destruct (last _)..|by rewrite (left_id_L ∅ (∪))].
Qed.

(** * Further properties of the validator *)

(** ** The two lists only grow *)

Lemma grows_ret {A} (x : A) : grows (ret x).
Proof. intros s. exists [], []. by rewrite !app_nil_r. Qed.

Lemma grows_raise {A} e : grows (@raise A e).
Proof. intros s. exists [], []. by rewrite !app_nil_r. Qed.

Lemma grows_get_ast : grows get_ast.
Proof. intros s. exists [], []. by rewrite !app_nil_r. Qed.

Lemma grows_errors_append msg : grows (errors_append msg).
Proof. intros s. exists [msg], []. by rewrite app_nil_r. Qed.

Lemma grows_warnings_append msg : grows (warnings_append msg).
Proof. intros s. exists [], [msg]. by rewrite app_nil_r. Qed.

Lemma grows_mbind {A B} (m : M A) (f : A → M B) :
  grows m → (∀ x, grows (f x)) → grows (mbind m f).
Proof.
  intros Hm Hf s. unfold mbind. destruct (Hm s) as (es & ws & He & Hw).
  destruct (m s) as [s' [x|e]]; simpl in *; [|eauto].
  destruct (Hf x s') as (es' & ws' & He' & Hw').
  exists (es ++ es'), (ws ++ ws').
  by rewrite He', Hw', He, Hw, <- !(assoc_L (++)).
Qed.

Lemma grows_when c body : grows body → grows (when c body).
Proof. destruct c; [done|]. intros _. apply grows_ret. Qed.

Lemma grows_first_char name : grows (first_char name).
Proof. unfold first_char. destruct (Str.head name); [apply grows_ret|apply grows_raise]. Qed.

Lemma grows_for_each {A} (l : list A) body :
  (∀ x, grows (body x)) → grows (for_each l body).
Proof.
  intros Hb. induction l as [|x l IH]; simpl; [apply grows_ret|].
  apply grows_mbind; auto.
Qed.

#[global] Hint Resolve grows_ret grows_raise grows_get_ast grows_errors_append
  grows_warnings_append grows_when grows_first_char : grows.
#[global] Hint Extern 2 (grows (mbind _ _)) => apply grows_mbind; [|intros ?] : grows.
#[global] Hint Extern 2 (grows (for_each _ _)) => apply grows_for_each; intros ? : grows.
#[global] Hint Extern 5 (grows (if ?c then _ else _)) => destruct c : grows.
#[global] Hint Extern 5 (grows (match ?c with _ => _ end)) => destruct c : grows.

Lemma grows_goals_loop l : ∀ names, grows (goals_loop names l).
Proof. induction l as [|g l IH]; intros names; simpl; auto 20 with grows. Qed.

Lemma grows_metrics_loop float_str l : ∀ names, grows (metrics_loop float_str names l).
Proof. induction l as [|g l IH]; intros names; simpl; auto 20 with grows. Qed.

Lemma grows_rmetric_body mn rn r : grows (rmetric_body mn rn r).
Proof. unfold rmetric_body, undefined_refs. auto 20 with grows. Qed.

Lemma grows_rmetrics_loop mn l : ∀ rn, grows (rmetrics_loop mn rn l).
Proof.
  induction l as [|r l IH]; intros rn; simpl; [auto with grows|].
  apply grows_mbind; [apply grows_rmetric_body|auto].
Qed.

Lemma grows_trigger_body mn t : grows (trigger_body mn t).
Proof.
  unfold trigger_body.
  destruct (Re.rmatch _ _) as [[|? [|? [|? [|? ?]]]]|]; auto 20 with grows.
Qed.

#[global] Hint Resolve grows_goals_loop grows_metrics_loop grows_rmetrics_loop
  grows_trigger_body : grows.

Lemma grows_validate_mandatory_fields : grows _validate_mandatory_fields.
Proof. unfold _validate_mandatory_fields. auto 20 with grows. Qed.

Lemma grows_validate_persona : grows _validate_persona.
Proof. unfold _validate_persona. auto 20 with grows. Qed.

Lemma grows_validate_goals : grows _validate_goals.
Proof. unfold _validate_goals. auto 20 with grows. Qed.

Lemma grows_validate_metrics float_str : grows (_validate_metrics float_str).
Proof. unfold _validate_metrics. auto 20 with grows. Qed.

Lemma grows_validate_rmetrics : grows _validate_rmetrics.
Proof. unfold _validate_rmetrics. auto 20 with grows. Qed.

Lemma grows_validate_triggers : grows _validate_triggers.
Proof. unfold _validate_triggers. auto 20 with grows. Qed.

Lemma grows_validate_variants : grows _validate_variants.
Proof. unfold _validate_variants. auto 20 with grows. Qed.

Lemma grows_validate_output : grows _validate_output.
Proof. unfold _validate_output. auto 30 with grows. Qed.

Lemma grows_validate_identifier_references : grows _validate_identifier_references.
Proof. unfold _validate_identifier_references. auto 20 with grows. Qed.

#[global] Hint Resolve grows_validate_mandatory_fields grows_validate_persona
  grows_validate_goals grows_validate_metrics grows_validate_rmetrics
  grows_validate_triggers grows_validate_variants grows_validate_output
  grows_validate_identifier_references : grows.

(** After [m], a body that only appends leaves what [m] recorded in place. *)
Lemma grows_after {A B} (m : M A) (f : A → M B) s :
  (∀ x, grows (f x)) →
  ∃ es ws, errors (mbind m f s).1 = errors (m s).1 ++ es ∧
           warnings (mbind m f s).1 = warnings (m s).1 ++ ws.
Proof.
  intros Hf. unfold mbind. destruct (m s) as [s' [x|e]]; simpl.
  - apply Hf.
  - exists [], []. by rewrite !app_nil_r.
Qed.

Lemma grows_report : grows (λ s, (s, Ok (Report.mk (errors s) (warnings s)))).
Proof. intros s. exists [], []. by rewrite !app_nil_r. Qed.

(** X11: [validate] only appends: whatever the AST, and whether the call
    returns or raises, the errors and warnings the validator held before the
    call are still at the front of its lists, unchanged and in order (so a
    second call on the same validator repeats every finding after the first
    ones). *)
Theorem validate_only_appends :
  ∀ (float_str : spec_float → string) (s : self),
    ∃ es ws,
      errors (validate float_str s).1 = errors s ++ es ∧
      warnings (validate float_str s).1 = warnings s ++ ws.
Proof.
  intros float_str. change (grows (validate float_str)). unfold validate.
  repeat (apply grows_mbind; [auto with grows|intros _]). apply grows_report.
Qed.

(** ** Mandatory fields *)

Lemma mandatory_fields_errors s :
  errors (_validate_mandatory_fields s).1 =
  errors s ++
  (if is_nil (goals (ast s)) then ["At least 1 GOAL is required"] else []) ++
  (if is_nil (metrics (ast s)) then ["At least 1 METRIC is required"] else []) ++
  (if has_output (ast s) then [] else ["OUTPUT declaration is required"]).
Proof.
  destruct s as [a es ws]. unfold _validate_mandatory_fields, mbind, get_ast, when.
  cbn [ast errors warnings fst snd].
  destruct (is_nil (goals a)), (is_nil (metrics a)), (has_output a),
    (bool_decide (is_Some (persona a)));
    cbn [negb errors_append warnings_append ret ast errors warnings fst snd];
    by rewrite <- ?(assoc_L (++)), ?app_nil_r.
Qed.

Lemma not_valid_if_error msg s : msg ∈ errors s → is_valid s = false.
Proof. unfold is_valid. by destruct (errors s); [intros ?%elem_of_nil|]. Qed.

(** X12: a document without any goal, without any metric or without an
    output intent is never accepted: whatever else the AST holds, and
    whether the later checks return or raise, the matching [... is
    required] error is in the error list and [is_valid] is false. *)
Theorem missing_mandatory_field_rejected :
  ∀ (float_str : spec_float → string) (s : self),
    (goals (ast s) = [] →
       "At least 1 GOAL is required" ∈ errors (validate float_str s).1) ∧
    (metrics (ast s) = [] →
       "At least 1 METRIC is required" ∈ errors (validate float_str s).1) ∧
    (has_output (ast s) = false →
       "OUTPUT declaration is required" ∈ errors (validate float_str s).1) ∧
    (goals (ast s) = [] ∨ metrics (ast s) = [] ∨ has_output (ast s) = false →
       is_valid (validate float_str s).1 = false).
Proof.
  intros float_str s. unfold validate.
  match goal with
  | |- context [mbind _validate_mandatory_fields ?f] =>
      destruct (grows_after _validate_mandatory_fields f s) as (es & ws & He & _)
  end.
  { intros _. repeat (apply grows_mbind; [auto with grows|intros _]).
    apply grows_report. }
  rewrite He, mandatory_fields_errors.
  assert (goals (ast s) = [] → "At least 1 GOAL is required" ∈
    ((errors s ++
      (if is_nil (goals (ast s)) then ["At least 1 GOAL is required"] else []) ++
      (if is_nil (metrics (ast s)) then ["At least 1 METRIC is required"] else []) ++
      (if has_output (ast s) then [] else ["OUTPUT declaration is required"])) ++ es))
    as HG.
  { intros ->. cbn [is_nil]. set_solver. }
  assert (metrics (ast s) = [] → "At least 1 METRIC is required" ∈
    ((errors s ++
      (if is_nil (goals (ast s)) then ["At least 1 GOAL is required"] else []) ++
      (if is_nil (metrics (ast s)) then ["At least 1 METRIC is required"] else []) ++
      (if has_output (ast s) then [] else ["OUTPUT declaration is required"])) ++ es))
    as HM.
  { intros ->. cbn [is_nil]. set_solver. }
  assert (has_output (ast s) = false → "OUTPUT declaration is required" ∈
    ((errors s ++
      (if is_nil (goals (ast s)) then ["At least 1 GOAL is required"] else []) ++
      (if is_nil (metrics (ast s)) then ["At least 1 METRIC is required"] else []) ++
      (if has_output (ast s) then [] else ["OUTPUT declaration is required"])) ++ es))
    as HO.
  { intros ->. set_solver. }
  repeat split; try done.
  intros [H|[H|H]]; unfold is_valid; rewrite He, mandatory_fields_errors;
    [apply HG in H|apply HM in H|apply HO in H];
    apply (not_valid_if_error _ (mkSelf (ast s) _ (warnings s))) in H; exact H.
Qed.

Lemma missing_mandatory_field_rejected_witness :
  is_valid (validate (λ _, "float") (init empty_ast)).1 = false.
Proof.
  apply (missing_mandatory_field_rejected (λ _, "float") (init empty_ast)).
  left. reflexivity.
Defined.

(** ** Duplicate names *)

Lemma metrics_loop_errors float_str l : ∀ seen s,
  Forall (λ m, nonempty (MetricNode.name m)) l →
  errors (metrics_loop float_str seen l s).1 =
  errors s ++ (duplicate_metric_message <$> duplicates seen (MetricNode.name <$> l)).
Proof.
  induction l as [|m l IH]; intros seen [a es ws] Hl.
  { simpl. by rewrite app_nil_r. }
  apply Forall_cons_1 in Hl as [Hm Hl]. destruct m as [name value].
  cbn [MetricNode.name] in Hm. destruct name as [|c name]; [done|].
  cbn [metrics_loop fmap list_fmap duplicates MetricNode.name MetricNode.value].
  unfold mbind, when, first_char, ret. cbn [Str.head].
  destruct (bool_decide (String c name ∈ seen));
    cbn [errors_append fst snd ast errors warnings];
    destruct (negb (Char.isupper c));
    cbn [warnings_append fst snd ast errors warnings];
    destruct (Float.ltb value Float.zero);
    cbn [warnings_append fst snd ast errors warnings];
    destruct (Float.ltb Float.one value && Str.contains "Risk" (String c name));
    cbn [warnings_append fst snd ast errors warnings];
    rewrite IH by done; cbn [errors];
    by rewrite ?fmap_app, <- ?(assoc_L (++)).
Qed.

Lemma occurrences_cons x y l :
  occurrences x (y :: l) = (if decide (y = x) then 1 else 0) + occurrences x l.
Proof. unfold occurrences. rewrite filter_cons. by destruct (decide (y = x)). Qed.

Lemma occurrences_fmap_inj (f : string → string) x l :
  (∀ a b, f a = f b → a = b) → occurrences (f x) (f <$> l) = occurrences x l.
Proof.
  intros Hf. induction l as [|y l IH]; [done|].
  rewrite fmap_cons, !occurrences_cons, IH.
  destruct (decide (y = x)) as [->|Hne].
  - by rewrite decide_True.
  - rewrite decide_False; [done|]. intros H. by apply Hf in H.
Qed.

(** A name occurs among the duplicates once per occurrence, the first
    occurrence left out when the name was not seen before. *)
Lemma occurrences_duplicates x names : ∀ seen,
  occurrences x (duplicates seen names) =
  if bool_decide (x ∈ seen) then occurrences x names else occurrences x names - 1.
Proof.
  induction names as [|y names IH]; intros seen.
  { by destruct (bool_decide _). }
  cbn [duplicates]. rewrite occurrences_app, IH, occurrences_cons.
  destruct (decide (y = x)) as [->|Hne].
  - rewrite (bool_decide_eq_true_2 (x ∈ seen ∪ {[x]})) by set_solver.
    destruct (bool_decide (x ∈ seen)).
    + rewrite occurrences_cons, decide_True by done. done.
    + cbn. lia.
  - assert (occurrences x (if bool_decide (y ∈ seen) then [y] else []) = 0) as ->.
    { destruct (bool_decide _); [|done]. by rewrite occurrences_cons, decide_False. }
    destruct (bool_decide (x ∈ seen)) eqn:Hs.
    + apply bool_decide_eq_true_1 in Hs.
      by rewrite (bool_decide_eq_true_2 (x ∈ seen ∪ {[y]})) by set_solver.
    + apply bool_decide_eq_false_1 in Hs.
      by rewrite (bool_decide_eq_false_2 (x ∈ seen ∪ {[y]})) by set_solver.
Qed.

(** X13: a metric name declared k times (k at least 1) yields exactly k - 1
    [Duplicate METRIC name] errors, whatever the other metrics are: one
    error for each declaration after the first. *)
Theorem duplicate_metric_errors :
  ∀ (float_str : spec_float → string) (s : self) (name : string),
    Forall (λ m, MetricNode.name m ≠ EmptyString) (metrics (ast s)) →
    occurrences (duplicate_metric_message name) (errors (_validate_metrics float_str s).1)
    = occurrences (duplicate_metric_message name) (errors s)
      + (occurrences name (MetricNode.name <$> metrics (ast s)) - 1).
Proof.
  intros float_str s name Hl. unfold _validate_metrics, mbind, get_ast.
  cbn [fst snd]. rewrite metrics_loop_errors by done.
  rewrite occurrences_app, occurrences_fmap_inj, occurrences_duplicates.
  - by rewrite bool_decide_eq_false_2 by set_solver.
  - intros a b H. by apply str_app_inv_head in H.
Qed.

Lemma duplicate_metric_errors_witness :
  occurrences (duplicate_metric_message "Risk")
    (errors (_validate_metrics (λ _, "float")
       (init (add_metric (MetricNode.mk "Risk" Float.one)
               (add_metric (MetricNode.mk "Drift" Float.zero)
                 (add_metric (MetricNode.mk "Risk" Float.zero) empty_ast))))).1)
  = 0 + (2 - 1).
Proof.
  apply (duplicate_metric_errors (λ _, "float")
    (init (add_metric (MetricNode.mk "Risk" Float.one)
            (add_metric (MetricNode.mk "Drift" Float.zero)
              (add_metric (MetricNode.mk "Risk" Float.zero) empty_ast)))) "Risk").
  repeat constructor; done.
Defined.

(** ** When [validate] raises *)

Lemma raises_ret {A} (x : A) : raises_index_only (ret x).
Proof. by intros s x'. Qed.

Lemma raises_get_ast : raises_index_only get_ast.
Proof. by intros s x'. Qed.

Lemma raises_errors_append msg : raises_index_only (errors_append msg).
Proof. by intros s x'. Qed.

Lemma raises_warnings_append msg : raises_index_only (warnings_append msg).
Proof. by intros s x'. Qed.

Lemma raises_first_char name : raises_index_only (first_char name).
Proof.
  intros s x. unfold first_char, index_error.
  destruct (Str.head name); simpl; [done|by intros [= <-]].
Qed.

Lemma raises_mbind {A B} (m : M A) (f : A → M B) :
  raises_index_only m → (∀ x, raises_index_only (f x)) →
  raises_index_only (mbind m f).
Proof.
  intros Hm Hf s x. unfold mbind. specialize (Hm s).
  destruct (m s) as [s' [y|e]]; simpl in *; [apply Hf|].
  intros [= <-]. by apply Hm.
Qed.

Lemma raises_when c body : raises_index_only body → raises_index_only (when c body).
Proof. destruct c; [done|]. intros _. apply raises_ret. Qed.

Lemma raises_for_each {A} (l : list A) body :
  (∀ x, raises_index_only (body x)) → raises_index_only (for_each l body).
Proof.
  intros Hb. induction l as [|x l IH]; simpl; [apply raises_ret|].
  apply raises_mbind; auto.
Qed.

#[global] Hint Resolve raises_ret raises_get_ast raises_errors_append
  raises_warnings_append raises_when raises_first_char : raises.
#[global] Hint Extern 2 (raises_index_only (mbind _ _)) =>
  apply raises_mbind; [|intros ?] : raises.
#[global] Hint Extern 2 (raises_index_only (for_each _ _)) =>
  apply raises_for_each; intros ? : raises.
#[global] Hint Extern 5 (raises_index_only (if ?c then _ else _)) => destruct c : raises.
#[global] Hint Extern 5 (raises_index_only (match ?c with _ => _ end)) =>
  destruct c : raises.

Lemma raises_goals_loop l : ∀ names, raises_index_only (goals_loop names l).
Proof. induction l as [|g l IH]; intros names; simpl; auto 20 with raises. Qed.

Lemma raises_metrics_loop float_str l :
  ∀ names, raises_index_only (metrics_loop float_str names l).
Proof. induction l as [|g l IH]; intros names; simpl; auto 20 with raises. Qed.

Lemma raises_rmetrics_loop mn l : ∀ rn, raises_index_only (rmetrics_loop mn rn l).
Proof.
  induction l as [|r l IH]; intros rn; simpl; [auto with raises|].
  apply raises_mbind; [|auto]. unfold rmetric_body, undefined_refs.
  auto 20 with raises.
Qed.

Lemma raises_trigger_body mn t : raises_index_only (trigger_body mn t).
Proof.
  unfold trigger_body.
  destruct (Re.rmatch _ _) as [[|? [|? [|? [|? ?]]]]|]; auto 20 with raises.
Qed.

#[global] Hint Resolve raises_goals_loop raises_metrics_loop raises_rmetrics_loop
  raises_trigger_body : raises.

Lemma raises_validate float_str : raises_index_only (validate float_str).
Proof.
  unfold validate, _validate_mandatory_fields, _validate_persona, _validate_goals,
    _validate_metrics, _validate_rmetrics, _validate_triggers, _validate_variants,
    _validate_output, _validate_identifier_references.
  repeat (apply raises_mbind; [auto 30 with raises|intros _]). by intros s x.
Qed.

Lemma mbind_ok_inv {A B} (m : M A) (f : A → M B) s x :
  (mbind m f s).2 = Ok x → ∃ y, (m s).2 = Ok y ∧ (f y (m s).1).2 = Ok x.
Proof. unfold mbind. destruct (m s) as [s' [y|e]]; simpl; [eauto|done]. Qed.

Lemma ok_implies_here P {A B} (m : M A) (f : A → M B) :
  ok_implies P m → ok_implies P (mbind m f).
Proof. intros Hm s x H. apply mbind_ok_inv in H as (y & Hy & _). exact (Hm _ _ Hy). Qed.

Lemma ok_implies_later P {A B} (m : M A) (f : A → M B) :
  frame m → (∀ y, ok_implies P (f y)) → ok_implies P (mbind m f).
Proof.
  intros Hm Hf s x H. apply mbind_ok_inv in H as (y & _ & Hy).
  rewrite <- (Hm s). exact (Hf y _ _ Hy).
Qed.

Lemma goals_loop_ok l : ∀ names s x,
  (goals_loop names l s).2 = Ok x → Forall (λ g, GoalNode.name g ≠ EmptyString) l.
Proof.
  induction l as [|g l IH]; intros names s x; [done|]. cbn [goals_loop]. intros H.
  apply mbind_ok_inv in H as (? & _ & H). apply mbind_ok_inv in H as (c & Hc & H).
  do 3 apply mbind_ok_inv in H as (? & _ & H).
  constructor; [|by eapply IH].
  unfold first_char in Hc. by destruct (GoalNode.name g).
Qed.

Lemma metrics_loop_ok float_str l : ∀ names s x,
  (metrics_loop float_str names l s).2 = Ok x →
  Forall (λ m, MetricNode.name m ≠ EmptyString) l.
Proof.
  induction l as [|g l IH]; intros names s x; [done|]. cbn [metrics_loop]. intros H.
  apply mbind_ok_inv in H as (? & _ & H). apply mbind_ok_inv in H as (c & Hc & H).
  do 3 apply mbind_ok_inv in H as (? & _ & H).
  constructor; [|by eapply IH].
  unfold first_char in Hc. by destruct (MetricNode.name g).
Qed.

Lemma rmetrics_loop_ok mn l : ∀ rn s x,
  (rmetrics_loop mn rn l s).2 = Ok x →
  Forall (λ r, RMetricNode.name r ≠ EmptyString) l.
Proof.
  induction l as [|g l IH]; intros rn s x; [done|]. cbn [rmetrics_loop]. intros H.
  apply mbind_ok_inv in H as (rn' & Hb & H).
  constructor; [|by eapply IH].
  unfold rmetric_body in Hb.
  apply mbind_ok_inv in Hb as (? & _ & Hb). apply mbind_ok_inv in Hb as (c & Hc & _).
  unfold first_char in Hc. by destruct (RMetricNode.name g).
Qed.

Lemma validate_ok_named float_str : ok_implies all_named (validate float_str).
Proof.
  intros s x H. unfold validate in H.
  apply mbind_ok_inv in H as (? & _ & H).
  pose proof (frame_validate_mandatory_fields s) as F1.
  apply mbind_ok_inv in H as (? & _ & H).
  pose proof (frame_validate_persona (_validate_mandatory_fields s).1) as F2.
  set (s2 := (_validate_persona (_validate_mandatory_fields s).1).1) in *.
  apply mbind_ok_inv in H as (? & HG & H).
  pose proof (frame_validate_goals s2) as F3.
  set (s3 := (_validate_goals s2).1) in *.
  apply mbind_ok_inv in H as (? & HM & H).
  pose proof (frame_validate_metrics float_str s3) as F4.
  set (s4 := (_validate_metrics float_str s3).1) in *.
  apply mbind_ok_inv in H as (? & HR & _).
  assert (ast s2 = ast s) as E2 by congruence.
  assert (ast s3 = ast s) as E3 by congruence.
  assert (ast s4 = ast s) as E4 by congruence.
  unfold _validate_goals in HG. apply mbind_ok_inv in HG as (a2 & Ha2 & HG).
  unfold _validate_metrics in HM. apply mbind_ok_inv in HM as (a3 & Ha3 & HM).
  unfold _validate_rmetrics in HR. apply mbind_ok_inv in HR as (a4 & Ha4 & HR).
  cbn in Ha2, Ha3, Ha4. simplify_eq.
  apply goals_loop_ok in HG. apply metrics_loop_ok in HM. apply rmetrics_loop_ok in HR.
  cbn [get_ast fst] in *. rewrite E2 in HG. rewrite E3 in HM. rewrite E4 in HR.
  done.
Qed.

Lemma named_reports float_str a : all_named a → reports a (validate float_str).
Proof.
  intros (HG & HM & HR). unfold validate.
  apply reports_mbind; [apply returns_validate_mandatory_fields|].
  apply reports_mbind; [apply returns_validate_persona|].
  apply reports_mbind; [by apply returns_get_ast, returns_goals_loop|].
  apply reports_mbind; [by apply returns_get_ast, returns_metrics_loop|].
  apply reports_mbind; [by apply returns_get_ast, returns_rmetrics_loop|].
  apply reports_mbind; [apply returns_validate_triggers|].
  apply reports_mbind; [apply returns_validate_variants|].
  apply reports_mbind; [apply returns_validate_output|].
  apply reports_mbind; [apply returns_validate_identifier_references|].
  intros [a' es ws] Hs. simpl in *. subst a'. by exists es, ws.
Qed.

(** X14: on an AST built by hand, [validate] returns its report exactly when
    every goal, metric and derived metric has a non-empty name; when one of
    them has an empty name the call raises [IndexError] (from [name[0]])
    instead of reporting an error, and it raises nothing else. *)
Theorem validate_raises_iff_empty_name :
  ∀ (float_str : spec_float → string) (s : self),
    (all_named (ast s) →
       ∃ es ws, validate float_str s
                = (mkSelf (ast s) es ws, Ok (Report.mk es ws))) ∧
    (¬ all_named (ast s) → (validate float_str s).2 = Raise index_error) ∧
    (∀ x, (validate float_str s).2 = Raise x → x = index_error).
Proof.
  intros float_str s. split; [|split].
  - intros Hn. by apply (named_reports float_str (ast s) Hn s).
  - intros Hn. destruct (validate float_str s).2 as [rep|x] eqn:Hv.
    + destruct Hn. by apply (validate_ok_named float_str s rep).
    + by rewrite (raises_validate float_str s x Hv).
  - apply raises_validate.
Qed.

Lemma validate_raises_iff_empty_name_witness :
  (validate (λ _, "float")
     (init (add_goal (GoalNode.mk EmptyString "Save $1M") empty_ast))).2
  = Raise index_error.
Proof.
  apply (validate_raises_iff_empty_name (λ _, "float")
           (init (add_goal (GoalNode.mk EmptyString "Save $1M") empty_ast))).
  intros (HG & _ & _). apply Forall_cons_1 in HG as [HG _]. by apply HG.
Defined.

(** ** Checks that cannot add an error *)

Lemma validate_output_appends a :
  (∀ o, output a = Some o → in_list o valid_outputs = true) →
  appends a (λ _, False) _validate_output.
Proof.
  intros Ha. apply appends_get_ast.
  destruct (negb (has_output a)) eqn:Ho; [apply appends_ret|].
  apply appends_mbind.
  { apply appends_when. intros Hc. exfalso.
    unfold has_output in Ho. destruct (output a) as [o|]; [|done].
    change (negb (in_list o valid_outputs) = true) in Hc.
    by rewrite (Ha o eq_refl) in Hc. }
  intros _. apply appends_mbind.
  { apply appends_when. intros _. apply appends_mbind.
    - apply appends_when. intros _. apply appends_warnings_append.
    - intros _. apply appends_when. intros _. apply appends_warnings_append. }
  intros _. apply appends_mbind.
  { do 2 (apply appends_when; intros _). apply appends_warnings_append. }
  intros _. do 2 (apply appends_when; intros _). apply appends_warnings_append.
Qed.

(** X15: after a successful parse the output check of the validator never
    adds an error: the parser stores kinds of the closed set only, so the
    error [Invalid OUTPUT type] is out of reach and the check can only
    warn. *)
Theorem output_check_silent_after_parse :
  ∀ (text : string) (a : ROIDSLAST) (s : self),
    parse text = Ok a → ast s = a →
    errors (_validate_output s).1 = errors s.
Proof.
  intros text a s Hp Hs. apply (appends_nothing a); [|done].
  apply validate_output_appends. apply (parsed_output a (parse_parsed text a Hp)).
Qed.

Lemma output_check_silent_after_parse_witness :
  errors (_validate_output (init Examples.scenario_A_ast)).1 = [].
Proof.
  apply (output_check_silent_after_parse Examples.scenario_A Examples.scenario_A_ast
           (init Examples.scenario_A_ast)); [vm_compute|]; reflexivity.
Defined.

(** X16: the closing sweep over the identifiers of the derived metrics,
    [_validate_identifier_references], never adds an error, whatever the
    AST: what it finds it reports as warnings only. *)
Theorem identifier_sweep_adds_no_error :
  ∀ s : self, errors (_validate_identifier_references s).1 = errors s.
Proof.
  intros s. apply (appends_nothing (ast s)); [|done].
  apply appends_get_ast.
  apply (appends_for_each _ _ (λ _, True)); [|by apply Forall_true].
  intros r _. apply (appends_for_each _ _ (λ _, True)); [|by apply Forall_true].
  intros token _. do 2 (apply appends_when; intros _). apply appends_warnings_append.
Qed.

(** ** Self reference *)

Lemma occurrences_none x l : Forall (λ y, y ≠ x) l → occurrences x l = 0.
Proof.
  induction 1 as [|y l Hy Hl IH]; [done|].
  by rewrite occurrences_cons, decide_False, IH.
Qed.

Lemma circular_not_undefined name l :
  occurrences (circular_message name) (undefined_message name <$> l) = 0.
Proof.
  apply occurrences_none, Forall_fmap, Forall_true. intros token. simpl.
  unfold undefined_message, circular_message. intros H.
  do 2 apply str_app_inv_head in H. discriminate.
Qed.

Lemma own_name_defined name mn rn tokens :
  occurrences (undefined_message name name)
    (undefined_message name <$> filter (undefined mn (rn ∪ {[name]})) tokens) = 0.
Proof.
  rewrite occurrences_fmap_inj by apply undefined_message_inj.
  apply occurrences_none, Forall_forall. intros y Hy ->.
  apply list_elem_of_filter in Hy as [[_ Hy] _]. apply Hy. set_solver.
Qed.

(** X17: the circular-reference check is textual: while a derived metric is
    checked, the error [contains circular reference to itself] is added
    exactly when the name occurs somewhere in the text of the expression,
    be it inside a longer identifier (the metric [Risk] with the expression
    [RiskScore * 2]); and the own name of the derived metric is never
    reported as an undefined reference. *)
Theorem circular_reference_is_textual :
  ∀ (mn rn : gset string) (r : RMetricNode.t) (s : self),
    RMetricNode.name r ≠ EmptyString →
    occurrences (circular_message (RMetricNode.name r)) (errors (rmetric_body mn rn r s).1)
    = occurrences (circular_message (RMetricNode.name r)) (errors s)
      + (if Str.contains (RMetricNode.name r) (RMetricNode.expr r) then 1 else 0) ∧
    occurrences (undefined_message (RMetricNode.name r) (RMetricNode.name r))
      (errors (rmetric_body mn rn r s).1)
    = occurrences (undefined_message (RMetricNode.name r) (RMetricNode.name r))
        (errors s).
Proof.
  intros mn rn r s Hn. rewrite rmetric_body_errors by done.
  rewrite !occurrences_app, circular_not_undefined, own_name_defined.
  assert (∀ x, occurrences x [] = 0) as Hnil by done.
  split.
  - assert (occurrences (circular_message (RMetricNode.name r))
              [circular_message (RMetricNode.name r)] = 1) as Hself.
    { by rewrite occurrences_cons, decide_True. }
    assert (occurrences (circular_message (RMetricNode.name r))
              [duplicate_rmetric_message (RMetricNode.name r)] = 0) as Hdup.
    { rewrite occurrences_cons, decide_False; [done|discriminate]. }
    destruct (bool_decide _), (Str.contains _ _); rewrite ?Hnil, ?Hself, ?Hdup; lia.
  - destruct (bool_decide _), (Str.contains _ _);
      rewrite ?occurrences_duplicate, ?occurrences_circular, ?Hnil; lia.
Qed.

Lemma circular_reference_is_textual_witness :
  occurrences (circular_message "Risk")
    (errors (rmetric_body {["RiskScore"]} ∅ (RMetricNode.mk "Risk" "RiskScore * 2")
               (init empty_ast)).1)
  = 0 + 1.
Proof.
  refine (proj1 (circular_reference_is_textual {["RiskScore"]} ∅
                   (RMetricNode.mk "Risk" "RiskScore * 2") (init empty_ast) _)).
  done.
Defined.

(** ** The trigger check *)

Lemma space_not_word c : Char.isspace c = true → Char.isword c = false.
Proof. destruct c as [[] [] [] [] [] [] [] []]; vm_compute; intros H; congruence. Qed.
Lemma comparator_not_word c : comparator_char c = true → Char.isword c = false.
Proof. destruct c as [[] [] [] [] [] [] [] []]; vm_compute; intros H; congruence. Qed.
Lemma comparator_not_space c : comparator_char c = true → Char.isspace c = false.
Proof. destruct c as [[] [] [] [] [] [] [] []]; vm_compute; intros H; congruence. Qed.
Lemma space_not_comparator c : Char.isspace c = true → comparator_char c = false.
Proof. destruct c as [[] [] [] [] [] [] [] []]; vm_compute; intros H; congruence. Qed.
Lemma digit_or_dot_not_comparator c :
  Char.digit_or_dot c = true → comparator_char c = false.
Proof. destruct c as [[] [] [] [] [] [] [] []]; vm_compute; intros H; congruence. Qed.

Lemma stops_span p q a b :
  (∀ c, q c = true → p c = false) → Str.all q a = true →
  (a = EmptyString → stops p b) → stops p (a +:+ b).
Proof.
  intros Hqp Ha Hb. destruct a as [|c a]; simpl in *; [by apply Hb|].
  apply andb_prop in Ha as [Hc _]. by apply Hqp.
Qed.

Lemma condition_match id ws1 cmp ws2 num rest :
  id ≠ EmptyString → Str.all Char.isword id = true →
  Str.all Char.isspace ws1 = true →
  cmp ≠ EmptyString → Str.all comparator_char cmp = true →
  Str.all Char.isspace ws2 = true →
  num ≠ EmptyString → Str.all Char.digit_or_dot num = true →
  ∃ threshold,
    Re.rmatch condition_pattern (id +:+ ws1 +:+ cmp +:+ ws2 +:+ num +:+ rest)
    = Some [id; cmp; threshold].
Proof.
  intros Hid Hidw Hws1 Hcmp Hcmpc Hws2 Hnum Hnumd.
  destruct (span_exists Char.digit_or_dot rest) as (pre & post & -> & Hpre & Hpost).
  exists (num +:+ pre). unfold Re.rmatch.
  assert (∃ pv, Re.run condition_pattern [] None
      (id +:+ ws1 +:+ cmp +:+ ws2 +:+ (num +:+ pre) +:+ post) None
      = Some ([id; cmp; num +:+ pre], pv, post)) as [pv Hr].
  { eexists. unfold condition_pattern.
    change [Re.Open; Re.Plus Char.isword; Re.Close; Re.Star Char.isspace;
            Re.Open; Re.Plus ?c; Re.Close; Re.Star Char.isspace;
            Re.Open; Re.Plus ?d; Re.Close]
      with ([Re.Open; Re.Plus Char.isword; Re.Close] ++
            Re.Star Char.isspace ::
            ([Re.Open; Re.Plus comparator_char; Re.Close] ++
             Re.Star Char.isspace ::
             ([Re.Open; Re.Plus d; Re.Close] ++ []))).
    apply plus_group_run; [done..| |].
    { apply (stops_span _ Char.isspace); [apply space_not_word|done|].
      intros _. apply (stops_span _ comparator_char); [apply comparator_not_word|done..]. }
    apply star_run; [done| |].
    { apply (stops_span _ comparator_char); [apply comparator_not_space|done..]. }
    apply plus_group_run; [done..| |].
    { apply (stops_span _ Char.isspace); [apply space_not_comparator|done|].
      intros _. apply (stops_span _ Char.digit_or_dot);
        [apply digit_or_dot_not_comparator| |].
      - rewrite all_app. by rewrite Hnumd, Hpre.
      - by destruct num. }
    apply star_run; [done| |].
    { apply (stops_span _ Char.digit_or_dot); [apply digit_or_dot_not_space| |].
      - rewrite all_app. by rewrite Hnumd, Hpre.
      - by destruct num. }
    apply plus_group_run; [by destruct num| |done|].
    { rewrite all_app. by rewrite Hnumd, Hpre. }
    reflexivity. }
  rewrite (str_app_assoc num pre post) in Hr. by rewrite Hr.
Qed.

Lemma condition_inv condition g :
  Re.rmatch condition_pattern condition = Some g →
  ∃ id mid cmp rest,
    condition = id +:+ mid +:+ cmp +:+ rest ∧
    id ≠ EmptyString ∧ Str.all Char.isword id = true ∧
    cmp ≠ EmptyString ∧ Str.all comparator_char cmp = true.
Proof.
  unfold Re.rmatch, condition_pattern. intros H.
  destruct (Re.run _ _ _ _ _) as [r|] eqn:Hr; [|done]. clear H.
  change [Re.Open; Re.Plus Char.isword; Re.Close; Re.Star Char.isspace;
          Re.Open; Re.Plus ?c; Re.Close; Re.Star Char.isspace;
          Re.Open; Re.Plus ?d; Re.Close]
    with ([Re.Open; Re.Plus Char.isword; Re.Close] ++
          Re.Star Char.isspace ::
          ([Re.Open; Re.Plus comparator_char; Re.Close] ++
           Re.Star Char.isspace ::
           ([Re.Open; Re.Plus d; Re.Close] ++ []))) in Hr.
  apply plus_group_split in Hr as (c & id & ? & ? & -> & Hc & Hid & Hr).
  apply star_split in Hr as (mid & ? & ? & -> & _ & Hr).
  apply plus_group_split in Hr as (d & cmp & rest & ? & -> & Hd & Hcmp & _).
  exists (String c id), mid, (String d cmp), rest. simpl.
  rewrite Hc, Hid, Hd, Hcmp. by split_and!.
Qed.

Lemma all_false_app p (a : string) c b :
  p c = false → Str.all p (a +:+ String c b) = false.
Proof.
  intros Hc. rewrite all_app. simpl. rewrite Hc. by rewrite andb_false_r.
Qed.

(** X19: a trigger condition that starts with a name, comparator
    characters and a number (white space between them optional) is checked
    whatever follows the number: the name must be a declared METRIC, the
    comparator one of the six known ones; the threshold is not looked at
    beyond its first character, and the action can only produce a
    warning. *)
Theorem trigger_condition_checked :
  ∀ (names : gset string) (id ws1 cmp ws2 num rest action : string) (s : self),
    id ≠ EmptyString → Str.all Char.isword id = true →
    Str.all Char.isspace ws1 = true →
    cmp ≠ EmptyString → Str.all comparator_char cmp = true →
    Str.all Char.isspace ws2 = true →
    num ≠ EmptyString → Str.all Char.digit_or_dot num = true →
    trigger_body names
      (TriggerNode.mk (id +:+ ws1 +:+ cmp +:+ ws2 +:+ num +:+ rest) action) s
    = (mkSelf (ast s)
         (errors s
          ++ (if bool_decide (id ∈ names) then []
              else [undefined_trigger_message id])
          ++ (if in_list cmp valid_comparators then []
              else [invalid_comparator_message cmp]))
         (warnings s
          ++ (if bool_decide (is_Some (Re.rmatch action_pattern action)) then []
              else [action_warning action])),
       Ok tt).
Proof.
  intros names id ws1 cmp ws2 num rest action s Hid Hidw Hws1 Hcmp Hcmpc Hws2 Hnum Hnumd.
  destruct (condition_match id ws1 cmp ws2 num rest) as [threshold Hm]; try done.
  unfold trigger_body. cbn [TriggerNode.condition TriggerNode.action]. rewrite Hm.
  unfold mbind, when, errors_append, warnings_append, ret.
  destruct (bool_decide (id ∈ names)), (in_list cmp valid_comparators),
    (bool_decide (is_Some _)); cbn;
    rewrite ?app_nil_r, <- ?(assoc_L (++)); try done; by destruct s.
Qed.

Lemma trigger_condition_checked_witness :
  trigger_body {["Risk"]}
    (TriggerNode.mk ("VendorDrift" +:+ " " +:+ "=>" +:+ " " +:+ "0.40" +:+ " today")
       "escalate") (init empty_ast)
  = (mkSelf empty_ast
       ["Trigger references undefined METRIC: VendorDrift";
        "Invalid comparator '=>' in trigger"]
       ["Action 'escalate' may have invalid syntax"],
     Ok tt).
Proof.
  rewrite (trigger_condition_checked {["Risk"]} "VendorDrift" " " "=>" " " "0.40"
             " today" "escalate" (init empty_ast)) by done.
  vm_compute. reflexivity.
Defined.

(** X20: a trigger whose condition does not start with a word character,
    or holds none of the characters [>], [<], [=] and [!], gets the one
    error [Invalid trigger condition syntax] and nothing else: its action
    is not checked. *)
Theorem trigger_condition_rejected :
  ∀ (names : gset string) (trigger : TriggerNode.t) (s : self),
    Re.wordch (Str.head (TriggerNode.condition trigger)) = false
    ∨ Str.all (λ c, negb (comparator_char c)) (TriggerNode.condition trigger) = true →
    trigger_body names trigger s
    = (mkSelf (ast s)
         (errors s ++ [invalid_condition_message (TriggerNode.condition trigger)])
         (warnings s),
       Ok tt).
Proof.
  intros names [condition action] s H. unfold trigger_body.
  cbn [TriggerNode.condition TriggerNode.action] in *.
  destruct (Re.rmatch condition_pattern condition) as [g|] eqn:Hg.
  - exfalso. apply condition_inv in Hg
      as (id & mid & cmp & rest & -> & Hid & Hidw & Hcmp & Hcmpc).
    destruct id as [|c id]; [done|]. destruct cmp as [|d cmp]; [done|].
    simpl in *. apply andb_prop in Hidw as [Hc _]. apply andb_prop in Hcmpc as [Hd _].
    destruct H as [H|H]; [congruence|].
    apply andb_prop in H as [_ H].
    rewrite <- str_app_assoc in H.
    rewrite all_false_app in H; [done|]. by rewrite Hd.
  - done.
Qed.

Lemma trigger_condition_rejected_witness :
  trigger_body ∅ (TriggerNode.mk "Risk above 0.4" "escalate") (init empty_ast)
  = (mkSelf empty_ast ["Invalid trigger condition syntax: Risk above 0.4"] [],
     Ok tt).
Proof.
  apply (trigger_condition_rejected ∅ (TriggerNode.mk "Risk above 0.4" "escalate")
           (init empty_ast)).
  right. reflexivity.
Defined.

(** ** The errors a parsed document can get *)

Lemma appends_weaken a (Q Q' : string → Prop) {A} (m : M A) :
  (∀ msg, Q msg → Q' msg) → appends a Q m → appends a Q' m.
Proof.
  intros HQ Hm s Hs. destruct (Hm s Hs) as (Ha & l & Hl & Hf).
  split; [done|]. exists l. split; [done|]. by eapply Forall_impl.
Qed.

Lemma mandatory_fields_reportable a : appends a reportable _validate_mandatory_fields.
Proof.
  apply appends_get_ast.
  apply appends_mbind.
  { apply appends_when. intros _. apply appends_errors_append. constructor. }
  intros _. apply appends_mbind.
  { apply appends_when. intros _. apply appends_errors_append. constructor. }
  intros _. apply appends_mbind.
  { apply appends_when. intros _. apply appends_errors_append. constructor. }
  intros _. apply appends_when. intros _. apply appends_warnings_append.
Qed.

Lemma metrics_loop_reportable float_str a l : ∀ names,
  appends a reportable (metrics_loop float_str names l).
Proof.
  induction l as [|m l IH]; intros names; simpl; [apply appends_ret|].
  apply appends_mbind.
  { apply appends_when. intros _. apply appends_errors_append. constructor. }
  intros _. apply appends_mbind; [apply appends_first_char|]. intros c.
  do 3 (apply appends_mbind;
        [apply appends_when; intros _; apply appends_warnings_append|intros _]).
  apply IH.
Qed.

Lemma rmetrics_loop_reportable a mn l : ∀ rn,
  appends a reportable (rmetrics_loop mn rn l).
Proof.
  induction l as [|r l IH]; intros rn; simpl; [apply appends_ret|].
  apply appends_mbind; [|intros rn'; apply IH].
  unfold rmetric_body.
  apply appends_mbind.
  { apply appends_when. intros _. apply appends_errors_append. constructor. }
  intros _. apply appends_mbind; [apply appends_first_char|]. intros c.
  apply appends_mbind.
  { apply appends_when. intros _. apply appends_warnings_append. }
  intros _. apply appends_mbind.
  { unfold undefined_refs. apply (appends_for_each _ _ (λ _, True)); [|by apply Forall_true].
    intros token _. apply appends_when. intros _. apply appends_errors_append.
    apply reference_undefined. }
  intros _. apply appends_mbind; [|intros _; apply appends_ret].
  apply appends_when. intros _. apply appends_errors_append. apply reference_circular.
Qed.

Lemma trigger_body_reportable a mn t : appends a reportable (trigger_body mn t).
Proof.
  unfold trigger_body.
  repeat case_match; try (apply appends_errors_append; apply condition_invalid).
  apply appends_mbind.
  { apply appends_when. intros _. apply appends_errors_append. apply trigger_undefined. }
  intros _. apply appends_mbind.
  { apply appends_when. intros _. apply appends_errors_append. apply comparator_invalid. }
  intros _. apply appends_when. intros _. apply appends_warnings_append.
Qed.

Lemma identifier_references_reportable a :
  appends a reportable _validate_identifier_references.
Proof.
  apply appends_get_ast.
  apply (appends_for_each _ _ (λ _, True)); [|by apply Forall_true]. intros r _.
  apply (appends_for_each _ _ (λ _, True)); [|by apply Forall_true]. intros token _.
  do 2 (apply appends_when; intros _). apply appends_warnings_append.
Qed.

Lemma validate_reportable float_str a :
  parsed a → appends a reportable (validate float_str).
Proof.
  intros Ha. unfold validate.
  apply appends_mbind; [apply mandatory_fields_reportable|intros _].
  apply appends_mbind;
    [by apply (appends_weaken _ (λ _, False)), validate_persona_appends|intros _].
  apply appends_mbind.
  { apply (appends_weaken _ duplicate_goal_message); [|by apply validate_goals_appends].
    intros msg [name ->]. constructor. }
  intros _. apply appends_mbind.
  { apply appends_get_ast, metrics_loop_reportable. }
  intros _. apply appends_mbind.
  { apply appends_get_ast, rmetrics_loop_reportable. }
  intros _. apply appends_mbind.
  { apply appends_get_ast.
    apply (appends_for_each _ _ (λ _, True)); [|by apply Forall_true].
    intros t _. apply trigger_body_reportable. }
  intros _. apply appends_mbind;
    [by apply (appends_weaken _ (λ _, False)), validate_variants_appends|intros _].
  apply appends_mbind.
  { apply (appends_weaken _ (λ _, False)); [done|].
    apply validate_output_appends, (parsed_output a Ha). }
  intros _. apply appends_mbind; [apply identifier_references_reportable|intros _].
  intros s Hs. split; [done|]. exists []. by rewrite app_nil_r.
Qed.

Lemma reportable_in_reach msg : reportable msg → ¬ out_of_reach msg.
Proof.
  intros H [E|[[x E]|[[x E]|[x E]]]]; destruct H; discriminate E.
Qed.

(** X24: every error [validate] reports on the AST of a successful parse
    is one of eleven kinds: a mandatory declaration is missing, a goal,
    metric or derived metric name is declared again, a derived metric
    refers to an undefined name or to itself, a trigger has an invalid
    condition, an undefined metric or an invalid comparator. The errors
    for an empty persona, goal or variant value and for an output kind
    outside the closed set are never reported. *)
Theorem errors_after_parse :
  ∀ (float_str : spec_float → string) (text : string) (a : ROIDSLAST),
    parse text = Ok a →
    Forall (λ msg, reportable msg ∧ ¬ out_of_reach msg)
      (errors (validate float_str (init a)).1).
Proof.
  intros float_str text a Hp. apply parse_parsed in Hp.
  destruct (validate_reportable float_str a Hp (init a) eq_refl) as (_ & l & -> & Hl).
  simpl. eapply Forall_impl; [exact Hl|].
  intros msg Hm. split; [done|]. by apply reportable_in_reach.
Qed.

Lemma errors_after_parse_witness :
  Forall (λ msg, reportable msg ∧ ¬ out_of_reach msg)
    (errors (validate (λ _, "float") (init Examples.two_goals_ast)).1).
Proof.
  apply (errors_after_parse (λ _, "float") Examples.two_goals).
  vm_compute. reflexivity.
Defined.


(** * Properties of the interpreter and of the command line driver *)

(** ** The outputs a document asks for *)

Lemma valid_output_cases kind :
  in_list kind valid_outputs = true →
  kind = "SMS_CAMPAIGN" ∨ kind = "AGENT" ∨ kind = "RMetrics" ∨ kind = "vROI" ∨
  kind = "MintSite" ∨ kind = "SK_SKILL".
Proof.
  unfold in_list, valid_outputs. cbn [existsb]. intros H.
  repeat (apply orb_prop in H as [H|H]; [apply String.eqb_eq in H; tauto|]).
  done.
Qed.

(** X22: for the AST of a successful parse, [_get_outputs_from_ast] finds
    the declared output kind in its dictionary, whatever the kind: every
    kind the parser accepts has an entry of its own, and the fallback
    list is returned exactly when the document declares no OUTPUT. *)
Theorem fallback_targets_iff_no_output :
  ∀ (text : string) (a : ROIDSLAST),
    parse text = Ok a →
    match output a with
    | Some kind => output_map !! kind = Some (_get_outputs_from_ast a)
    | None => _get_outputs_from_ast a = ["mintsite"]
    end ∧
    (_get_outputs_from_ast a = ["mintsite"] ↔ output a = None).
Proof.
  intros text a Hp. apply parse_parsed in Hp as [_ _ _ _ _ _ _ _ Ho].
  unfold _get_outputs_from_ast. destruct (output a) as [kind|]; [|done].
  specialize (Ho kind eq_refl). apply valid_output_cases in Ho.
  destruct Ho as [-> | [-> | [-> | [-> | [-> | ->]]]]]; by vm_compute.
Qed.

Lemma fallback_targets_iff_no_output_witness :
  match output Examples.scenario_A_ast with
  | Some kind => output_map !! kind = Some (_get_outputs_from_ast Examples.scenario_A_ast)
  | None => _get_outputs_from_ast Examples.scenario_A_ast = ["mintsite"]
  end ∧
  (_get_outputs_from_ast Examples.scenario_A_ast = ["mintsite"]
   ↔ output Examples.scenario_A_ast = None).
Proof.
  apply (fallback_targets_iff_no_output Examples.scenario_A).
  vm_compute. reflexivity.
Defined.

(** ** Primary and secondary goals *)

Lemma before_word name rest :
  Str.all Char.isword name = true →
  Str.before ":" (name +:+ String ":" rest) = name.
Proof.
  induction name as [|c name IH]; [done|].
  cbn [Str.all String.append Str.before].
  intros H. apply andb_prop in H as [Hc H]. rewrite IH by done.
  destruct (Ascii.eqb c ":") eqn:E; [|done].
  apply Ascii.eqb_eq in E as ->. done.
Qed.

Lemma before_goal_text goal :
  Str.all Char.isword (GoalNode.name goal) = true →
  Str.before ":" (goal_text goal) = GoalNode.name goal.
Proof. apply before_word. Qed.

Lemma parse_shaped text a : parse text = Ok a → shaped a.
Proof.
  apply (parse_invariant shaped).
  - split; simpl; try done. intros []; apply map_Forall_empty.
  - apply shaped_step.
Qed.

Lemma primary_goal_is_a_goal a :
  goals a ≠ [] →
  ∃ p, p ∈ goals a ∧ _get_primary_goal a = goal_text p.
Proof.
  unfold _get_primary_goal. destruct (goals a) as [|g l] eqn:E; [done|]. intros _.
  destruct (List.find _ _) as [p|] eqn:F.
  - exists p. split; [|done]. apply find_some in F as [F _].
    by apply list_elem_of_In.
  - exists g. split; [|done]. apply list_elem_of_here.
Qed.

(** X23: for the AST of a successful parse with two goals or more, the
    secondary goals are the goals whose name differs from the name of the
    primary goal, in the order of the source; the primary goal is one of
    the goals and is never listed among the secondary ones (nor is any
    other goal that shares its name). *)
Theorem secondary_goals_exclude_primary :
  ∀ (text : string) (a : ROIDSLAST),
    parse text = Ok a → 2 ≤ length (goals a) →
    ∃ p, p ∈ goals a ∧ _get_primary_goal a = goal_text p ∧
      _get_secondary_goals a
        = goal_text <$> filter (λ g, GoalNode.name g ≠ GoalNode.name p) (goals a) ∧
      _get_primary_goal a ∉ _get_secondary_goals a.
Proof.
  intros text a Hp Hlen. apply parse_shaped in Hp as [_ Hg _ _ _ _ _].
  destruct (primary_goal_is_a_goal a) as (p & Hin & Hprim).
  { intros E. rewrite E in Hlen. simpl in Hlen. lia. }
  exists p. split; [done|]. split; [done|].
  assert (Hid : ∀ g, g ∈ goals a → Str.all Char.isword (GoalNode.name g) = true).
  { intros g Hgin. rewrite Forall_forall in Hg. by destruct (Hg g Hgin) as [[_ ?] _]. }
  assert (Hsec : _get_secondary_goals a
    = goal_text <$> filter (λ g, GoalNode.name g ≠ GoalNode.name p) (goals a)).
  { unfold _get_secondary_goals.
    destruct (length (goals a) <=? 1) eqn:E; [apply Nat.leb_le in E; lia|].
    cbv zeta. by rewrite Hprim, before_goal_text by auto. }
  split; [done|]. rewrite Hsec, Hprim.
  intros (g & Heq & Hgin)%list_elem_of_fmap.
  apply list_elem_of_filter in Hgin as [Hne Hgin]. apply Hne.
  apply (f_equal (Str.before ":")) in Heq.
  by rewrite !before_goal_text in Heq by auto.
Qed.

Lemma secondary_goals_exclude_primary_witness :
  ∃ p, p ∈ goals Examples.two_goals_ast ∧
    _get_primary_goal Examples.two_goals_ast = goal_text p ∧
    _get_secondary_goals Examples.two_goals_ast
      = goal_text <$> filter (λ g, GoalNode.name g ≠ GoalNode.name p)
                        (goals Examples.two_goals_ast) ∧
    _get_primary_goal Examples.two_goals_ast
      ∉ _get_secondary_goals Examples.two_goals_ast.
Proof.
  apply (secondary_goals_exclude_primary Examples.two_goals).
  - vm_compute. reflexivity.
  - simpl. lia.
Defined.

